(** * Prompt Studio: prompt resolution and streaming completion engine

    A shallow embedding of the engine of the Prompt Studio front end:

    - [TokenService.resolveVariables] (services/tokenService.ts),
    - the [detectedVariables] and [parsedOutput] memos of views/CreateView.tsx,
    - [ApiService.generate], [generateStream], [fetchModels] and
      [testConnection] (services/apiService.ts),

    together with the part of the JavaScript run time these functions call:
    string methods, JSON values and [JSON.parse], property reads, truthiness,
    [Array.prototype.sort] and [fetch] as an explicit environment. *)

From Stdlib Require Import String Ascii.
From Stdlib Require Import List NArith ZArith Bool Lia.
From Stdlib Require Import Sorting.Permutation Sorting.Sorted.
From Stdlib Require Import Numbers.DecimalString.
Import ListNotations.
Local Open Scope list_scope.
Set Warnings "-register-all".

(* ================================================================== *)
(** * JavaScript strings *)
(* ================================================================== *)

(** A JavaScript string is a finite sequence of UTF-16 code units. *)
Definition char := N.
Definition jsstring := list char.

(** String literals of the source, written as Rocq strings. *)
Definition js (s : string) : jsstring :=
  map N_of_ascii (list_ascii_of_string s).
Arguments js s%_string.

(** A literal of the source that contains double quotes, written with an
    apostrophe in the place of every double quote. *)
Definition jq (s : string) : jsstring :=
  map (fun c => if (c =? 39)%N then 34%N else c) (js s).
Arguments jq s%_string.

Definition LBRACE : char := 123%N.
Definition RBRACE : char := 125%N.
Definition NEWLINE : char := 10%N.

Fixpoint str_eqb (a b : jsstring) : bool :=
  match a, b with
  | [], [] => true
  | x :: a', y :: b' => N.eqb x y && str_eqb a' b'
  | _, _ => false
  end.

(** [a < b] on strings: code unit by code unit, a proper prefix is smaller. *)
Fixpoint str_ltb (a b : jsstring) : bool :=
  match a, b with
  | _, [] => false
  | [], _ :: _ => true
  | x :: a', y :: b' => N.ltb x y || (N.eqb x y && str_ltb a' b')
  end.

(** WhiteSpace and LineTerminator code points, the set that
    [String.prototype.trim] and its variants strip. *)
Definition is_white (c : char) : bool :=
  ((9 <=? c) && (c <=? 13) || (c =? 32) || (c =? 160) || (c =? 5760)
   || (8192 <=? c) && (c <=? 8202) || (c =? 8232) || (c =? 8233)
   || (c =? 8239) || (c =? 8287) || (c =? 12288) || (c =? 65279))%N.

Fixpoint trimStart (s : jsstring) : jsstring :=
  match s with
  | c :: s' => if is_white c then trimStart s' else s
  | [] => []
  end.

Definition trimEnd (s : jsstring) : jsstring := rev (trimStart (rev s)).

Definition trim (s : jsstring) : jsstring := trimEnd (trimStart s).

(** [s.startsWith(p)] *)
Fixpoint startsWith (s p : jsstring) {struct p} : bool :=
  match p with
  | [] => true
  | a :: p' =>
      match s with
      | [] => false
      | b :: s' => N.eqb b a && startsWith s' p'
      end
  end.

(** [s.endsWith(p)] *)
Definition endsWith (s p : jsstring) : bool := startsWith (rev s) (rev p).

(** [s.indexOf(p)]: the least index at which [p] occurs, [-1] if none. *)
Fixpoint indexOf_from (s p : jsstring) (i : Z) : Z :=
  if startsWith s p then i
  else match s with
       | [] => (-1)%Z
       | _ :: s' => indexOf_from s' p (i + 1)%Z
       end.

Definition indexOf (s p : jsstring) : Z := indexOf_from s p 0%Z.

(** Relative index of [slice]: negative counts from the end, clamped. *)
Definition rel_index (len k : Z) : Z :=
  if (k <? 0)%Z then Z.max (len + k) 0 else Z.min k len.

(** [s.slice(a)] is [slice s a None]; [s.slice(a, b)] is [slice s a (Some b)]. *)
Definition slice (s : jsstring) (a : Z) (b : option Z) : jsstring :=
  let len := Z.of_nat (length s) in
  let from := rel_index len a in
  let to := match b with None => len | Some e => rel_index len e end in
  firstn (Z.to_nat (to - from)) (skipn (Z.to_nat from) s).

(** Prepend a code unit to the first piece of a split. *)
Definition cons_head (c : char) (l : list jsstring) : list jsstring :=
  match l with
  | p :: ps => (c :: p) :: ps
  | [] => [[c]]
  end.

(** [s.split(sep)] for a non-empty [sep]: occurrences are taken leftmost
    first and do not overlap. [skip] counts the code units of a separator
    that was just matched and is still to be passed over. *)
Fixpoint split_from (sep : jsstring) (skip : nat) (s : jsstring)
  : list jsstring :=
  match s with
  | [] => [[]]
  | c :: s' =>
      match skip with
      | S k => split_from sep k s'
      | O =>
          if startsWith s sep
          then [] :: split_from sep (length sep - 1) s'
          else cons_head c (split_from sep 0 s')
      end
  end.

(** [s.split(sep)]; the empty separator cuts between all code units. *)
Definition split (s sep : jsstring) : list jsstring :=
  match sep with
  | [] => map (fun c => [c]) s
  | _ :: _ => split_from sep 0 s
  end.

(** [l.join(sep)] on an array of strings. *)
Fixpoint join (l : list jsstring) (sep : jsstring) : jsstring :=
  match l with
  | [] => []
  | [x] => x
  | x :: rest => x ++ sep ++ join rest sep
  end.

(** [s.split(p).join(v)] *)
Definition replace_all (s p v : jsstring) : jsstring := join (split s p) v.

(** [arr.pop()]: the last element (if any) and the shortened array. *)
Definition pop {A : Type} (l : list A) : option A * list A :=
  match rev l with
  | [] => (None, [])
  | x :: r => (Some x, rev r)
  end.

(** [s.replace(pat, by)] with a string pattern: the first occurrence only.
    ([by] is used literally; the source's replacement has no [$].) *)
Fixpoint replace_first (s pat by_ : jsstring) : jsstring :=
  if startsWith s pat then by_ ++ skipn (length pat) s
  else match s with
       | [] => []
       | c :: s' => c :: replace_first s' pat by_
       end.

(** Does [p] occur in [s] as a substring? *)
Definition includes (s p : jsstring) : bool := negb (indexOf s p =? -1)%Z.

(** Decimal rendering of a non-negative integer, as a template literal
    renders an integer-valued number. *)
Definition decimal (n : N) : jsstring :=
  js (NilZero.string_of_uint (N.to_uint n)).

(* ================================================================== *)
(** * services/tokenService.ts: TokenService *)
(* ================================================================== *)

Module TokenService.

(** A [Record<string, string>]: its entries in [Object.entries] order. *)
Definition Variables := list (jsstring * jsstring).

(** [val || ''] on a string. *)
Definition or_empty (val : jsstring) : jsstring :=
  match val with
  | [] => []
  | _ :: _ => val
  end.

(** The template literal [`{${key}}`]. *)
Definition placeholder (key : jsstring) : jsstring :=
  LBRACE :: key ++ [RBRACE].

Definition resolveVariables (text : jsstring) (variables : Variables)
  : jsstring :=
  fold_left
    (fun resolved entry =>
       let '(key, val) := entry in
       join (split resolved (placeholder key)) (or_empty val))
    variables text.

(** [estimate]: [Math.ceil(text.length / 4)], 0 for the empty string. *)
Definition estimate (text : jsstring) : N :=
  match text with
  | [] => 0
  | _ => (N.of_nat (length text) + 3) / 4
  end%N.

End TokenService.

(* ================================================================== *)
(** * views/CreateView.tsx: placeholder detection and reasoning split *)
(* ================================================================== *)

Module CreateView.

(** Longest prefix of code units other than [}], and what follows it. *)
Fixpoint span_name (s : jsstring) : jsstring * jsstring :=
  match s with
  | [] => ([], [])
  | c :: s' =>
      if N.eqb c RBRACE then ([], s)
      else let '(run, rest) := span_name s' in (c :: run, rest)
  end.

(** One attempt of [/\{([^}]+)\}/] at the start of [s]: the capture and
    the input after the match. The class [[^}]+] is greedy; giving back
    code units cannot help, since each of them is not a [}]. *)
Definition match_at (s : jsstring) : option (jsstring * jsstring) :=
  match s with
  | c :: s' =>
      if N.eqb c LBRACE then
        match span_name s' with
        | ((_ :: _) as name, _ :: rest) => Some (name, rest)
        | _ => None
        end
      else None
  | [] => None
  end.

(** [found.add(x)] on a [Set], kept in insertion order. *)
Definition set_add (x : jsstring) (found : list jsstring) : list jsstring :=
  if existsb (str_eqb x) found then found else found ++ [x].

(** The [while ((match = regex.exec(combined)) !== null)] loop: each
    [exec] finds the leftmost match at or after [lastIndex]; [fuel]
    bounds the number of positions tried. *)
Fixpoint exec_loop (fuel : nat) (rest : jsstring) (found : list jsstring)
  : list jsstring :=
  match fuel with
  | O => found
  | S fuel' =>
      match rest with
      | [] => found
      | _ :: rest' =>
          match match_at rest with
          | Some (name, after) => exec_loop fuel' after (set_add name found)
          | None => exec_loop fuel' rest' found
          end
      end
  end.

Definition detectedVariables (systemPrompt userPrompt : jsstring)
  : list jsstring :=
  let combined := systemPrompt ++ userPrompt in
  exec_loop (length combined) combined [].

Record ParsedOutput := {
  thought : option jsstring;   (* [None] is [null] *)
  content : jsstring
}.

Definition parsedOutput (output : jsstring) : ParsedOutput :=
  match output with
  | [] => {| thought := None; content := [] |}
  | _ :: _ =>
      if negb (startsWith (trimStart output) (js "<think>"))
      then {| thought := None; content := output |}
      else
        let thinkEnd := indexOf output (js "</think>") in
        if (thinkEnd =? -1)%Z
        then {| thought := Some (trim (slice output 7 None));
                content := [] |}
        else {| thought := Some (trim (slice output 7 (Some thinkEnd)));
                content := trim (slice output (thinkEnd + 8) None) |}
  end.

End CreateView.

(* ================================================================== *)
(** * JavaScript values described by JSON *)
(* ================================================================== *)

(** A JSON number literal denotes the decimal [+- mantissa * 10^exponent10];
    the run time holds the IEEE-754 double nearest to it. *)
Record number := {
  negative : bool;
  mantissa : N;
  exponent10 : Z
}.

Inductive json :=
| JNull
| JBool (b : bool)
| JNum (n : number)
| JStr (s : jsstring)
| JArr (items : list json)
| JObj (members : list (jsstring * json)).   (* in source order *)

(** A JavaScript value as the engine sees it: [None] is [undefined]. *)
Definition value := option json.

(** Errors raised by the run time itself; their message text is the
    engine's own. *)
Inductive native_error :=
| ReadOfNullish (base : value) (prop : jsstring)  (* TypeError: [null.p] *)
| NotPrimitive                                    (* TypeError in ToString *)
| BadJSON (text : jsstring).                      (* SyntaxError of JSON.parse *)

(** A thrown value, or the reason of a rejected promise. *)
Inductive exn :=
| Error (message : jsstring)      (* [new Error(message)]; a rejection
                                     without [message] has the empty one *)
| Native (e : native_error).

Inductive completion (A : Type) :=
| Normal (a : A)
| Throw (e : exn).
Arguments Normal {A} a.
Arguments Throw {A} e.

Definition bind {A B : Type} (c : completion A) (k : A -> completion B)
  : completion B :=
  match c with
  | Normal a => k a
  | Throw e => Throw e
  end.

Notation "x <- c ;; k" := (bind c (fun x => k))
  (at level 61, c at next level, right associativity).

(** What the source leaves to the JavaScript engine. *)
Class Engine := {
  Number_toString : number -> jsstring;     (* Number::toString *)
  native_message : native_error -> jsstring (* [e.message] of a native error *)
}.

(** The double nearest to a positive decimal is [0] exactly when the
    decimal is at most [2^-1075] (ties go to the even neighbour, [0]). *)
Definition rounds_to_zero (n : number) : bool :=
  if (mantissa n =? 0)%N then true
  else if (0 <=? exponent10 n)%Z then false
  else (Z.of_N (mantissa n) * 2 ^ 1075 <=? 10 ^ (- exponent10 n))%Z.

(** ToBoolean. *)
Definition truthy (v : value) : bool :=
  match v with
  | None => false
  | Some JNull => false
  | Some (JBool b) => b
  | Some (JNum n) => negb (rounds_to_zero n)
  | Some (JStr s) => match s with [] => false | _ :: _ => true end
  | Some (JArr _) => true
  | Some (JObj _) => true
  end.

(** [a || b] *)
Definition or_else (a b : value) : value := if truthy a then a else b.

(** The value of own property [k] of an object built by [JSON.parse]:
    a later duplicate of a key overwrites an earlier one. *)
Fixpoint lookup_last (k : jsstring) (members : list (jsstring * json))
  : value :=
  match members with
  | [] => None
  | (k', v) :: rest =>
      match lookup_last k rest with
      | Some w => Some w
      | None => if str_eqb k' k then Some v else None
      end
  end.

(** [v.k] for a value [v] that is neither [null] nor [undefined], and a
    name [k] that is neither ["length"], an array index, nor a member of a
    built-in prototype: only objects have such a property. *)
Definition get_named (v : json) (k : jsstring) : value :=
  match v with
  | JObj ms => lookup_last k ms
  | _ => None
  end.

(** [v[0]] for a value [v] that is neither [null] nor [undefined]. *)
Definition get_index0 (v : json) : value :=
  match v with
  | JArr (x :: _) => Some x
  | JStr (c :: _) => Some (JStr [c])
  | JObj ms => lookup_last (js "0") ms
  | _ => None
  end.

(** Optional chaining [v?.p]: [undefined] when [v] is nullish. *)
Definition opt (v : value) (p : json -> value) : value :=
  match v with
  | None => None
  | Some JNull => None
  | Some x => p x
  end.

(** Plain property read [v.k]: a TypeError when [v] is nullish. *)
Definition read (v : value) (k : jsstring) : completion value :=
  match v with
  | None => Throw (Native (ReadOfNullish v k))
  | Some JNull => Throw (Native (ReadOfNullish v k))
  | Some x => Normal (get_named x k)
  end.

Definition isArray (v : value) : option (list json) :=
  match v with
  | Some (JArr items) => Some items
  | _ => None
  end.

Fixpoint sequence {A : Type} (l : list (completion A)) : completion (list A) :=
  match l with
  | [] => Normal []
  | c :: rest => x <- c ;; xs <- sequence rest ;; Normal (x :: xs)
  end.

Section Conversions.
Context {E : Engine}.

(** ToString on a non-[undefined] value. An object with an own
    [toString] member (never callable, coming from JSON) has no primitive
    value; an array is joined with [","], [null] elements printing as
    the empty string. *)
Fixpoint ToString (v : json) : completion jsstring :=
  match v with
  | JNull => Normal (js "null")
  | JBool true => Normal (js "true")
  | JBool false => Normal (js "false")
  | JNum n => Normal (Number_toString n)
  | JStr s => Normal s
  | JArr items =>
      parts <- sequence
                 (map (fun x => match x with
                                | JNull => Normal []
                                | _ => ToString x
                                end) items) ;;
      Normal (join parts (js ","))
  | JObj ms =>
      match lookup_last (js "toString") ms with
      | Some _ => Throw (Native NotPrimitive)
      | None => Normal (js "[object Object]")
      end
  end.

(** [e.message] *)
Definition message_of (e : exn) : jsstring :=
  match e with
  | Error m => m
  | Native n => native_message n
  end.

(** The value thrown by [throw new Error(x)] for a defined [x]. *)
Definition new_Error (x : json) : exn :=
  match ToString x with
  | Normal m => Error m
  | Throw e => e
  end.

(** Stable insertion of [x] before the first element whose key is not
    smaller than the key of [x]. *)
Fixpoint insert_by_key (x : jsstring * json) (l : list (jsstring * json))
  : list (jsstring * json) :=
  match l with
  | [] => [x]
  | y :: l' =>
      if str_ltb (fst y) (fst x) then y :: insert_by_key x l'
      else x :: l
  end.

Definition sort_by_key (l : list (jsstring * json)) : list (jsstring * json) :=
  fold_right insert_by_key [] l.

Definition defined_items (l : list value) : list json :=
  flat_map (fun v => match v with Some x => [x] | None => [] end) l.

(** [arr.sort()] with the default comparison: [undefined] elements go
    last, the others are ordered, stably, by their ToString images. With
    fewer than two defined elements nothing is compared. *)
Definition sort (l : list value) : completion (list value) :=
  let items := defined_items l in
  let holes := repeat (@None json) (length l - length items) in
  match items with
  | [] => Normal l
  | [_] => Normal (map Some items ++ holes)
  | _ =>
      keys <- sequence (map ToString items) ;;
      Normal (map (fun p => Some (snd p)) (sort_by_key (combine keys items))
              ++ holes)
  end.

End Conversions.

(* ================================================================== *)
(** * JSON.parse *)
(* ================================================================== *)

Module JSON.

Definition is_ws (c : char) : bool :=
  ((c =? 32) || (c =? 9) || (c =? 10) || (c =? 13))%N.

Fixpoint skip_ws (s : jsstring) : jsstring :=
  match s with
  | c :: s' => if is_ws c then skip_ws s' else s
  | [] => []
  end.

Definition is_digit (c : char) : bool := ((48 <=? c) && (c <=? 57))%N.

Definition hex_digit (c : char) : option N :=
  if is_digit c then Some (c - 48)%N
  else if ((97 <=? c) && (c <=? 102))%N then Some (c - 87)%N
  else if ((65 <=? c) && (c <=? 70))%N then Some (c - 55)%N
  else None.

Definition hex4 (a b c d : char) : option char :=
  match hex_digit a, hex_digit b, hex_digit c, hex_digit d with
  | Some x, Some y, Some z, Some w => Some (((x * 16 + y) * 16 + z) * 16 + w)%N
  | _, _, _, _ => None
  end.

(** The code unit denoted by the escape [\e]. *)
Definition unescape (e : char) : option char :=
  if (e =? 34)%N then Some 34%N            (* quote *)
  else if (e =? 92)%N then Some 92%N       (* backslash *)
  else if (e =? 47)%N then Some 47%N       (* slash *)
  else if (e =? 98)%N then Some 8%N        (* escape b *)
  else if (e =? 102)%N then Some 12%N      (* escape f *)
  else if (e =? 110)%N then Some 10%N      (* escape n *)
  else if (e =? 114)%N then Some 13%N      (* escape r *)
  else if (e =? 116)%N then Some 9%N       (* escape t *)
  else None.

Definition cons_fst {A B : Type} (a : A) (r : option (list A * B))
  : option (list A * B) :=
  match r with
  | Some (l, b) => Some (a :: l, b)
  | None => None
  end.

(** The characters of a string literal after its opening quote, up to and
    including the closing quote; the rest of the input follows. *)
Fixpoint string_body (s : jsstring) : option (jsstring * jsstring) :=
  match s with
  | [] => None
  | c :: s' =>
      if (c =? 34)%N then Some ([], s')
      else if (c =? 92)%N then
        match s' with
        | [] => None
        | e :: s'' =>
            if (e =? 117)%N then
              match s'' with
              | h1 :: h2 :: h3 :: h4 :: s3 =>
                  match hex4 h1 h2 h3 h4 with
                  | Some u => cons_fst u (string_body s3)
                  | None => None
                  end
              | _ => None
              end
            else
              match unescape e with
              | Some u => cons_fst u (string_body s'')
              | None => None
              end
        end
      else if (c <? 32)%N then None
      else cons_fst c (string_body s')
  end.

(** Longest run of decimal digits (as digit values) and what follows. *)
Fixpoint digits (s : jsstring) : list N * jsstring :=
  match s with
  | c :: s' =>
      if is_digit c
      then let '(ds, rest) := digits s' in ((c - 48)%N :: ds, rest)
      else ([], s)
  | [] => ([], [])
  end.

Definition digits_value (ds : list N) : N :=
  fold_left (fun acc d => (acc * 10 + d)%N) ds 0%N.

(** [int]: a single [0], or a non-empty run of digits not starting with [0]. *)
Definition int_part (s : jsstring) : option (list N * jsstring) :=
  match s with
  | c :: s' =>
      if (c =? 48)%N then Some ([0%N], s')
      else match digits s with
           | ([], _) => None
           | (ds, rest) => Some (ds, rest)
           end
  | [] => None
  end.

(** [frac]: nothing, or [.] and a non-empty run of digits. *)
Definition frac_part (s : jsstring) : option (list N * jsstring) :=
  match s with
  | c :: s' =>
      if (c =? 46)%N then
        match digits s' with
        | ([], _) => None
        | (ds, rest) => Some (ds, rest)
        end
      else Some ([], s)
  | [] => Some ([], [])
  end.

(** [exp]: nothing, or [e]/[E], an optional sign and a non-empty run of digits. *)
Definition exp_part (s : jsstring) : option (Z * jsstring) :=
  match s with
  | c :: s' =>
      if ((c =? 101) || (c =? 69))%N then
        let '(sign, s'') :=
          match s' with
          | d :: r => if (d =? 45)%N then ((-1)%Z, r)
                      else if (d =? 43)%N then (1%Z, r)
                      else (1%Z, s')
          | [] => (1%Z, s')
          end in
        match digits s'' with
        | ([], _) => None
        | (ds, rest) => Some ((sign * Z.of_N (digits_value ds))%Z, rest)
        end
      else Some (0%Z, s)
  | [] => Some (0%Z, [])
  end.

Definition number_literal (s : jsstring) : option (number * jsstring) :=
  let '(neg, s1) :=
    match s with
    | c :: r => if (c =? 45)%N then (true, r) else (false, s)
    | [] => (false, s)
    end in
  match int_part s1 with
  | None => None
  | Some (ip, s2) =>
      match frac_part s2 with
      | None => None
      | Some (fp, s3) =>
          match exp_part s3 with
          | None => None
          | Some (ex, s4) =>
              Some ({| negative := neg;
                       mantissa := digits_value (ip ++ fp);
                       exponent10 := (ex - Z.of_nat (length fp))%Z |}, s4)
          end
      end
  end.

(** The three mutually recursive productions, each written over the
    parsers of its sub-productions. *)
Definition value_parser := jsstring -> option (json * jsstring).
Definition elements_parser := jsstring -> option (list json * jsstring).
Definition members_parser :=
  jsstring -> option (list (jsstring * json) * jsstring).

(** [value]: one JSON value at the start of the input (after white
    space), and the input that follows it. *)
Definition value_step (elements : elements_parser) (members : members_parser)
  : value_parser :=
  fun s =>
    match skip_ws s with
    | [] => None
    | c :: r =>
        if (c =? 34)%N then
          match string_body r with
          | Some (str, rest) => Some (JStr str, rest)
          | None => None
          end
        else if (c =? 123)%N then
          match skip_ws r with
          | d :: r' =>
              if (d =? 125)%N then Some (JObj [], r')
              else match members (d :: r') with
                   | Some (ms, rest) => Some (JObj ms, rest)
                   | None => None
                   end
          | [] => None
          end
        else if (c =? 91)%N then
          match skip_ws r with
          | d :: r' =>
              if (d =? 93)%N then Some (JArr [], r')
              else match elements (d :: r') with
                   | Some (vs, rest) => Some (JArr vs, rest)
                   | None => None
                   end
          | [] => None
          end
        else if startsWith (c :: r) (js "true")
        then Some (JBool true, skipn 4 (c :: r))
        else if startsWith (c :: r) (js "false")
        then Some (JBool false, skipn 5 (c :: r))
        else if startsWith (c :: r) (js "null")
        then Some (JNull, skipn 4 (c :: r))
        else match number_literal (c :: r) with
             | Some (n, rest) => Some (JNum n, rest)
             | None => None
             end
    end.

(** [elements]: values separated by commas, up to the closing bracket. *)
Definition elements_step (value : value_parser) (elements : elements_parser)
  : elements_parser :=
  fun s =>
    match value s with
    | None => None
    | Some (v, r) =>
        match skip_ws r with
        | c :: r' =>
            if (c =? 44)%N then cons_fst v (elements r')
            else if (c =? 93)%N then Some ([v], r')
            else None
        | [] => None
        end
    end.

(** [members]: [string : value] pairs separated by commas, up to the
    closing brace. *)
Definition members_step (value : value_parser) (members : members_parser)
  : members_parser :=
  fun s =>
    match skip_ws s with
    | q :: r0 =>
        if (q =? 34)%N then
          match string_body r0 with
          | None => None
          | Some (key, r1) =>
              match skip_ws r1 with
              | colon :: r2 =>
                  if (colon =? 58)%N then
                    match value r2 with
                    | None => None
                    | Some (v, r3) =>
                        match skip_ws r3 with
                        | c :: r4 =>
                            if (c =? 44)%N
                            then cons_fst (key, v) (members r4)
                            else if (c =? 125)%N then Some ([(key, v)], r4)
                            else None
                        | [] => None
                        end
                    end
                  else None
              | [] => None
              end
          end
        else None
    | [] => None
    end.

(** The productions, with [fuel] bounding the depth of the calls. *)
Fixpoint parse_value (fuel : nat) (s : jsstring) {struct fuel}
  : option (json * jsstring) :=
  match fuel with
  | O => None
  | S fuel' => value_step (parse_elements fuel') (parse_members fuel') s
  end

with parse_elements (fuel : nat) (s : jsstring) {struct fuel}
  : option (list json * jsstring) :=
  match fuel with
  | O => None
  | S fuel' => elements_step (parse_value fuel') (parse_elements fuel') s
  end

with parse_members (fuel : nat) (s : jsstring) {struct fuel}
  : option (list (jsstring * json) * jsstring) :=
  match fuel with
  | O => None
  | S fuel' => members_step (parse_value fuel') (parse_members fuel') s
  end.

(** [JSON.parse(text)]: [None] stands for the SyntaxError. Twice the
    length of the text (and two) is fuel enough: see [parse_fuel]. *)
Definition parse (text : jsstring) : option json :=
  match parse_value (2 * length text + 2) text with
  | Some (v, rest) =>
      match skip_ws rest with
      | [] => Some v
      | _ :: _ => None
      end
  | None => None
  end.

End JSON.

(** A parser never returns more input than it was given. *)
Definition shrinking {A : Type} (p : jsstring -> option (A * jsstring)) : Prop :=
  forall s a r, p s = Some (a, r) -> length r <= length s.

(* ================================================================== *)
(** * The network, as the services see it *)
(* ================================================================== *)

Inductive Role := system | user | assistant.

Record ChatMessage := {
  role : Role;
  msg_content : jsstring
}.

Record ApiConfig := {
  id : jsstring;
  name : jsstring;
  baseUrl : jsstring;
  apiKey : jsstring;
  models : list jsstring
}.

(** The object handed to [JSON.stringify] as request body. *)
Record RequestBody := {
  body_model : jsstring;
  body_messages : list ChatMessage;
  body_temperature : number;
  body_stream : option bool       (* [None]: the key is not there *)
}.

Record Request := {
  url : jsstring;
  method : jsstring;
  headers : list (jsstring * jsstring);
  body : option RequestBody
}.

(** One [await reader.read()] that does not report [done]: the text that
    [decoder.decode(value, {stream: true})] returns for the bytes read, or
    the rejection of the read. The end of the list is [done]. *)
Inductive ReadEvent :=
| Value (text : jsstring)
| ReadRejected (message : jsstring).

Record Response := {
  status : N;
  response_body : option (list ReadEvent)    (* [None]: [response.body] is null *)
}.

(** [response.ok]: the status is in the range 200-299. *)
Definition ok (r : Response) : bool :=
  ((200 <=? status r) && (status r <=? 299))%N.

Inductive FetchOutcome :=
| FetchRejected (message : jsstring)          (* network failure *)
| Resolved (r : Response).

(** The environment of one run: what [fetch] answers to each request. *)
Definition World := Request -> FetchOutcome.

(** The whole body as text, as [response.json()] and its kin read it. *)
Fixpoint read_all (events : list ReadEvent) : completion jsstring :=
  match events with
  | [] => Normal []
  | Value text :: rest => tl <- read_all rest ;; Normal (text ++ tl)
  | ReadRejected m :: _ => Throw (Error m)
  end.

Definition parse_or_throw (text : jsstring) : completion json :=
  match JSON.parse text with
  | Some v => Normal v
  | None => Throw (Native (BadJSON text))
  end.

(** [await response.json()] *)
Definition response_json (r : Response) : completion json :=
  text <- read_all (match response_body r with
                    | Some events => events
                    | None => []
                    end) ;;
  parse_or_throw text.

(* ================================================================== *)
(** * services/apiService.ts: ApiService *)
(* ================================================================== *)

Module ApiService.

Record CompletionResponse := {
  content : value;
  usage : value;
  error : option jsstring
}.

Record StreamChunk := {
  chunk_content : value;
  chunk_usage : value;
  chunk_error : option jsstring
}.

Record ModelsResult := {
  success : bool;
  result_models : option (list value);
  result_error : option jsstring
}.

Record ConnectionResult := {
  connected : bool;
  message : jsstring
}.

(** [if (url.endsWith('/')) url = url.slice(0, -1)] *)
Definition strip_slash (u : jsstring) : jsstring :=
  if endsWith u (js "/") then slice u 0 (Some (-1)%Z) else u.

Definition completions_url (config : ApiConfig) : jsstring :=
  let u := strip_slash (baseUrl config) in
  if negb (endsWith u (js "/chat/completions"))
  then u ++ js "/chat/completions"
  else u.

Definition models_url (config : ApiConfig) : jsstring :=
  let u := strip_slash (baseUrl config) in
  if endsWith u (js "/chat/completions")
  then replace_first u (js "/chat/completions") (js "/models")
  else u ++ js "/models".

Definition request_headers (config : ApiConfig) : list (jsstring * jsstring) :=
  (js "Content-Type", js "application/json")
  :: match apiKey config with
     | [] => []
     | _ :: _ => [(js "Authorization", js "Bearer " ++ apiKey config)]
     end.

Definition temperature : number :=
  {| negative := false; mantissa := 7; exponent10 := -1 |}.

Definition completion_request (config : ApiConfig) (model : jsstring)
    (messages : list ChatMessage) (stream : option bool) : Request :=
  {| url := completions_url config;
     method := js "POST";
     headers := request_headers config;
     body := Some {| body_model := model;
                     body_messages := messages;
                     body_temperature := temperature;
                     body_stream := stream |} |}.

Definition models_request (config : ApiConfig) : Request :=
  {| url := models_url config;
     method := js "GET";
     headers := request_headers config;
     body := None |}.

(** [msg || fallback] on strings. *)
Definition or_default (msg fallback : jsstring) : jsstring :=
  match msg with
  | [] => fallback
  | _ :: _ => msg
  end.

Section WithEngine.
Context {E : Engine}.

(** [errData = await response.json().catch(() => ({}))] *)
Definition errData (r : Response) : json :=
  match response_json r with
  | Normal v => v
  | Throw _ => JObj []
  end.

(** [errData?.error?.message] *)
Definition nested_message (r : Response) : value :=
  opt (opt (Some (errData r)) (fun d => get_named d (js "error")))
      (fun e => get_named e (js "message")).

(** [`HTTP Error ${response.status}`] *)
Definition status_message (r : Response) : jsstring :=
  js "HTTP Error " ++ decimal (status r).

(** The error thrown for a response that is not [ok]:
    [throw new Error(errData?.error?.message || `HTTP Error ${status}`)]. *)
Definition http_error (r : Response) : exn :=
  match or_else (nested_message r) (Some (JStr (status_message r))) with
  | Some x => new_Error x
  | None => Error []
  end.

(** [choices?.[0]?.<field>?.content || ''] *)
Definition pick_content (choices : value) (field : jsstring) : value :=
  or_else
    (opt (opt (opt choices get_index0) (fun c => get_named c field))
         (fun d => get_named d (js "content")))
    (Some (JStr [])).

(** The [catch] clause of [generate]. *)
Definition generate_failed (e : exn) : CompletionResponse :=
  {| content := Some (JStr []);
     usage := None;
     error := Some (or_default (message_of e)
                      (js "Unknown error occurred during API call.")) |}.

(** The body of the [try] of [generate], after [fetch] has answered. *)
Definition generate_try (outcome : FetchOutcome) : completion CompletionResponse :=
  match outcome with
  | FetchRejected m => Throw (Error m)
  | Resolved response =>
      if negb (ok response) then Throw (http_error response)
      else
        data <- response_json response ;;
        choices <- read (Some data) (js "choices") ;;
        usage_ <- read (Some data) (js "usage") ;;
        Normal {| content := pick_content choices (js "message");
                  usage := usage_;
                  error := None |}
  end.

(** [generate]: the result, and the requests it issued. *)
Definition generate (config : ApiConfig) (model : jsstring)
    (messages : list ChatMessage) (w : World)
  : CompletionResponse * list Request :=
  let request := completion_request config model messages None in
  (match generate_try (w request) with
   | Normal result => result
   | Throw e => generate_failed e
   end, [request]).

(** [yield { error: e.message || 'Stream error' }] *)
Definition error_chunk (e : exn) : StreamChunk :=
  {| chunk_content := None;
     chunk_usage := None;
     chunk_error := Some (or_default (message_of e) (js "Stream error")) |}.

(** The body of [for (const line of lines)]: what one line yields. *)
Definition process_line (line : jsstring) : list StreamChunk :=
  let trimmed := trim line in
  match trimmed with
  | [] => []
  | _ :: _ =>
      if str_eqb trimmed (js "data: [DONE]") then []
      else if startsWith trimmed (js "data: ") then
        match JSON.parse (slice trimmed 6 None) with
        | None => []                       (* the inner [catch] *)
        | Some json =>
            match read (Some json) (js "choices") with
            | Throw _ => []                (* the inner [catch] *)
            | Normal choices =>
                [{| chunk_content := pick_content choices (js "delta");
                    chunk_usage := get_named json (js "usage");
                    chunk_error := None |}]
            end
        end
      else []
  end.

(** The [while (true)] loop: the chunks yielded from the reads that are
    left, [buffer] holding the pending partial line. *)
Fixpoint read_loop (events : list ReadEvent) (buffer : jsstring)
  : list StreamChunk :=
  match events with
  | [] => []
  | ReadRejected m :: _ => [error_chunk (Error m)]
  | Value text :: rest =>
      let lines := split (buffer ++ text) [NEWLINE] in
      let '(last, lines') := pop lines in
      let buffer' := match last with
                     | Some l => TokenService.or_empty l
                     | None => []
                     end in
      flat_map process_line lines' ++ read_loop rest buffer'
  end.

(** [generateStream]: the increments the generator yields, in order, when
    it is run to its end. *)
Definition generateStream (config : ApiConfig) (model : jsstring)
    (messages : list ChatMessage) (w : World) : list StreamChunk :=
  match w (completion_request config model messages (Some true)) with
  | FetchRejected m => [error_chunk (Error m)]
  | Resolved response =>
      if negb (ok response) then [error_chunk (http_error response)]
      else match response_body response with
           | None => [error_chunk (Error (js "No response body"))]
           | Some events => read_loop events []
           end
  end.

(** The [catch] clause of [fetchModels]. *)
Definition models_failed (e : exn) : ModelsResult :=
  {| success := false;
     result_models := None;
     result_error := Some (message_of e) |}.

(** [items.map(m => m.<field>)] *)
Definition map_field (items : list json) (field : jsstring)
  : completion (list value) :=
  sequence (map (fun m => read (Some m) field) items).

Definition fetchModels_try (outcome : FetchOutcome) : completion ModelsResult :=
  match outcome with
  | FetchRejected m => Throw (Error m)
  | Resolved response =>
      if negb (ok response)
      then Throw (Error (status_message response))
      else
        data <- response_json response ;;
        data_data <- read (Some data) (js "data") ;;
        extracted <-
          match isArray data_data with
          | Some items => map_field items (js "id")
          | None =>
              data_models <- read (Some data) (js "models") ;;
              match isArray data_models with
              | Some items => map_field items (js "name")
              | None => Throw (Error (js "Unrecognized response format"))
              end
          end ;;
        sorted <- sort extracted ;;
        Normal {| success := true;
                  result_models := Some sorted;
                  result_error := None |}
  end.

(** [fetchModels]: the result, and the requests it issued. *)
Definition fetchModels (config : ApiConfig) (w : World)
  : ModelsResult * list Request :=
  let request := models_request config in
  (match fetchModels_try (w request) with
   | Normal result => result
   | Throw e => models_failed e
   end, [request]).

(** [testConnection]: the result, and the requests it issued. [generate]
    never throws, so the [catch] clause of the source is never entered. *)
Definition testConnection (config : ApiConfig) (w : World)
  : ConnectionResult * list Request :=
  match models config with
  | [] => ({| connected := false; message := js "No models configured" |}, [])
  | modelToTest :: _ =>
      let '(result, issued) :=
        generate config modelToTest
          [{| role := user; msg_content := js "Hi" |}] w in
      (match error result with
       | Some ((_ :: _) as err) => {| connected := false; message := err |}
       | _ => {| connected := true; message := js "Connected" |}
       end, issued)
  end.

End WithEngine.

End ApiService.

(* ================================================================== *)
(** * The consumer of the stream, and environments to run examples in *)
(* ================================================================== *)

(** [if (chunk.content)] in the [for await] loop of views/CreateView.tsx:
    the consumer appends the content of an increment when it is truthy. *)
Definition carries_content (chunk : ApiService.StreamChunk) : bool :=
  truthy (ApiService.chunk_content chunk).

(** [if (chunk.usage)] in the same loop. *)
Definition carries_usage (chunk : ApiService.StreamChunk) : bool :=
  truthy (ApiService.chunk_usage chunk).

(** The nested field [choices[0].delta.content] of a decoded frame, read
    as the source reads it; [None] when it is not there. *)
Definition delta_content (frame : json) : value :=
  opt (opt (opt (get_named frame (js "choices")) get_index0)
           (fun c => get_named c (js "delta")))
      (fun d => get_named d (js "content")).

(** The nested field [error.message] of the decoded body of a response
    that is not a success; [None] when it is not there. *)
Definition error_message (body : json) : value :=
  opt (get_named body (js "error")) (fun e => get_named e (js "message")).

(** The nested field [choices[0].message.content] of a decoded
    completion; [None] when it is not there. *)
Definition message_content (data : json) : value :=
  opt (opt (opt (get_named data (js "choices")) get_index0)
           (fun c => get_named c (js "message")))
      (fun m => get_named m (js "content")).

(** The number 0.7, as the literal of the source denotes it. *)
Definition seven_tenths : number :=
  {| negative := false; mantissa := 7; exponent10 := -1 |}.

(** The identifiers of a well-shaped listing: every item is an object
    whose [field] is a string. *)
Fixpoint identifiers (items : list json) (field : jsstring)
  : option (list jsstring) :=
  match items with
  | [] => Some []
  | JObj ms :: rest =>
      match lookup_last field ms, identifiers rest field with
      | Some (JStr s), Some l => Some (s :: l)
      | _, _ => None
      end
  | _ :: _ => None
  end.

(** Lexicographic order on strings, by code units. *)
Definition str_le (a b : jsstring) : Prop := str_ltb b a = false.

(** A string as an element of a models list. *)
Definition model_value (s : jsstring) : value := Some (JStr s).

Definition newline_free (s : jsstring) : bool :=
  forallb (fun c => negb (N.eqb c NEWLINE)) s.

(** A data increment whose content is the string [s], with no usage. *)
Definition content_chunk (s : jsstring) : ApiService.StreamChunk :=
  {| ApiService.chunk_content := Some (JStr s);
     ApiService.chunk_usage := None;
     ApiService.chunk_error := None |}.

(** An increment that only carries the error message [m]. *)
Definition error_only (m : jsstring) : ApiService.StreamChunk :=
  {| ApiService.chunk_content := None;
     ApiService.chunk_usage := None;
     ApiService.chunk_error := Some m |}.

(** A server that answers every request with status 200 and delivers the
    body in the given pieces. *)
Definition delivering (pieces : list jsstring) : World :=
  fun _ => Resolved {| status := 200; response_body := Some (map Value pieces) |}.

(** A server that answers every request with the given status and body. *)
Definition answering (code : N) (text : jsstring) : World :=
  fun _ => Resolved {| status := code; response_body := Some [Value text] |}.

(** An engine to evaluate examples with. The theorems below hold for every
    engine; the message texts chosen here are only samples. *)
Definition sample_engine : Engine :=
  {| Number_toString :=
       fun n => (if negative n then js "-" else [])
                ++ decimal (mantissa n)
                ++ (if (exponent10 n =? 0)%Z then []
                    else js "e" ++ (if (exponent10 n <? 0)%Z then js "-" else [])
                         ++ decimal (Z.to_N (Z.abs (exponent10 n))));
     native_message :=
       fun e => match e with
                | ReadOfNullish _ prop =>
                    js "Cannot read properties of null (reading '" ++ prop ++ js "')"
                | NotPrimitive => js "Cannot convert object to primitive value"
                | BadJSON _ => js "Unexpected token in JSON"
                end |}.

(** The three frames of the streaming example, one line each. *)
Definition frame_Hel : jsstring := jq "data: {'choices':[{'delta':{'content':'Hel'}}]}".
Definition frame_lo : jsstring := jq "data: {'choices':[{'delta':{'content':'lo'}}]}".
Definition frame_DONE : jsstring := js "data: [DONE]".
Definition three_frames : jsstring :=
  frame_Hel ++ [NEWLINE] ++ frame_lo ++ [NEWLINE] ++ frame_DONE ++ [NEWLINE].

Definition sample_config : ApiConfig :=
  {| id := js "1"; name := js "local"; baseUrl := js "http://localhost:11434/v1/";
     apiKey := []; models := [js "llama2"] |}.

(* ================================================================== *)
(** * Templates as sequences of literal code units and placeholders *)
(* ================================================================== *)

Module Template.

Inductive token :=
| Lit (c : char)              (* a code unit that is not a brace *)
| Hole (name : jsstring).     (* a placeholder, braces included *)

Definition is_brace (c : char) : bool := (N.eqb c LBRACE || N.eqb c RBRACE).

Definition brace_free (s : jsstring) : bool :=
  forallb (fun c => negb (is_brace c)) s.

Definition wf_token (t : token) : bool :=
  match t with
  | Lit c => negb (is_brace c)
  | Hole n => brace_free n
  end.

Definition render_token (t : token) : jsstring :=
  match t with
  | Lit c => [c]
  | Hole n => TokenService.placeholder n
  end.

Definition render (toks : list token) : jsstring := flat_map render_token toks.

(** Reading of a template whose braces only form un-nested placeholders;
    [pending] is the name read since a brace was opened. *)
Fixpoint scan (s : jsstring) (pending : option jsstring)
  : option (list token) :=
  match s with
  | [] => match pending with None => Some [] | Some _ => None end
  | c :: s' =>
      match pending with
      | None =>
          if N.eqb c LBRACE then scan s' (Some [])
          else if N.eqb c RBRACE then None
          else option_map (cons (Lit c)) (scan s' None)
      | Some acc =>
          if N.eqb c RBRACE then option_map (cons (Hole acc)) (scan s' None)
          else if N.eqb c LBRACE then None
          else scan s' (Some (acc ++ [c]))
      end
  end.

Definition parse_template (s : jsstring) : option (list token) := scan s None.

(** The value bound to [k], if [k] is a key of the mapping. *)
Fixpoint assoc (k : jsstring) (V : TokenService.Variables) : option jsstring :=
  match V with
  | [] => None
  | (k', v) :: rest => if str_eqb k' k then Some v else assoc k rest
  end.

(** A placeholder is filled with the value of its name, and stays as it is
    when its name is not a key. *)
Definition fill (V : TokenService.Variables) (t : token) : jsstring :=
  match t with
  | Lit c => [c]
  | Hole n => match assoc n V with
              | Some v => v
              | None => TokenService.placeholder n
              end
  end.

(** No key and no value of the mapping contains a brace. *)
Definition plain (V : TokenService.Variables) : bool :=
  forallb (fun kv => brace_free (fst kv) && brace_free (snd kv)) V.

(** One pass of [resolveVariables], on tokens. *)
Definition fill_one (k v : jsstring) (t : token) : list token :=
  match t with
  | Lit c => [t]
  | Hole n => if str_eqb n k then map Lit v else [t]
  end.

(** [fill], keeping the tokens: a filled placeholder becomes literals. *)
Definition fill_token (V : TokenService.Variables) (t : token) : list token :=
  match t with
  | Lit c => [t]
  | Hole n => match assoc n V with
              | Some v => map Lit v
              | None => [t]
              end
  end.

End Template.

(* ================================================================== *)
(** * Arrays of strings and single-character separators *)
(* ================================================================== *)

Definition COLON : char := 58%N.
Definition COMMA : char := 44%N.

(** [arr.includes(x)] on an array of strings. *)
Definition array_includes (arr : list jsstring) (x : jsstring) : bool :=
  existsb (str_eqb x) arr.

(** The code unit [d] does not occur in [s]. *)
Definition free_of (d : char) (s : jsstring) : bool :=
  forallb (fun c => negb (N.eqb c d)) s.

(** Nothing for [trim] to strip: [s] has no white space at either end. *)
Definition trimmed (s : jsstring) : bool :=
  match s with
  | [] => true
  | c :: _ => negb (is_white c) && negb (is_white (last s c))
  end.

(* ================================================================== *)
(** * views/CreateView.tsx, continued: the editor around the engine *)
(* ================================================================== *)

Module Editor.

(** The properties every plain object inherits from [Object.prototype]
    (Annex B of ECMAScript included, as in browsers): reading one of them
    from an object that has no own property of that name does not give
    [undefined]. *)
Definition Object_prototype_names : list jsstring :=
  [js "constructor"; js "hasOwnProperty"; js "isPrototypeOf";
   js "propertyIsEnumerable"; js "toLocaleString"; js "toString";
   js "valueOf"; js "__proto__"; js "__defineGetter__";
   js "__defineSetter__"; js "__lookupGetter__"; js "__lookupSetter__"].

Definition inherited (k : jsstring) : bool :=
  array_includes Object_prototype_names k.

(** The array index a property key denotes, if it is one: a canonical
    decimal numeral below [2^32 - 1]. Such keys come first, in numeric
    order, when the properties of an object are enumerated. *)
Definition array_index (k : jsstring) : option N :=
  match k with
  | [] => None
  | c :: rest =>
      if forallb JSON.is_digit k
         && (negb (N.eqb c 48) || match rest with [] => true | _ => false end)
      then
        let n := JSON.digits_value (map (fun d => (d - 48)%N) k) in
        if (n <=? 4294967294)%N then Some n else None
      else None
  end.

(** [next[v] === undefined] on a record of strings. *)
Definition reads_undefined (next : TokenService.Variables) (v : jsstring)
  : bool :=
  match Template.assoc v next with
  | Some _ => false
  | None => negb (inherited v)
  end.

(** The place of a new index key among the entries. *)
Fixpoint insert_index (n : N) (entry : jsstring * jsstring)
    (obj : TokenService.Variables) : TokenService.Variables :=
  match obj with
  | [] => [entry]
  | (k, v) :: rest =>
      match array_index k with
      | Some m =>
          if (m <? n)%N then (k, v) :: insert_index n entry rest
          else entry :: obj
      | None => entry :: obj
      end
  end.

(** [next[k] = v] for a key that [next] neither has nor inherits: a new
    own property, enumerated after the others unless it is an index. *)
Definition define_property (k v : jsstring) (next : TokenService.Variables)
  : TokenService.Variables :=
  match array_index k with
  | Some n => insert_index n (k, v) next
  | None => next ++ [(k, v)]
  end.

(** The effect that keeps the variables in step with the placeholders:
    [next = {...prev}], then [if (next[v] === undefined) next[v] = '']
    for every detected name. *)
Definition syncVariables (prev : TokenService.Variables)
    (detectedVariables : list jsstring) : TokenService.Variables :=
  fold_left
    (fun next v =>
       if reads_undefined next v then define_property v [] next else next)
    detectedVariables prev.

(** [`${c.id}:${m}`], the value of an option of the model selector. *)
Definition model_key (c : ApiConfig) (m : jsstring) : jsstring :=
  id c ++ [COLON] ++ m.

(** [const [pid, mid] = key.split(':')]; [None] is [undefined]. *)
Definition split_key (key : jsstring) : jsstring * option jsstring :=
  match split key [COLON] with
  | pid :: mid :: _ => (pid, Some mid)
  | [pid] => (pid, None)
  | [] => ([], None)
  end.

(** [configs.find(c => c.id === pid)] *)
Definition find_config (pid : jsstring) (configs : list ApiConfig)
  : option ApiConfig :=
  find (fun c => str_eqb (id c) pid) configs.

(** [isValidModelKey], as the truth value of [p && p.models.includes(mid)]. *)
Definition isValidModelKey (key : jsstring) (currentConfigs : list ApiConfig)
  : bool :=
  let '(pid, mid) := split_key key in
  match find_config pid currentConfigs with
  | None => false
  | Some p =>
      match mid with
      | Some m => array_includes (models p) m
      | None => false
      end
  end.

(** What [handleRun] shows: the output, the usage and the error. *)
Record RunState := {
  shown_output : jsstring;
  shown_usage : value;
  shown_error : option jsstring
}.

(** The state [handleRun] starts the stream from. *)
Definition run_start : RunState :=
  {| shown_output := []; shown_usage := Some JNull; shown_error := None |}.

(** The file name of [handleDownloadCode]:
    [saveTitle.replace(/[^a-z0-9]/gi, '_').toLowerCase() + '.py']. The
    class matches, ignoring case, the ASCII letters and digits only. *)
Definition sanitize (c : char) : char :=
  if ((97 <=? c) && (c <=? 122) || (48 <=? c) && (c <=? 57))%N then c
  else if ((65 <=? c) && (c <=? 90))%N then (c + 32)%N
  else 95%N.

Definition download_name (saveTitle : jsstring) : jsstring :=
  match saveTitle with
  | [] => js "prompt_studio_export.py"
  | _ :: _ => map sanitize saveTitle ++ js ".py"
  end.

Section Consumer.
Context {E : Engine}.

(** [fullContent += chunk.content] for a truthy content. *)
Definition append_content (fullContent : jsstring) (content : json)
  : completion jsstring :=
  match content with
  | JStr s => Normal (fullContent ++ s)
  | other => s <- ToString other ;; Normal (fullContent ++ s)
  end.

(** The [for await (const chunk of stream)] loop of [handleRun], with the
    [catch] around it: an increment with an error sets the error and ends
    the loop; a truthy content is appended and shown; a truthy usage
    replaces the usage. *)
Fixpoint consume (stream : list ApiService.StreamChunk)
    (fullContent : jsstring) (st : RunState) : RunState :=
  match stream with
  | [] => st
  | chunk :: rest =>
      match ApiService.chunk_error chunk with
      | Some ((_ :: _) as m) =>
          {| shown_output := shown_output st;
             shown_usage := shown_usage st;
             shown_error := Some m |}
      | _ =>
          let appended :=
            match ApiService.chunk_content chunk with
            | Some c =>
                if truthy (Some c)
                then text <- append_content fullContent c ;;
                     Normal (text, text)
                else Normal (fullContent, shown_output st)
            | None => Normal (fullContent, shown_output st)
            end in
          match appended with
          | Throw e =>
              {| shown_output := shown_output st;
                 shown_usage := shown_usage st;
                 shown_error := Some (message_of e) |}
          | Normal (fullContent', output') =>
              consume rest fullContent'
                {| shown_output := output';
                   shown_usage :=
                     if truthy (ApiService.chunk_usage chunk)
                     then ApiService.chunk_usage chunk
                     else shown_usage st;
                   shown_error := shown_error st |}
          end
      end
  end.

End Consumer.

End Editor.

(* ================================================================== *)
(** * views/ProvidersView.tsx: editing the providers *)
(* ================================================================== *)

Module ProvidersView.

Definition with_models (form : ApiConfig) (ms : list jsstring) : ApiConfig :=
  {| id := id form; name := name form; baseUrl := baseUrl form;
     apiKey := apiKey form; models := ms |}.

Definition with_id (form : ApiConfig) (i : jsstring) : ApiConfig :=
  {| id := i; name := name form; baseUrl := baseUrl form;
     apiKey := apiKey form; models := models form |}.

(** [addModel]: the form after the call. The test reads the [form] of
    the render that made the handler, the update is applied to the state
    [prev] at the time it runs; the two are the same object unless
    another update of the form came in between. *)
Definition addModel (modelName : jsstring) (form prev : ApiConfig)
  : ApiConfig :=
  let name := trim modelName in
  match name with
  | [] => prev
  | _ :: _ =>
      if array_includes (models form) name then prev
      else with_models prev (models prev ++ [name])
  end.

(** [removeModel]: the form after the call. *)
Definition removeModel (modelToRemove : jsstring) (form : ApiConfig)
  : ApiConfig :=
  with_models form
    (filter (fun m => negb (str_eqb m modelToRemove)) (models form)).

(** [newConfigs[existingIndex] = form] at the first index whose config
    has the id of the form. *)
Fixpoint replace_config (form : ApiConfig) (configs : list ApiConfig)
  : option (list ApiConfig) :=
  match configs with
  | [] => None
  | c :: rest =>
      if str_eqb (id c) (id form) then Some (form :: rest)
      else match replace_config form rest with
           | Some rest' => Some (c :: rest')
           | None => None
           end
  end.

(** [handleSave]: the configurations handed to [saveConfigs], or [None]
    when the form is refused; [uuid] is what [crypto.randomUUID()]
    returns. *)
Definition handleSave (form : ApiConfig) (configs : list ApiConfig)
    (uuid : jsstring) : option (list ApiConfig) :=
  match name form, baseUrl form, models form with
  | _ :: _, _ :: _, _ :: _ =>
      match replace_config form configs with
      | Some newConfigs => Some newConfigs
      | None => Some (configs ++ [with_id form uuid])
      end
  | _, _, _ => None
  end.

(** [confirmDelete]: the configurations that are left. *)
Definition confirmDelete (deleteId : jsstring) (configs : list ApiConfig)
  : list ApiConfig :=
  match deleteId with
  | [] => configs
  | _ :: _ => filter (fun c => negb (str_eqb (id c) deleteId)) configs
  end.

(** [getComputedUrl]: the address shown under the base URL field. *)
Definition getComputedUrl (baseUrl : jsstring) : jsstring :=
  match baseUrl with
  | [] => []
  | _ :: _ =>
      let u := trim baseUrl in
      let u := if endsWith u (js "/") then slice u 0 (Some (-1)%Z) else u in
      if negb (endsWith u (js "/chat/completions"))
      then u ++ js "/chat/completions"
      else u
  end.

End ProvidersView.

(* ================================================================== *)
(** * views/SettingsView.tsx: the default models field *)
(* ================================================================== *)

Module SettingsView.

(** [e.target.value.split(',').map(s => s.trim()).filter(Boolean)] *)
Definition parse_defaultModels (text : jsstring) : list jsstring :=
  filter (fun s => match s with [] => false | _ :: _ => true end)
         (map trim (split text [COMMA])).

(** [settings.defaultModels?.join(', ') || ''] for a list that is there. *)
Definition show_defaultModels (defaultModels : list jsstring) : jsstring :=
  join defaultModels (js ", ").

End SettingsView.

(* ================================================================== *)
(** * services/storageService.ts: StorageService *)
(* ================================================================== *)

Module StorageService.

(** [localStorage]: the value stored under each key that has one. *)
Definition Storage := list (jsstring * jsstring).

Fixpoint getItem (key : jsstring) (st : Storage) : option jsstring :=
  match st with
  | [] => None
  | (k, v) :: rest => if str_eqb k key then Some v else getItem key rest
  end.

Definition removeItem (key : jsstring) (st : Storage) : Storage :=
  filter (fun kv => negb (str_eqb (fst kv) key)) st.

Definition setItem (key value : jsstring) (st : Storage) : Storage :=
  (key, value) :: removeItem key st.

Definition PROMPTS : jsstring := js "ps_prompts".
Definition PROVIDERS : jsstring := js "ps_settings".
Definition ACTIVE_PROVIDER : jsstring := js "ps_active_setting_id".
Definition ACTIVE_MODEL : jsstring := js "ps_active_model_id".
Definition THEME : jsstring := js "ps_theme".
Definition APP_SETTINGS : jsstring := js "ps_app_settings".

(** [keysToMigrate]: the old key and the new key of each entry. *)
Definition keysToMigrate : list (jsstring * jsstring) :=
  [(js "pf_prompts", PROMPTS); (js "pf_settings", PROVIDERS);
   (js "pf_active_setting_id", ACTIVE_PROVIDER);
   (js "pf_active_model_id", ACTIVE_MODEL); (js "pf_theme", THEME);
   (js "pf_app_settings", APP_SETTINGS)].

(** [!!localStorage.getItem(key)] *)
Definition has_item (key : jsstring) (st : Storage) : bool :=
  match getItem key st with
  | Some (_ :: _) => true
  | _ => false
  end.

(** The body of [keysToMigrate.forEach]. *)
Definition migrate_key (st : Storage) (pair : jsstring * jsstring) : Storage :=
  match getItem (fst pair) st with
  | Some value => removeItem (fst pair) (setItem (snd pair) value st)
  | None => st
  end.

(** [migrateData], in a browser ([window] is defined). *)
Definition migrateData (st : Storage) : Storage :=
  if has_item (js "pf_prompts") st && negb (has_item PROMPTS st)
  then fold_left migrate_key keysToMigrate st
  else st.

(** [localStorage.getItem(key) || fallback] *)
Definition get_or (key fallback : jsstring) (st : Storage) : jsstring :=
  match getItem key st with
  | Some ((_ :: _) as v) => v
  | _ => fallback
  end.

Definition getActiveConfigId (st : Storage) : jsstring :=
  get_or ACTIVE_PROVIDER (js "default") st.
Definition getActiveModel (st : Storage) : jsstring :=
  get_or ACTIVE_MODEL [] st.
Definition getTheme (st : Storage) : jsstring :=
  get_or THEME (js "dark") st.
Definition setActiveConfigId (i : jsstring) (st : Storage) : Storage :=
  setItem ACTIVE_PROVIDER i st.
Definition setActiveModel (model : jsstring) (st : Storage) : Storage :=
  setItem ACTIVE_MODEL model st.
Definition saveTheme (theme : jsstring) (st : Storage) : Storage :=
  setItem THEME theme st.

(** The own enumerable properties that [{...c}] copies. *)
Definition spread (c : json) : list (jsstring * json) :=
  match c with
  | JObj ms => ms
  | JArr items =>
      map (fun p => (decimal (N.of_nat (fst p)), snd p))
          (combine (seq 0 (length items)) items)
  | JStr s =>
      map (fun p => (decimal (N.of_nat (fst p)), JStr [snd p]))
          (combine (seq 0 (length s)) s)
  | _ => []
  end.

(** The callback of [parsed.map] in [getConfigs]:
    [{...c, models: Array.isArray(c.models) ? c.models
                    : (c.model ? [c.model] : ['gpt-4o'])}].
    The members are listed in the order they are written; the later of
    two members with one key is the one the object has. *)
Definition normalize_config (c : json) : completion json :=
  c_models <- read (Some c) (js "models") ;;
  match isArray c_models with
  | Some items => Normal (JObj (spread c ++ [(js "models", JArr items)]))
  | None =>
      c_model <- read (Some c) (js "model") ;;
      Normal (JObj (spread c ++
                    [(js "models",
                      match c_model with
                      | Some m => if truthy c_model then JArr [m]
                                  else JArr [JStr (js "gpt-4o")]
                      | None => JArr [JStr (js "gpt-4o")]
                      end)]))
  end.

Section Configs.
(** [DEFAULT_SETTINGS] of the constants module. *)
Variable DEFAULT_SETTINGS : json.

(** [getConfigs] *)
Definition getConfigs (st : Storage) : list json :=
  match getItem PROVIDERS st with
  | Some ((_ :: _) as data) =>
      match JSON.parse data with
      | Some (JArr items) =>
          match sequence (map normalize_config items) with
          | Normal configs => configs
          | Throw _ => [DEFAULT_SETTINGS]
          end
      | _ => [DEFAULT_SETTINGS]
      end
  | _ => [DEFAULT_SETTINGS]
  end.

End Configs.

End StorageService.

(** A data increment with a string content and any usage. *)
Definition data_chunk (p : jsstring * value) : ApiService.StreamChunk :=
  {| ApiService.chunk_content := Some (JStr (fst p));
     ApiService.chunk_usage := snd p;
     ApiService.chunk_error := None |}.

(** The non-empty names of the placeholders of a template, in the order
    they stand in it. *)
Definition placeholder_names (toks : list Template.token) : list jsstring :=
  flat_map (fun t => match t with
                     | Template.Hole ((_ :: _) as n) => [n]
                     | _ => []
                     end) toks.

(** The distinct elements of a list, in the order of their first
    appearance, as a [Set] collects them. *)
Definition collect (names : list jsstring) : list jsstring :=
  fold_left (fun found n => CreateView.set_add n found) names [].

(** The keys of a list of pairs of keys are all different. *)
Fixpoint keys_apart (l : list (jsstring * jsstring)) : Prop :=
  match l with
  | [] => True
  | (o, n) :: rest =>
      o <> n
      /\ Forall (fun p => fst p <> o /\ fst p <> n
                          /\ snd p <> o /\ snd p <> n) rest
      /\ keys_apart rest
  end.

(** What [getConfigs] makes of one stored configuration [c]: an object
    with the own properties of [c], except that [models] is the stored
    array if there is one, else the one-element array of a truthy
    [model], else the array of the default model. *)
Definition normalized (c c' : json) : Prop :=
  exists members items,
    c' = JObj members
    /\ lookup_last (js "models") members = Some (JArr items)
    /\ (forall stored, get_named c (js "models") = Some (JArr stored) ->
                       items = stored)
    /\ (isArray (get_named c (js "models")) = None ->
        items = match get_named c (js "model") with
                | Some m => if truthy (Some m) then [m]
                            else [JStr (js "gpt-4o")]
                | None => [JStr (js "gpt-4o")]
                end)
    /\ (forall k, k <> js "models" ->
                  lookup_last k members
                  = lookup_last k (StorageService.spread c)).

Example resolve_demo :
  TokenService.resolveVariables (js "Hi {name}, {name}!") [(js "name", js "Bob")]
  = js "Hi Bob, Bob!".
Proof. reflexivity. Qed.

Example detect_demo :
  CreateView.detectedVariables (js "{a} and {a} ") (js "and {b}{}{c")
  = [js "a"; js "b"].
Proof. reflexivity. Qed.

Example parsed_demo :
  CreateView.parsedOutput (js "<think>step one</think>Answer")
  = {| CreateView.thought := Some (js "step one"); CreateView.content := js "Answer" |}.
Proof. reflexivity. Qed.

Example parsed_thinking_demo :
  CreateView.parsedOutput (js "<think>still going")
  = {| CreateView.thought := Some (js "still going"); CreateView.content := [] |}.
Proof. reflexivity. Qed.

Example parsed_plain_demo :
  CreateView.parsedOutput (js "Plain text")
  = {| CreateView.thought := None; CreateView.content := js "Plain text" |}.
Proof. reflexivity. Qed.

Example models_ollama_demo :
  fst (ApiService.fetchModels (E := sample_engine) sample_config
         (answering 200 (jq "{'models':[{'name':'llama2'}]}")))
  = {| ApiService.success := true;
       ApiService.result_models := Some [model_value (js "llama2")];
       ApiService.result_error := None |}.
Proof. vm_compute. reflexivity. Qed.

Example models_unrecognized_demo :
  fst (ApiService.fetchModels (E := sample_engine) sample_config
         (answering 200 (jq "{'foo':1}")))
  = {| ApiService.success := false;
       ApiService.result_models := None;
       ApiService.result_error := Some (js "Unrecognized response format") |}.
Proof. vm_compute. reflexivity. Qed.

Example stream_http_error_demo :
  ApiService.generateStream (E := sample_engine) sample_config (js "llama2") []
    (answering 401 (jq "{'error':{'message':'Invalid API key'}}"))
  = [error_only (js "Invalid API key")]
  /\ ApiService.generateStream (E := sample_engine) sample_config (js "llama2") []
       (answering 502 (js "<html>Bad Gateway</html>"))
     = [error_only (js "HTTP Error 502")].
Proof. split; vm_compute; reflexivity. Qed.

Example estimate_demo :
  (TokenService.estimate [] = 0 /\ TokenService.estimate (js "abcd") = 1
  /\ TokenService.estimate (js "abcdefgh") = 2 /\ TokenService.estimate (js "abcde") = 2)%N.
Proof. repeat split; reflexivity. Qed.


(* ================================================================== *)
(** * Facts about the string primitives *)
(* ================================================================== *)

#[local] Arguments N.eqb : simpl never.
#[local] Arguments N.leb : simpl never.
#[local] Arguments N.ltb : simpl never.

Lemma str_eqb_eq (a b : jsstring) : str_eqb a b = true <-> a = b.
Proof.
  revert b; induction a as [|x a IH]; intros [|y b]; simpl; split;
    try congruence; try reflexivity.
  - intros H. apply andb_true_iff in H as [H1 H2].
    apply N.eqb_eq in H1. apply IH in H2. congruence.
  - intros H. inversion H; subst. rewrite N.eqb_refl. simpl. now apply IH.
Qed.

Lemma str_eqb_refl (a : jsstring) : str_eqb a a = true.
Proof. now apply str_eqb_eq. Qed.

Lemma str_eqb_neq (a b : jsstring) : str_eqb a b = false <-> a <> b.
Proof.
  split.
  - intros H Heq. apply str_eqb_eq in Heq. congruence.
  - intros H. destruct (str_eqb a b) eqn:Hab; [|reflexivity].
    apply str_eqb_eq in Hab. contradiction.
Qed.

Lemma str_eqb_sym (a b : jsstring) : str_eqb a b = str_eqb b a.
Proof.
  destruct (str_eqb b a) eqn:H.
  - apply str_eqb_eq in H. subst. apply str_eqb_refl.
  - apply str_eqb_neq in H. apply str_eqb_neq. congruence.
Qed.

Lemma startsWith_app (p r : jsstring) : startsWith (p ++ r) p = true.
Proof.
  induction p as [|a p IH]; simpl; [reflexivity|].
  now rewrite N.eqb_refl.
Qed.

Lemma startsWith_iff (s p : jsstring) :
  startsWith s p = true <-> exists r, s = p ++ r.
Proof.
  split.
  - revert s; induction p as [|a p IH]; intros s H; simpl in *.
    + now exists s.
    + destruct s as [|b s]; [discriminate|].
      apply andb_true_iff in H as [H1 H2]. apply N.eqb_eq in H1; subst.
      destruct (IH _ H2) as [r ->]. now exists r.
  - intros [r ->]. apply startsWith_app.
Qed.

Lemma startsWith_head (c a : char) (s p : jsstring) :
  c <> a -> startsWith (c :: s) (a :: p) = false.
Proof.
  intros H. simpl. apply N.eqb_neq in H. now rewrite H.
Qed.

Lemma split_from_skip (sep x r : jsstring) :
  split_from sep (length x) (x ++ r) = split_from sep 0 r.
Proof. induction x as [|c x IH]; simpl; auto. Qed.

Lemma split_from_nonempty (sep : jsstring) (k : nat) (s : jsstring) :
  split_from sep k s <> [].
Proof.
  revert k; induction s as [|c s IH]; intros k; simpl; [discriminate|].
  destruct k; [|apply IH].
  destruct (N.eqb_spec 0 0); try congruence.
  destruct (startsWith (c :: s) sep); [discriminate|].
  specialize (IH 0%nat). destruct (split_from sep 0 s); simpl; congruence.
Qed.

Lemma split_match (c : char) (sep r : jsstring) :
  split (c :: sep ++ r) (c :: sep) = [] :: split r (c :: sep).
Proof.
  unfold split. cbn [split_from].
  change (c :: sep ++ r) with ((c :: sep) ++ r).
  rewrite startsWith_app. f_equal.
  cbn [length]. rewrite Nat.sub_succ, Nat.sub_0_r. apply split_from_skip.
Qed.

Lemma split_nomatch (c a : char) (s sep : jsstring) :
  startsWith (c :: s) (a :: sep) = false ->
  split (c :: s) (a :: sep) = cons_head c (split s (a :: sep)).
Proof. intros H. unfold split. cbn [split_from]. now rewrite H. Qed.

Lemma join_cons_head (c : char) (l : list jsstring) (v : jsstring) :
  l <> [] -> join (cons_head c l) v = c :: join l v.
Proof.
  destruct l as [|p [|q ps]]; simpl; congruence.
Qed.

Lemma join_nil_cons (l : list jsstring) (v : jsstring) :
  l <> [] -> join ([] :: l) v = v ++ join l v.
Proof. destruct l; simpl; congruence. Qed.

Lemma replace_all_nil (a : char) (p v : jsstring) :
  replace_all [] (a :: p) v = [].
Proof. reflexivity. Qed.

Lemma replace_all_match (a : char) (p r v : jsstring) :
  replace_all (a :: p ++ r) (a :: p) v = v ++ replace_all r (a :: p) v.
Proof.
  unfold replace_all. rewrite split_match. apply join_nil_cons.
  apply split_from_nonempty.
Qed.

Lemma replace_all_nomatch (c a : char) (s p v : jsstring) :
  startsWith (c :: s) (a :: p) = false ->
  replace_all (c :: s) (a :: p) v = c :: replace_all s (a :: p) v.
Proof.
  intros H. unfold replace_all. rewrite split_nomatch by assumption.
  apply join_cons_head. apply split_from_nonempty.
Qed.

(** A run of code units none of which starts the pattern is copied. *)
Lemma replace_all_skip (x : jsstring) (a : char) (s p v : jsstring) :
  Forall (fun c => c <> a) x ->
  replace_all (x ++ s) (a :: p) v = x ++ replace_all s (a :: p) v.
Proof.
  induction 1 as [|c x Hc _ IH]; simpl; [reflexivity|].
  rewrite replace_all_nomatch by now apply startsWith_head.
  now rewrite IH.
Qed.

(* ================================================================== *)
(** * resolveVariables on templates with un-nested placeholders *)
(* ================================================================== *)

Import Template.

Lemma is_brace_false (c : char) :
  is_brace c = false <-> c <> LBRACE /\ c <> RBRACE.
Proof.
  unfold is_brace. rewrite orb_false_iff, !N.eqb_neq. tauto.
Qed.

Lemma brace_free_cons (c : char) (s : jsstring) :
  brace_free (c :: s) = true <->
  (c <> LBRACE /\ c <> RBRACE) /\ brace_free s = true.
Proof.
  unfold brace_free. simpl. rewrite andb_true_iff, negb_true_iff.
  now rewrite is_brace_false.
Qed.

Lemma brace_free_app (a b : jsstring) :
  brace_free (a ++ b) = true <-> brace_free a = true /\ brace_free b = true.
Proof. unfold brace_free. rewrite forallb_app. apply andb_true_iff. Qed.

Lemma brace_free_no_open (s : jsstring) :
  brace_free s = true -> Forall (fun c => c <> LBRACE) s.
Proof.
  induction s as [|c s IH]; intros H; constructor;
    apply brace_free_cons in H; tauto.
Qed.

(** Two brace-free names followed by a closing brace agree on a prefix
    only when they are the same name. *)
Lemma name_prefix_false (n k R : jsstring) :
  brace_free n = true -> brace_free k = true -> n <> k ->
  startsWith (n ++ RBRACE :: R) (k ++ [RBRACE]) = false.
Proof.
  revert k; induction n as [|c n IH]; intros [|d k] Hn Hk Hneq; simpl.
  - congruence.
  - apply brace_free_cons in Hk as [[_ Hd] _].
    destruct (N.eqb_spec RBRACE d); [congruence|reflexivity].
  - apply brace_free_cons in Hn as [[_ Hc] _].
    destruct (N.eqb_spec c RBRACE); [congruence|reflexivity].
  - apply brace_free_cons in Hn as [_ Hn].
    apply brace_free_cons in Hk as [_ Hk].
    destruct (N.eqb_spec c d); [subst; simpl|reflexivity].
    apply IH; congruence.
Qed.

Lemma render_app (a b : list token) : render (a ++ b) = render a ++ render b.
Proof. apply flat_map_app. Qed.

Lemma render_lits (v : jsstring) : render (map Lit v) = v.
Proof. induction v as [|c v IH]; simpl; congruence. Qed.

Lemma wf_lits (v : jsstring) :
  brace_free v = true -> forallb wf_token (map Lit v) = true.
Proof.
  induction v as [|c v IH]; simpl; [reflexivity|].
  intros H. apply andb_true_iff in H as [-> H]. now apply IH.
Qed.

Lemma wf_fill_one (k v : jsstring) (toks : list token) :
  brace_free v = true -> forallb wf_token toks = true ->
  forallb wf_token (flat_map (fill_one k v) toks) = true.
Proof.
  intros Hv. induction toks as [|t toks IH]; simpl; [reflexivity|].
  intros H. apply andb_true_iff in H as [Ht Htoks].
  rewrite forallb_app, IH, andb_true_r by assumption.
  destruct t as [c|n]; simpl in *; [now rewrite Ht|].
  destruct (str_eqb n k); [now apply wf_lits|simpl; now rewrite Ht].
Qed.

(** One pass of the loop of [resolveVariables] fills the placeholders
    named [k] and touches nothing else. *)
Lemma replace_all_render (k v : jsstring) (toks : list token) :
  brace_free k = true -> forallb wf_token toks = true ->
  replace_all (render toks) (TokenService.placeholder k) v
  = render (flat_map (fill_one k v) toks).
Proof.
  intros Hk. unfold TokenService.placeholder.
  induction toks as [|t toks IH]; simpl; intros H; [reflexivity|].
  apply andb_true_iff in H as [Ht Htoks]. specialize (IH Htoks).
  rewrite render_app. destruct t as [c|n]; simpl in *.
  - apply negb_true_iff, is_brace_false in Ht as [Hc _].
    rewrite replace_all_nomatch by now apply startsWith_head.
    now rewrite IH.
  - unfold TokenService.placeholder. simpl.
    destruct (str_eqb n k) eqn:Hnk.
    + apply str_eqb_eq in Hnk; subst n.
      rewrite <- app_assoc. simpl.
      change (k ++ RBRACE :: render toks) with (k ++ [RBRACE] ++ render toks).
      rewrite app_assoc, replace_all_match, IH. now rewrite render_lits.
    + apply str_eqb_neq in Hnk.
      rewrite <- app_assoc. simpl.
      rewrite replace_all_nomatch
        by (cbn [startsWith]; rewrite N.eqb_refl; now apply name_prefix_false).
      rewrite replace_all_skip by now apply brace_free_no_open.
      rewrite replace_all_nomatch by (apply startsWith_head; discriminate).
      rewrite IH. simpl. now rewrite app_nil_r, <- app_assoc.
Qed.

Lemma or_empty_id (v : jsstring) : TokenService.or_empty v = v.
Proof. now destruct v. Qed.

Lemma resolveVariables_cons (text k v : jsstring) (V : TokenService.Variables) :
  TokenService.resolveVariables text ((k, v) :: V)
  = TokenService.resolveVariables
      (replace_all text (TokenService.placeholder k) v) V.
Proof.
  unfold TokenService.resolveVariables. simpl.
  now rewrite or_empty_id.
Qed.

Lemma fill_lits (V : TokenService.Variables) (v : jsstring) :
  flat_map (fill V) (map Lit v) = v.
Proof. induction v as [|c v IH]; simpl; congruence. Qed.

Lemma fill_nil (toks : list token) : flat_map (fill []) toks = render toks.
Proof. reflexivity. Qed.

(** The loop of [resolveVariables] on a rendered template. *)
Lemma resolveVariables_render (V : TokenService.Variables) :
  forall toks : list token,
    plain V = true -> forallb wf_token toks = true ->
    TokenService.resolveVariables (render toks) V = flat_map (fill V) toks.
Proof.
  induction V as [|[k v] V IH]; intros toks HV Hwf.
  - reflexivity.
  - simpl in HV. apply andb_true_iff in HV as [Hkv HV].
    apply andb_true_iff in Hkv as [Hk Hv]. simpl in Hk, Hv.
    rewrite resolveVariables_cons, replace_all_render by assumption.
    rewrite IH by (try assumption; now apply wf_fill_one).
    clear - toks. induction toks as [|t toks IHt]; simpl; [reflexivity|].
    rewrite flat_map_app, IHt. f_equal.
    destruct t as [c|n]; simpl; [reflexivity|].
    rewrite (str_eqb_sym n k).
    destruct (str_eqb k n); [apply fill_lits|]. simpl. now rewrite app_nil_r.
Qed.

(** A template that [parse_template] accepts is the rendering of the
    tokens read, and these are well formed. *)
Lemma scan_sound (s : jsstring) :
  forall (pending : option jsstring) (toks : list token),
    scan s pending = Some toks ->
    match pending with
    | None => render toks = s /\ forallb wf_token toks = true
    | Some acc =>
        exists n toks',
          toks = Hole (acc ++ n) :: toks' /\ brace_free n = true /\
          s = n ++ RBRACE :: render toks' /\ forallb wf_token toks' = true
    end.
Proof.
  induction s as [|c s IH]; intros [acc|] toks H; simpl in H.
  - discriminate.
  - inversion H; subst. now split.
  - destruct (N.eqb_spec c RBRACE) as [->|Hr].
    + destruct (scan s None) as [toks'|] eqn:Hs; [|discriminate].
      inversion H; subst. destruct (IH None toks' Hs) as [Hrender Hwf].
      exists [], toks'. rewrite app_nil_r. simpl. now rewrite Hrender.
    + destruct (N.eqb_spec c LBRACE) as [->|Hl]; [discriminate|].
      destruct (IH _ _ H) as (n & toks' & -> & Hn & -> & Hwf).
      exists (c :: n), toks'. rewrite <- app_assoc. simpl. repeat split; auto.
      apply brace_free_cons. auto.
  - destruct (N.eqb_spec c LBRACE) as [->|Hl].
    + destruct (IH _ _ H) as (n & toks' & -> & Hn & -> & Hwf).
      simpl. unfold TokenService.placeholder. rewrite <- app_assoc. simpl.
      split; [reflexivity|]. now rewrite Hn.
    + destruct (N.eqb_spec c RBRACE) as [->|Hr]; [discriminate|].
      destruct (scan s None) as [toks'|] eqn:Hs; [|discriminate].
      inversion H; subst. destruct (IH None toks' Hs) as [Hrender Hwf].
      simpl. rewrite Hrender, Hwf. split; [reflexivity|].
      rewrite andb_true_r. apply negb_true_iff, is_brace_false. auto.
Qed.

Lemma parse_template_sound (T : jsstring) (toks : list token) :
  parse_template T = Some toks ->
  render toks = T /\ forallb wf_token toks = true.
Proof. intros H. exact (scan_sound T None toks H). Qed.

(** ** Occurrences of a placeholder in a rendered template *)

Lemma indexOf_from_skip (x : jsstring) (a : char) (s p : jsstring) (i : Z) :
  Forall (fun c => c <> a) x ->
  indexOf_from (x ++ s) (a :: p) i
  = indexOf_from s (a :: p) (i + Z.of_nat (length x))%Z.
Proof.
  intros H; revert i; induction H as [|c x Hc _ IH]; intros i.
  - simpl. now rewrite Z.add_0_r.
  - cbn [app indexOf_from]. rewrite startsWith_head by assumption.
    rewrite IH. f_equal. cbn [length]. lia.
Qed.

Lemma indexOf_from_cons (c a : char) (s p : jsstring) (i : Z) :
  startsWith (c :: s) (a :: p) = false ->
  indexOf_from (c :: s) (a :: p) i = indexOf_from s (a :: p) (i + 1)%Z.
Proof. intros H. cbn [indexOf_from]. now rewrite H. Qed.

Lemma no_hole_no_occurrence (k : jsstring) (toks : list token) :
  brace_free k = true -> forallb wf_token toks = true ->
  ~ In (Hole k) toks ->
  forall i, indexOf_from (render toks) (TokenService.placeholder k) i = (-1)%Z.
Proof.
  intros Hk. unfold TokenService.placeholder.
  induction toks as [|t toks IH]; intros Hwf Hin i; [reflexivity|].
  simpl in Hwf. apply andb_true_iff in Hwf as [Ht Hwf].
  assert (Hin' : ~ In (Hole k) toks) by (intros ?; apply Hin; now right).
  specialize (IH Hwf Hin'). fold (render toks) in IH.
  destruct t as [c|n]; simpl in Ht;
    cbn [render flat_map render_token app]; fold (render toks).
  - apply negb_true_iff, is_brace_false in Ht as [Hc _].
    rewrite indexOf_from_cons by now apply startsWith_head. apply IH.
  - assert (Hnk : n <> k) by (intros ->; apply Hin; now left).
    unfold TokenService.placeholder. cbn [app]. rewrite <- app_assoc.
    cbn [app].
    rewrite indexOf_from_cons
      by (cbn [startsWith]; rewrite N.eqb_refl; now apply name_prefix_false).
    rewrite indexOf_from_skip by now apply brace_free_no_open.
    rewrite indexOf_from_cons by (apply startsWith_head; discriminate).
    apply IH.
Qed.

Lemma render_fill_token (V : TokenService.Variables) (toks : list token) :
  render (flat_map (fill_token V) toks) = flat_map (fill V) toks.
Proof.
  induction toks as [|t toks IH]; simpl; [reflexivity|].
  rewrite render_app, IH. f_equal.
  destruct t as [c|n]; simpl; [reflexivity|].
  destruct (assoc n V); [apply render_lits|].
  unfold TokenService.placeholder. simpl. now rewrite app_nil_r.
Qed.

Lemma assoc_plain (V : TokenService.Variables) (n v : jsstring) :
  plain V = true -> assoc n V = Some v -> brace_free v = true.
Proof.
  induction V as [|[k' v'] V IH]; simpl; [discriminate|].
  intros H. apply andb_true_iff in H as [Hkv HV].
  apply andb_true_iff in Hkv as [_ Hv']. simpl in Hv'.
  destruct (str_eqb k' n); [intros [= <-]; assumption|now apply IH].
Qed.

Lemma key_plain (V : TokenService.Variables) (k : jsstring) :
  plain V = true -> In k (map fst V) ->
  brace_free k = true /\ assoc k V <> None.
Proof.
  induction V as [|[k' v'] V IH]; simpl; [tauto|].
  intros H. apply andb_true_iff in H as [Hkv HV].
  apply andb_true_iff in Hkv as [Hk' _]. simpl in Hk'.
  intros [->|Hin].
  - rewrite str_eqb_refl. split; [assumption|discriminate].
  - destruct (IH HV Hin) as [Hk Hassoc]. split; [assumption|].
    destruct (str_eqb k' k); [discriminate|assumption].
Qed.

Lemma wf_fill_token (V : TokenService.Variables) (toks : list token) :
  plain V = true -> forallb wf_token toks = true ->
  forallb wf_token (flat_map (fill_token V) toks) = true.
Proof.
  intros HV. induction toks as [|t toks IH]; simpl; [reflexivity|].
  intros H. apply andb_true_iff in H as [Ht Htoks].
  rewrite forallb_app, IH, andb_true_r by assumption.
  destruct t as [c|n]; simpl in *; [now rewrite Ht|].
  destruct (assoc n V) as [v|] eqn:Hv.
  - apply wf_lits. eapply assoc_plain; eauto.
  - simpl. now rewrite Ht.
Qed.

Lemma hole_fill_token (V : TokenService.Variables) (toks : list token)
    (k : jsstring) :
  In (Hole k) (flat_map (fill_token V) toks) -> assoc k V = None.
Proof.
  induction toks as [|t toks IH]; simpl; [tauto|].
  rewrite in_app_iff. intros [H|H]; [|now apply IH].
  destruct t as [c|n]; simpl in H.
  - destruct H as [H|[]]. discriminate.
  - destruct (assoc n V) as [v|] eqn:Hv.
    + apply in_map_iff in H as (c & Hc & _). discriminate.
    + destruct H as [H|[]]. congruence.
Qed.

(** [includes] says what it should: [p] occurs somewhere in [s]. *)
Lemma indexOf_from_found (s p : jsstring) (i : Z) :
  (0 <= i)%Z ->
  indexOf_from s p i <> (-1)%Z <-> exists a b, s = a ++ p ++ b.
Proof.
  revert i; induction s as [|c s IH]; intros i Hi; cbn [indexOf_from].
  - destruct (startsWith [] p) eqn:Hp.
    + apply startsWith_iff in Hp as [r Hr]. split; [|lia].
      intros _. now exists [], r.
    + split; [congruence|]. intros (a & b & Hab).
      destruct a; [|discriminate]. simpl in Hab.
      assert (startsWith [] p = true) by (apply startsWith_iff; eauto).
      congruence.
  - destruct (startsWith (c :: s) p) eqn:Hp.
    + apply startsWith_iff in Hp as [r Hr]. split; [|lia].
      intros _. now exists [], r.
    + rewrite IH by lia. split.
      * intros (a & b & ->). now exists (c :: a), b.
      * intros (a & b & Hab). destruct a as [|c' a].
        -- simpl in Hab.
           assert (startsWith (c :: s) p = true) by (apply startsWith_iff; eauto).
           congruence.
        -- inversion Hab; subst. now exists a, b.
Qed.

Lemma includes_iff (s p : jsstring) :
  includes s p = true <-> exists a b, s = a ++ p ++ b.
Proof.
  unfold includes, indexOf. rewrite negb_true_iff, Z.eqb_neq.
  apply indexOf_from_found. lia.
Qed.

(* ================================================================== *)
(** * Claims about the template resolver *)
(* ================================================================== *)

(** C1, as stated, fails: a placeholder whose name is not a key of the
    mapping is not blanked, it stays in the text; and a value that itself
    contains the placeholder of a later key is rewritten by the later pass. *)
Lemma C1_absent_key_is_kept :
  TokenService.resolveVariables (js "Hi {name}") [] = js "Hi {name}"
  /\ TokenService.resolveVariables (js "Hi {name}") [] <> js "Hi "
  /\ TokenService.resolveVariables (js "{a}") [(js "a", js "{b}"); (js "b", js "x")]
     = js "x".
Proof. repeat split. discriminate. Qed.

(** C1 (amended): for every template whose braces only form un-nested
    placeholders and every mapping whose keys and values contain no brace,
    [resolveVariables] replaces each placeholder by the value of its name
    when the name is a key, and leaves it as it is when the name is not a
    key; in particular "Hi {name}" resolves to "Hi Bob" under {name: "Bob"}
    and stays "Hi {name}" under the empty mapping. *)
Theorem C1_resolve_fills_present_keys
    (T : jsstring) (toks : list token) (V : TokenService.Variables) :
  parse_template T = Some toks ->
  plain V = true ->
  TokenService.resolveVariables T V = flat_map (fill V) toks
  /\ TokenService.resolveVariables (js "Hi {name}") [(js "name", js "Bob")]
     = js "Hi Bob"
  /\ TokenService.resolveVariables (js "Hi {name}") [] = js "Hi {name}".
Proof.
  intros HT HV. destruct (parse_template_sound T toks HT) as [<- Hwf].
  split; [now apply resolveVariables_render|]. split; reflexivity.
Qed.

Lemma C1_resolve_fills_present_keys_witness :
  TokenService.resolveVariables (js "{greet}, {name}{x}!")
    [(js "name", js "Bob"); (js "greet", js "Hi")]
  = js "Hi, Bob{x}!".
Proof.
  refine (proj1 (C1_resolve_fills_present_keys
                   (js "{greet}, {name}{x}!")
                   [Hole (js "greet"); Lit 44%N; Lit 32%N; Hole (js "name");
                    Hole (js "x"); Lit 33%N]
                   [(js "name", js "Bob"); (js "greet", js "Hi")] _ _));
    reflexivity.
Defined.

(** C4, as stated, fails: a value may bring the placeholder back, and so
    may the text around a nested placeholder. *)
Lemma C4_placeholder_can_remain :
  (In (js "a") (CreateView.detectedVariables (js "{a}") [])
   /\ In (js "a") (map fst [(js "a", js "{a}")])
   /\ includes (TokenService.resolveVariables (js "{a}") [(js "a", js "{a}")])
        (js "{a}") = true)
  /\ (In (js "a") (CreateView.detectedVariables (js "{a} {a{a}}") [])
      /\ In (js "a") (map fst [(js "a", @nil char)])
      /\ includes (TokenService.resolveVariables (js "{a} {a{a}}") [(js "a", [])])
           (js "{a}") = true).
Proof. repeat split; simpl; auto. Qed.

(** C4 (amended): for every template whose braces only form un-nested
    placeholders and every mapping whose keys and values contain no brace,
    the resolved text contains no literal [{k}] for any key [k] of the
    mapping that is detected in the template. *)
Theorem C4_no_resolved_placeholder_left
    (T : jsstring) (toks : list token) (V : TokenService.Variables)
    (k : jsstring) :
  parse_template T = Some toks ->
  plain V = true ->
  In k (CreateView.detectedVariables T []) ->
  In k (map fst V) ->
  includes (TokenService.resolveVariables T V) (TokenService.placeholder k)
  = false.
Proof.
  intros HT HV _ Hk. destruct (parse_template_sound T toks HT) as [<- Hwf].
  rewrite resolveVariables_render, <- render_fill_token by assumption.
  destruct (key_plain V k HV Hk) as [Hfree Hassoc].
  unfold includes, indexOf.
  rewrite no_hole_no_occurrence; auto using wf_fill_token.
  intros Hin. now apply hole_fill_token in Hin.
Qed.

Lemma C4_no_resolved_placeholder_left_witness :
  includes
    (TokenService.resolveVariables (js "{name}, meet {name} and {x}")
       [(js "name", js "Bob")])
    (js "{name}") = false.
Proof.
  refine (C4_no_resolved_placeholder_left
            (js "{name}, meet {name} and {x}")
            (Hole (js "name") :: map Lit (js ", meet ")
               ++ Hole (js "name") :: map Lit (js " and ") ++ [Hole (js "x")])
            [(js "name", js "Bob")] (js "name") _ _ _ _);
    [reflexivity | reflexivity | simpl; auto | simpl; auto].
Defined.

(* ================================================================== *)
(** * Claims about placeholder detection *)
(* ================================================================== *)

Lemma brace_free_no_close (s : jsstring) :
  brace_free s = true -> Forall (fun c => c <> RBRACE) s.
Proof.
  induction s as [|c s IH]; intros H; constructor;
    apply brace_free_cons in H; tauto.
Qed.

Lemma span_name_open (s : jsstring) :
  Forall (fun c => c <> RBRACE) s -> CreateView.span_name s = (s, []).
Proof.
  induction 1 as [|c s Hc _ IH]; simpl; [reflexivity|].
  destruct (N.eqb_spec c RBRACE); [contradiction|]. now rewrite IH.
Qed.

Lemma span_name_closed (n r : jsstring) :
  Forall (fun c => c <> RBRACE) n ->
  CreateView.span_name (n ++ RBRACE :: r) = (n, RBRACE :: r).
Proof.
  induction 1 as [|c s Hc _ IH]; simpl.
  - reflexivity.
  - destruct (N.eqb_spec c RBRACE); [contradiction|]. now rewrite IH.
Qed.

Lemma match_at_no_close (s : jsstring) :
  Forall (fun c => c <> RBRACE) s -> CreateView.match_at s = None.
Proof.
  intros H. destruct H as [|c s Hc Hs]; simpl; [reflexivity|].
  destruct (N.eqb c LBRACE); [|reflexivity].
  rewrite span_name_open by assumption. now destruct s.
Qed.

(** Without a closing brace in the input there is nothing to detect. *)
Lemma exec_loop_no_close (fuel : nat) :
  forall (s : jsstring) (found : list jsstring),
    Forall (fun c => c <> RBRACE) s -> CreateView.exec_loop fuel s found = found.
Proof.
  induction fuel as [|fuel IH]; intros s found H; simpl; [reflexivity|].
  destruct s as [|c s]; [reflexivity|].
  rewrite match_at_no_close by assumption. apply IH. now inversion H.
Qed.

(** Without an opening brace in the input there is nothing to detect. *)
Lemma exec_loop_no_open (fuel : nat) :
  forall (s : jsstring) (found : list jsstring),
    Forall (fun c => c <> LBRACE) s -> CreateView.exec_loop fuel s found = found.
Proof.
  induction fuel as [|fuel IH]; intros s found H; simpl; [reflexivity|].
  destruct s as [|c s]; [reflexivity|]. inversion H; subst.
  unfold CreateView.match_at.
  destruct (N.eqb_spec c LBRACE); [contradiction|]. now apply IH.
Qed.

Lemma span_name_length (s : jsstring) :
  length (fst (CreateView.span_name s)) + length (snd (CreateView.span_name s))
  = length s.
Proof.
  induction s as [|c s IH]; simpl; [reflexivity|].
  destruct (N.eqb c RBRACE); simpl; [reflexivity|].
  destruct (CreateView.span_name s); simpl in *. lia.
Qed.

Lemma match_at_shorter (s name after : jsstring) :
  CreateView.match_at s = Some (name, after) -> length after < length s.
Proof.
  destruct s as [|c s]; simpl; [discriminate|].
  destruct (N.eqb c LBRACE); [|discriminate].
  pose proof (span_name_length s) as Hlen.
  destruct (CreateView.span_name s) as [[|x n] [|d r]]; try discriminate.
  intros [= <- <-]. simpl in Hlen. lia.
Qed.

(** The loop of [detectedVariables] ends by itself: every bound on the
    number of positions tried that is at least the length of the input
    gives the same result. *)
Lemma exec_loop_fuel (fuel1 : nat) :
  forall (fuel2 : nat) (s : jsstring) (found : list jsstring),
    length s <= fuel1 -> length s <= fuel2 ->
    CreateView.exec_loop fuel1 s found = CreateView.exec_loop fuel2 s found.
Proof.
  induction fuel1 as [|fuel1 IH]; intros [|fuel2] [|c s] found H1 H2;
    simpl in H1, H2; try lia; try reflexivity.
  cbn [CreateView.exec_loop].
  destruct (CreateView.match_at (c :: s)) as [[name after]|] eqn:Hm.
  - apply match_at_shorter in Hm. simpl in Hm. apply IH; lia.
  - apply IH; lia.
Qed.

(** C10: detection scans the concatenation of the two templates, so a
    placeholder opened at the end of the system template and closed at the
    start of the user template is detected although neither template alone
    has it: the result is not the union of two separate scans. *)
Theorem C10_detection_spans_the_seam (a b : jsstring) :
  brace_free a = true -> brace_free b = true -> a ++ b <> [] ->
  (forall sys usr,
      CreateView.detectedVariables sys usr
      = CreateView.detectedVariables (sys ++ usr) [])
  /\ CreateView.detectedVariables (LBRACE :: a) (b ++ [RBRACE]) = [a ++ b]
  /\ CreateView.detectedVariables (LBRACE :: a) [] = []
  /\ CreateView.detectedVariables [] (b ++ [RBRACE]) = [].
Proof.
  intros Ha Hb Hab. split; [|split; [|split]].
  - intros sys usr. unfold CreateView.detectedVariables.
    now rewrite app_nil_r.
  - unfold CreateView.detectedVariables. cbn [app length CreateView.exec_loop].
    unfold CreateView.match_at. rewrite N.eqb_refl.
    rewrite app_assoc, span_name_closed.
    + destruct (a ++ b) as [|c n] eqn:E; [congruence|].
      now destruct (length (n ++ [RBRACE])).
    + apply brace_free_no_close, brace_free_app. auto.
  - unfold CreateView.detectedVariables. apply exec_loop_no_close.
    rewrite app_nil_r. constructor; [discriminate|].
    now apply brace_free_no_close.
  - unfold CreateView.detectedVariables. apply exec_loop_no_open.
    simpl. apply Forall_app. split; [now apply brace_free_no_open|].
    constructor; [discriminate|constructor].
Qed.

Lemma C10_detection_spans_the_seam_witness :
  CreateView.detectedVariables (js "{a") (js "b}") = [js "ab"]
  /\ CreateView.detectedVariables (js "{a") [] = []
  /\ CreateView.detectedVariables [] (js "b}") = [].
Proof.
  refine (proj2 (C10_detection_spans_the_seam (js "a") (js "b") _ _ _));
    [reflexivity | reflexivity | discriminate].
Defined.

(* ================================================================== *)
(** * Claims about the reasoning splitter *)
(* ================================================================== *)

Lemma skipn_exact {A : Type} (p x : list A) : skipn (length p) (p ++ x) = x.
Proof. induction p; simpl; auto. Qed.

Lemma firstn_exact {A : Type} (p x : list A) : firstn (length p) (p ++ x) = p.
Proof. induction p; simpl; congruence. Qed.

Lemma slice_from (s : jsstring) (a : nat) :
  (a <= length s)%nat -> slice s (Z.of_nat a) None = skipn a s.
Proof.
  intros H. unfold slice, rel_index.
  destruct (Z.ltb_spec (Z.of_nat a) 0); [lia|].
  rewrite Z.min_l by lia. rewrite Nat2Z.id.
  apply firstn_all2. rewrite length_skipn. lia.
Qed.

Lemma slice_between (s : jsstring) (a b : nat) :
  (a <= b)%nat -> (b <= length s)%nat ->
  slice s (Z.of_nat a) (Some (Z.of_nat b)) = firstn (b - a) (skipn a s).
Proof.
  intros Hab Hb. unfold slice, rel_index.
  destruct (Z.ltb_spec (Z.of_nat a) 0); [lia|].
  destruct (Z.ltb_spec (Z.of_nat b) 0); [lia|].
  rewrite !Z.min_l by lia. rewrite Nat2Z.id. f_equal. lia.
Qed.

(** Rule 1 holds for every output. *)
Lemma parsedOutput_plain (output : jsstring) :
  startsWith (trimStart output) (js "<think>") = false ->
  CreateView.parsedOutput output
  = {| CreateView.thought := None; CreateView.content := output |}.
Proof.
  intros H. unfold CreateView.parsedOutput. rewrite H.
  now destruct output.
Qed.

(** Rule 2 holds when the open marker is at the very start. *)
Lemma parsedOutput_thinking (rest : jsstring) :
  indexOf (js "<think>" ++ rest) (js "</think>") = (-1)%Z ->
  CreateView.parsedOutput (js "<think>" ++ rest)
  = {| CreateView.thought := Some (trim rest); CreateView.content := [] |}.
Proof.
  intros H. unfold CreateView.parsedOutput.
  change (js "<think>" ++ rest) with (60%N :: (js "think>" ++ rest)) at 1.
  cbv iota. change (trimStart (js "<think>" ++ rest)) with (js "<think>" ++ rest).
  rewrite startsWith_app, H. cbn [negb Z.eqb].
  change 7%Z with (Z.of_nat (length (js "<think>"))).
  rewrite slice_from by (rewrite length_app; lia).
  now rewrite skipn_app, skipn_all, Nat.sub_diag.
Qed.

(** Rule 3 holds when the open marker is at the very start. *)
Lemma parsedOutput_closed (a b : jsstring) :
  indexOf (js "<think>" ++ a ++ js "</think>" ++ b) (js "</think>")
  = Z.of_nat (7 + length a) ->
  CreateView.parsedOutput (js "<think>" ++ a ++ js "</think>" ++ b)
  = {| CreateView.thought := Some (trim a); CreateView.content := trim b |}.
Proof.
  intros H. unfold CreateView.parsedOutput. set (out := _ ++ _) in *.
  change out with (60%N :: (js "think>" ++ a ++ js "</think>" ++ b)) at 1.
  cbv iota. change (trimStart out) with out. unfold out at 1.
  rewrite startsWith_app, H. cbn [negb].
  destruct (Z.eqb_spec (Z.of_nat (7 + length a)) (-1)); [lia|].
  assert (Hlen : length out = (7 + length a + 8 + length b)%nat).
  { unfold out. rewrite !length_app. simpl. lia. }
  change 7%Z with (Z.of_nat 7).
  rewrite slice_between by lia.
  replace (Z.of_nat (7 + length a) + 8)%Z with (Z.of_nat (7 + length a + 8)) by lia.
  rewrite slice_from by lia. f_equal.
  - f_equal. f_equal. unfold out.
    replace (7 + length a - 7)%nat with (length a) by lia.
    rewrite (skipn_exact (js "<think>")). apply firstn_exact.
  - f_equal. unfold out. rewrite !app_assoc.
    replace (7 + length a + 8)%nat
      with (length ((js "<think>" ++ a) ++ js "</think>"))
      by (rewrite !length_app; simpl; lia).
    apply skipn_exact.
Qed.

(** C2 on the failing input: with white space before the open marker the
    marker is recognised, but the thought is still cut at index 7 of the
    untrimmed text, so it is not the text after the marker. *)
Theorem C2_leading_space_shifts_thought :
  CreateView.parsedOutput (js " <think>abc")
  = {| CreateView.thought := Some (js ">abc"); CreateView.content := [] |}
  /\ CreateView.parsedOutput (js " <think>a</think>b")
     = {| CreateView.thought := Some (js ">a"); CreateView.content := js "b" |}.
Proof. split; reflexivity. Qed.

(* ================================================================== *)
(** * The line buffer of generateStream *)
(* ================================================================== *)

Lemma split_newline_cons (c : char) (s : jsstring) :
  split (c :: s) [NEWLINE]
  = if N.eqb c NEWLINE then [] :: split s [NEWLINE]
    else cons_head c (split s [NEWLINE]).
Proof.
  unfold split. cbn [split_from startsWith length Nat.sub].
  rewrite andb_true_r. reflexivity.
Qed.

Lemma split_newline_nonempty (s : jsstring) : split s [NEWLINE] <> [].
Proof. apply split_from_nonempty. Qed.

Lemma pop_spec {A : Type} (l : list A) (d : A) :
  l <> [] -> pop l = (Some (last l d), removelast l).
Proof.
  intros H. unfold pop.
  rewrite (app_removelast_last d H) at 1.
  rewrite rev_app_distr. simpl. now rewrite rev_involutive.
Qed.

Lemma last_app_nonempty {A : Type} (l l' : list A) (d : A) :
  l' <> [] -> last (l ++ l') d = last l' d.
Proof.
  intros H. induction l as [|x l IH]; [reflexivity|].
  simpl. rewrite IH. destruct (l ++ l') eqn:E; [|reflexivity].
  apply app_eq_nil in E as [_ ?]. contradiction.
Qed.

(** Appending text only touches the last, pending, piece of a split. *)
Lemma split_newline_app (a b : jsstring) :
  split (a ++ b) [NEWLINE]
  = removelast (split a [NEWLINE])
      ++ split (last (split a [NEWLINE]) [] ++ b) [NEWLINE].
Proof.
  induction a as [|c a IH]; [reflexivity|].
  cbn [app]. rewrite !split_newline_cons.
  pose proof (split_newline_nonempty a) as Hne.
  destruct (N.eqb_spec c NEWLINE) as [->|Hc].
  - rewrite IH. destruct (split a [NEWLINE]) as [|p ps]; [contradiction|].
    reflexivity.
  - rewrite IH. destruct (split a [NEWLINE]) as [|p [|q ps]]; [contradiction| |].
    + cbn [cons_head removelast last app]. rewrite split_newline_cons.
      apply N.eqb_neq in Hc. now rewrite Hc.
    + reflexivity.
Qed.

Section Streaming.
Context {E : Engine}.

Lemma read_loop_value (text : jsstring) (rest : list ReadEvent)
    (buffer : jsstring) :
  ApiService.read_loop (Value text :: rest) buffer
  = flat_map ApiService.process_line
      (removelast (split (buffer ++ text) [NEWLINE]))
    ++ ApiService.read_loop rest (last (split (buffer ++ text) [NEWLINE]) []).
Proof.
  cbn [ApiService.read_loop].
  rewrite (pop_spec (A := jsstring) _ []) by apply split_newline_nonempty.
  now rewrite or_empty_id.
Qed.

(** The increments of a stream that is read to its end without a failure
    are those of the complete lines of the whole text, however the text
    was cut into pieces; the text after the last newline yields nothing. *)
Lemma read_loop_pieces (pieces : list jsstring) :
  forall x : jsstring,
    flat_map ApiService.process_line (removelast (split x [NEWLINE]))
    ++ ApiService.read_loop (map Value pieces) (last (split x [NEWLINE]) [])
    = flat_map ApiService.process_line
        (removelast (split (x ++ concat pieces) [NEWLINE])).
Proof.
  induction pieces as [|t pieces IH]; intros x.
  - simpl. now rewrite !app_nil_r.
  - cbn [map concat]. rewrite read_loop_value, (app_assoc x t), <- IH.
    rewrite (split_newline_app x t).
    rewrite removelast_app, last_app_nonempty by apply split_newline_nonempty.
    now rewrite flat_map_app, app_assoc.
Qed.

Lemma generateStream_delivering (config : ApiConfig) (model : jsstring)
    (messages : list ChatMessage) (pieces : list jsstring) :
  ApiService.generateStream config model messages (delivering pieces)
  = flat_map ApiService.process_line
      (removelast (split (concat pieces) [NEWLINE])).
Proof.
  unfold ApiService.generateStream, delivering. cbn.
  exact (read_loop_pieces pieces []).
Qed.

End Streaming.

(* ================================================================== *)
(** * Claims about the streaming client *)
(* ================================================================== *)

Lemma split_newline_free (x : jsstring) :
  newline_free x = true -> split x [NEWLINE] = [x].
Proof.
  induction x as [|c x IH]; [reflexivity|].
  intros H. simpl in H. apply andb_true_iff in H as [Hc Hx].
  rewrite split_newline_cons, IH by assumption.
  apply negb_true_iff in Hc. now rewrite Hc.
Qed.

Lemma split_line (x s : jsstring) :
  newline_free x = true ->
  split (x ++ NEWLINE :: s) [NEWLINE] = x :: split s [NEWLINE].
Proof.
  induction x as [|c x IH]; intros H.
  - cbn [app]. rewrite split_newline_cons. reflexivity.
  - simpl in H. apply andb_true_iff in H as [Hc Hx].
    cbn [app]. rewrite split_newline_cons, IH by assumption.
    apply negb_true_iff in Hc. now rewrite Hc.
Qed.

(** Splitting at newlines undoes joining with newlines. *)
Lemma split_join_lines (L : list jsstring) :
  L <> [] -> forallb newline_free L = true ->
  split (join L [NEWLINE]) [NEWLINE] = L.
Proof.
  induction L as [|x L IH]; [congruence|]. intros _ H.
  simpl in H. apply andb_true_iff in H as [Hx HL].
  destruct L as [|y L].
  - now apply split_newline_free.
  - change (join (x :: y :: L) [NEWLINE])
      with (x ++ NEWLINE :: join (y :: L) [NEWLINE]).
    rewrite split_line by assumption. f_equal. apply IH; [discriminate|assumption].
Qed.

Section StreamingClaims.
Context {E : Engine}.

(** C5: the text is cut at newlines and the last, possibly incomplete,
    line of each pass is kept for the next one; so, however the three
    frames "Hel", "lo", [DONE] are cut into pieces (two boundaries or any
    other number, also in the middle of a line), the stream yields exactly
    the two content increments "Hel" and "lo", and no error increment. *)
Theorem C5_frames_survive_any_chunking (config : ApiConfig) (model : jsstring)
    (messages : list ChatMessage) (pieces : list jsstring) :
  concat pieces = three_frames ->
  ApiService.generateStream config model messages (delivering pieces)
  = flat_map ApiService.process_line
      (removelast (split (concat pieces) [NEWLINE]))
  /\ ApiService.generateStream config model messages (delivering pieces)
     = [content_chunk (js "Hel"); content_chunk (js "lo")].
Proof.
  intros H. rewrite generateStream_delivering. split; [reflexivity|].
  rewrite H. vm_compute. reflexivity.
Qed.

(** C7: a line whose payload does not decode contributes no increment and
    does not end the stream: the lines before it and after it yield what
    they yield without it. The text of the stream is the lines [before],
    the line [bad] and the lines [after], joined by newlines; the last
    element of [after] is what follows the last newline (the pending
    partial line, empty when the text ends with a newline). *)
Theorem C7_malformed_line_is_skipped (config : ApiConfig) (model : jsstring)
    (messages : list ChatMessage) (pieces : list jsstring)
    (before after : list jsstring) (bad : jsstring) :
  startsWith (trim bad) (js "data: ") = true ->
  JSON.parse (slice (trim bad) 6 None) = None ->
  forallb newline_free (before ++ bad :: after) = true ->
  after <> [] ->
  concat pieces = join (before ++ bad :: after) [NEWLINE] ->
  ApiService.process_line bad = []
  /\ ApiService.generateStream config model messages (delivering pieces)
     = flat_map ApiService.process_line before
       ++ flat_map ApiService.process_line (removelast after).
Proof.
  intros Hdata Hbad Hfree Hafter Htext.
  assert (Hskip : ApiService.process_line bad = []).
  { unfold ApiService.process_line. rewrite Hdata, Hbad.
    destruct (trim bad); [reflexivity|]. now destruct (str_eqb _ _). }
  split; [assumption|].
  rewrite generateStream_delivering, Htext.
  rewrite split_join_lines by (try assumption; now destruct before).
  rewrite removelast_app by discriminate.
  rewrite flat_map_app. f_equal.
  destruct after as [|y after]; [contradiction|].
  change (removelast (bad :: y :: after)) with (bad :: removelast (y :: after)).
  cbn [flat_map]. now rewrite Hskip.
Qed.

End StreamingClaims.

Lemma C5_frames_survive_any_chunking_witness :
  ApiService.generateStream (E := sample_engine) sample_config (js "llama2") []
    (delivering [firstn 20 three_frames;
                 firstn 40 (skipn 20 three_frames);
                 skipn 60 three_frames])
  = [content_chunk (js "Hel"); content_chunk (js "lo")].
Proof.
  refine (proj2 (C5_frames_survive_any_chunking (E := sample_engine)
                   sample_config (js "llama2") [] _ _)).
  reflexivity.
Defined.

Lemma C7_malformed_line_is_skipped_witness :
  ApiService.generateStream (E := sample_engine) sample_config (js "llama2") []
    (delivering [frame_Hel ++ [NEWLINE] ++ js "data: {not"; js " json}";
                 [NEWLINE] ++ frame_lo ++ [NEWLINE]])
  = [content_chunk (js "Hel"); content_chunk (js "lo")].
Proof.
  refine (proj2 (C7_malformed_line_is_skipped (E := sample_engine)
                   sample_config (js "llama2") [] _
                   [frame_Hel] [frame_lo; []] (js "data: {not json}")
                   _ _ _ _ _));
    [reflexivity | reflexivity | reflexivity | discriminate | reflexivity].
Defined.

(* ================================================================== *)
(** * What one decoded frame yields *)
(* ================================================================== *)

Lemma truthy_or_else (a b : value) :
  truthy (or_else a b) = if truthy a then true else truthy b.
Proof. unfold or_else. destruct (truthy a) eqn:H; [exact H|reflexivity]. Qed.

(** The increments of a line: none, or the one built from its payload. *)
Lemma process_line_cases (line : jsstring) (chunk : ApiService.StreamChunk) :
  In chunk (ApiService.process_line line) ->
  exists frame,
    JSON.parse (slice (trim line) 6 None) = Some frame
    /\ chunk = {| ApiService.chunk_content :=
                    or_else (delta_content frame) (Some (JStr []));
                  ApiService.chunk_usage := get_named frame (js "usage");
                  ApiService.chunk_error := None |}.
Proof.
  unfold ApiService.process_line.
  destruct (trim line) as [|c t] eqn:Ht; [intros []|].
  destruct (str_eqb _ _); [intros []|].
  destruct (startsWith _ _); [|intros []].
  destruct (JSON.parse _) as [frame|]; [|intros []].
  intros H. exists frame. split; [reflexivity|].
  destruct frame; simpl in H; try tauto;
    destruct H as [<-|[]]; reflexivity.
Qed.

Lemma process_line_no_error (line : jsstring) (chunk : ApiService.StreamChunk) :
  In chunk (ApiService.process_line line) -> ApiService.chunk_error chunk = None.
Proof.
  intros H. apply process_line_cases in H as (frame & _ & ->). reflexivity.
Qed.

(** C3: the increment built from a decoded data line carries content (what
    the consumer appends: a truthy [content]) only when the nested field
    [choices[0].delta.content] is there, and then it is that field; when the
    field is absent the content of the increment is the empty string, which
    the consumer does not append; the usage of the increment is the
    top-level [usage] field, absent when that is absent. *)
Theorem C3_increment_fields (line : jsstring) (frame : json)
    (chunk : ApiService.StreamChunk) :
  JSON.parse (slice (trim line) 6 None) = Some frame ->
  In chunk (ApiService.process_line line) ->
  (carries_content chunk = true ->
   delta_content frame <> None
   /\ ApiService.chunk_content chunk = delta_content frame)
  /\ (delta_content frame = None ->
      carries_content chunk = false
      /\ ApiService.chunk_content chunk = Some (JStr []))
  /\ ApiService.chunk_usage chunk = get_named frame (js "usage")
  /\ (carries_usage chunk = true -> get_named frame (js "usage") <> None)
  /\ ApiService.chunk_error chunk = None.
Proof.
  intros Hparse Hin.
  apply process_line_cases in Hin as (frame' & Hparse' & ->).
  assert (frame' = frame) by congruence. subst frame'.
  unfold carries_content, carries_usage. cbn [ApiService.chunk_content
    ApiService.chunk_usage ApiService.chunk_error].
  split; [|split; [|split; [|split]]].
  - intros H. rewrite truthy_or_else in H. unfold or_else.
    destruct (truthy (delta_content frame)) eqn:Ht; [|discriminate].
    split; [|reflexivity]. intros Hnone. rewrite Hnone in Ht. discriminate.
  - intros ->. split; reflexivity.
  - reflexivity.
  - intros H Hnone. rewrite Hnone in H. discriminate.
  - reflexivity.
Qed.

Lemma C3_increment_fields_witness :
  let usage_only :=
    {| ApiService.chunk_content := Some (JStr []);
       ApiService.chunk_usage :=
         Some (JObj [(js "total_tokens",
                      JNum {| negative := false; mantissa := 7; exponent10 := 0 |})]);
       ApiService.chunk_error := None |} in
  carries_content usage_only = false
  /\ ApiService.chunk_content usage_only = Some (JStr []).
Proof.
  refine (proj1 (proj2 (C3_increment_fields
            (jq "data: {'usage':{'total_tokens':7}}")
            (JObj [(js "usage",
                    JObj [(js "total_tokens",
                           JNum {| negative := false; mantissa := 7;
                                   exponent10 := 0 |})])])
            _ _ _)) _);
    [reflexivity | left; reflexivity | reflexivity].
Defined.

(* ================================================================== *)
(** * Errors of the streaming client *)
(* ================================================================== *)

(** C6, as stated, fails: with a status that is not a success and a body
    that decodes, the error need not be the nested [error.message], and
    is not the status-code message either. An empty array as message
    gives "Stream error", an object gives "[object Object]". *)
Lemma C6_message_need_not_be_text :
  error_message (JObj [(js "error", JObj [(js "message", JArr [])])])
  = Some (JArr [])
  /\ ApiService.generateStream (E := sample_engine) sample_config (js "llama2") []
       (answering 500 (jq "{'error':{'message':[]}}"))
     = [error_only (js "Stream error")]
  /\ ApiService.generateStream (E := sample_engine) sample_config (js "llama2") []
       (answering 500 (jq "{'error':{'message':{}}}"))
     = [error_only (js "[object Object]")].
Proof. repeat split; vm_compute; reflexivity. Qed.

Section StreamErrors.
Context {E : Engine}.

Lemma error_chunk_rejected (m : jsstring) :
  ApiService.error_chunk (Error m)
  = error_only (ApiService.or_default m (js "Stream error")).
Proof. reflexivity. Qed.

(** A read that fails ends the stream with one error increment, after the
    increments of the lines completed before it. *)
Lemma read_loop_rejected (pieces : list jsstring) (m : jsstring)
    (rest : list ReadEvent) :
  forall buffer : jsstring,
    ApiService.read_loop (map Value pieces ++ ReadRejected m :: rest) buffer
    = ApiService.read_loop (map Value pieces) buffer
      ++ [error_only (ApiService.or_default m (js "Stream error"))].
Proof.
  induction pieces as [|t pieces IH]; intros buffer; [reflexivity|].
  cbn [map app]. rewrite !read_loop_value, IH. now rewrite app_assoc.
Qed.

(** Every run of the loop: increments without error, then at most one
    increment that only carries an error, and nothing after it. *)
Lemma read_loop_shape (events : list ReadEvent) :
  forall buffer : jsstring,
  exists data,
    Forall (fun c => ApiService.chunk_error c = None) data
    /\ (ApiService.read_loop events buffer = data
        \/ exists m, ApiService.read_loop events buffer = data ++ [error_only m]).
Proof.
  induction events as [|[text|m] events IH]; intros buffer.
  - exists []. split; [constructor|now left].
  - rewrite read_loop_value.
    destruct (IH (last (split (buffer ++ text) [NEWLINE]) []))
      as (data & Hdata & Hout).
    exists (flat_map ApiService.process_line
              (removelast (split (buffer ++ text) [NEWLINE])) ++ data).
    split.
    + apply Forall_app. split; [|assumption].
      apply Forall_forall. intros c Hc. apply in_flat_map in Hc as (l & _ & Hc).
      now apply process_line_no_error in Hc.
    + destruct Hout as [->|(m & ->)]; [now left|right].
      exists m. now rewrite app_assoc.
  - exists []. split; [constructor|right].
    exists (ApiService.or_default m (js "Stream error")). reflexivity.
Qed.

Lemma or_default_nonempty (c : char) (m fallback : jsstring) :
  ApiService.or_default (c :: m) fallback = c :: m.
Proof. reflexivity. Qed.

Lemma http_error_fallback (r : Response) :
  truthy (ApiService.nested_message r) = false ->
  ApiService.http_error r = Error (ApiService.status_message r).
Proof.
  intros H. unfold ApiService.http_error, or_else. now rewrite H.
Qed.

Lemma nested_message_undecodable (r : Response) (e : exn) :
  response_json r = Throw e -> ApiService.nested_message r = None.
Proof.
  intros H. unfold ApiService.nested_message, ApiService.errData.
  now rewrite H.
Qed.

Lemma nested_message_decoded (r : Response) (body : json) :
  response_json r = Normal body ->
  ApiService.nested_message r = error_message body.
Proof.
  intros H. unfold ApiService.nested_message, ApiService.errData, error_message.
  rewrite H. now destruct body.
Qed.

(** C6 (amended): a response whose status is not a success yields exactly
    one increment, which carries a non-empty error and nothing else: the
    nested [error.message] when the body decodes and that field is a
    non-empty string; the string that any other truthy [error.message]
    converts to, or "Stream error" when that string is empty; the
    status-code message "HTTP Error <status>" when the body does not
    decode or has no truthy [error.message]. A failure of [fetch], or of
    a read at any point, yields one error increment (its message, or
    "Stream error" for an empty one) that ends the sequence, after the
    increments of the lines completed before it; and in every run an
    error increment is the last increment. *)
Theorem C6_one_terminal_error (config : ApiConfig) (model : jsstring)
    (messages : list ChatMessage) (w : World) :
  let out := ApiService.generateStream config model messages w in
  let request := ApiService.completion_request config model messages (Some true) in
  let shown m := match m with [] => js "Stream error" | _ :: _ => m end in
  let status_text r := js "HTTP Error " ++ decimal (status r) in
  (exists data,
      Forall (fun c => ApiService.chunk_error c = None) data
      /\ (out = data \/ exists m, out = data ++ [error_only m]))
  /\ (forall r,
         w request = Resolved r -> ok r = false ->
         (exists c s, out = [error_only (c :: s)])
         /\ (forall body c s,
                response_json r = Normal body ->
                error_message body = Some (JStr (c :: s)) ->
                out = [error_only (c :: s)])
         /\ (forall body x m,
                response_json r = Normal body ->
                error_message body = Some x -> truthy (Some x) = true ->
                ToString x = Normal m ->
                out = [error_only (shown m)])
         /\ (forall body,
                response_json r = Normal body ->
                truthy (error_message body) = false ->
                out = [error_only (status_text r)])
         /\ (forall e, response_json r = Throw e ->
                       out = [error_only (status_text r)]))
  /\ (forall m,
         w request = FetchRejected m -> out = [error_only (shown m)])
  /\ (forall r pieces m rest,
         w request = Resolved r -> ok r = true ->
         response_body r = Some (map Value pieces ++ ReadRejected m :: rest) ->
         exists data,
           Forall (fun c => ApiService.chunk_error c = None) data
           /\ data = flat_map ApiService.process_line
                       (removelast (split (concat pieces) [NEWLINE]))
           /\ out = data ++ [error_only (shown m)]).
Proof.
  intros out request shown status_text. subst out request shown status_text.
  unfold ApiService.generateStream.
  split; [|split; [|split]].
  - destruct (w _) as [m|r].
    + exists []. split; [constructor|right]. now eexists.
    + destruct (ok r).
      * destruct (response_body r) as [events|].
        -- apply read_loop_shape.
        -- exists []. split; [constructor|right]. now eexists.
      * exists []. split; [constructor|right]. now eexists.
  - intros r -> Hok. rewrite Hok. cbn [negb].
    assert (Hfallback : truthy (ApiService.nested_message r) = false ->
                        [ApiService.error_chunk (ApiService.http_error r)]
                        = [error_only (js "HTTP Error " ++ decimal (status r))]).
    { intros H. now rewrite http_error_fallback. }
    split; [|split; [|split; [|split]]].
    + unfold ApiService.error_chunk.
      destruct (message_of (ApiService.http_error r)) as [|c s].
      * now exists 83%N, (js "tream error").
      * now exists c, s.
    + intros body c s Hbody Hmsg. unfold ApiService.http_error, or_else.
      rewrite (nested_message_decoded r body Hbody), Hmsg. reflexivity.
    + intros body x m Hbody Hmsg Htruthy Hstring.
      unfold ApiService.http_error, or_else.
      rewrite (nested_message_decoded r body Hbody), Hmsg, Htruthy.
      unfold new_Error. rewrite Hstring. reflexivity.
    + intros body Hbody Hfalsy. apply Hfallback.
      now rewrite (nested_message_decoded r body Hbody).
    + intros e He. apply Hfallback.
      now rewrite (nested_message_undecodable r e).
  - intros m ->. reflexivity.
  - intros r pieces m rest -> Hok Hbody. rewrite Hok, Hbody. cbn [negb].
    rewrite read_loop_rejected, (read_loop_pieces pieces []).
    eexists. split; [|split; [reflexivity|reflexivity]].
    apply Forall_forall. intros c Hc. apply in_flat_map in Hc as (l & _ & Hc).
    now apply process_line_no_error in Hc.
Qed.

End StreamErrors.

(* ================================================================== *)
(** * Array.prototype.sort on strings *)
(* ================================================================== *)

Lemma str_ltb_asym (a : jsstring) :
  forall b, str_ltb a b = true -> str_ltb b a = false.
Proof.
  induction a as [|x a IH]; intros [|y b] H; simpl in *; try congruence.
  apply orb_true_iff in H as [H|H].
  - apply N.ltb_lt in H.
    destruct (N.ltb_spec y x); [lia|]. destruct (N.eqb_spec y x); [lia|].
    reflexivity.
  - apply andb_true_iff in H as [Hxy H]. apply N.eqb_eq in Hxy. subst y.
    rewrite N.ltb_irrefl, N.eqb_refl. simpl. now apply IH.
Qed.

Lemma insert_by_key_perm (x : jsstring * json) (l : list (jsstring * json)) :
  Permutation (x :: l) (insert_by_key x l).
Proof.
  induction l as [|y l IH]; simpl; [reflexivity|].
  destruct (str_ltb (fst y) (fst x)); [|reflexivity].
  rewrite perm_swap. now constructor.
Qed.

Lemma sort_by_key_perm (l : list (jsstring * json)) :
  Permutation l (sort_by_key l).
Proof.
  induction l as [|x l IH]; simpl; [constructor|].
  rewrite <- insert_by_key_perm. now constructor.
Qed.

Lemma insert_by_key_hd (a : jsstring) (x : jsstring * json)
    (l : list (jsstring * json)) :
  HdRel str_le a (map fst l) -> str_le a (fst x) ->
  HdRel str_le a (map fst (insert_by_key x l)).
Proof.
  intros Hl Hx. destruct l as [|y l]; simpl; [now constructor|].
  destruct (str_ltb (fst y) (fst x)); constructor; [|assumption].
  now inversion Hl.
Qed.

Lemma insert_by_key_sorted (x : jsstring * json) (l : list (jsstring * json)) :
  Sorted str_le (map fst l) -> Sorted str_le (map fst (insert_by_key x l)).
Proof.
  induction l as [|y l IH]; simpl; intros H.
  - repeat constructor.
  - inversion H as [|? ? Hs Hh]; subst.
    destruct (str_ltb (fst y) (fst x)) eqn:Hyx; simpl.
    + constructor; [now apply IH|].
      apply insert_by_key_hd; [assumption|].
      unfold str_le. now apply str_ltb_asym.
    + constructor; [assumption|]. now constructor.
Qed.

Lemma sort_by_key_sorted (l : list (jsstring * json)) :
  Sorted str_le (map fst (sort_by_key l)).
Proof.
  induction l as [|x l IH]; simpl; [constructor|].
  now apply insert_by_key_sorted.
Qed.

Section Models.
Context {E : Engine}.

Lemma sequence_ToString_strings (ids : list jsstring) :
  sequence (map ToString (map JStr ids)) = Normal ids.
Proof. induction ids as [|s ids IH]; simpl; [reflexivity|]. now rewrite IH. Qed.

Lemma combine_strings (ids : list jsstring) :
  combine ids (map JStr ids) = map (fun s => (s, JStr s)) ids.
Proof. induction ids as [|s ids IH]; simpl; congruence. Qed.

Lemma defined_items_strings (ids : list jsstring) :
  defined_items (map model_value ids) = map JStr ids.
Proof. induction ids as [|s ids IH]; simpl; congruence. Qed.

(** [sort] on an array of strings: it succeeds, and the result is the
    array in lexicographic order. *)
Lemma sort_strings (ids : list jsstring) :
  exists sorted,
    sort (map model_value ids) = Normal (map model_value sorted)
    /\ Permutation ids sorted /\ Sorted str_le sorted.
Proof.
  unfold sort. rewrite defined_items_strings, !length_map, Nat.sub_diag.
  cbn [repeat]. destruct ids as [|a [|b ids]].
  - exists []. repeat split; constructor.
  - exists [a]. repeat split; repeat constructor.
  - set (l := a :: b :: ids). change (map JStr l) with (JStr a :: JStr b :: map JStr ids).
    cbv iota. change (JStr a :: JStr b :: map JStr ids) with (map JStr l).
    rewrite sequence_ToString_strings. cbn [bind]. rewrite combine_strings.
    set (pairs := map (fun s => (s, JStr s)) l).
    exists (map fst (sort_by_key pairs)). split; [|split].
    + rewrite app_nil_r. f_equal. rewrite map_map.
      apply map_ext_in. intros p Hp.
      apply (Permutation_in _ (Permutation_sym (sort_by_key_perm pairs))) in Hp.
      apply in_map_iff in Hp as (s & <- & _). reflexivity.
    + replace l with (map fst pairs)
        by (unfold pairs; rewrite map_map; apply map_id).
      apply Permutation_map, sort_by_key_perm.
    + apply sort_by_key_sorted.
Qed.

Lemma map_field_identifiers (items : list json) (field : jsstring)
    (ids : list jsstring) :
  identifiers items field = Some ids ->
  ApiService.map_field items field = Normal (map model_value ids).
Proof.
  unfold ApiService.map_field.
  set (f := fun m : json => read (Some m) field). revert ids.
  induction items as [|m items IH]; intros ids H; simpl in H.
  - now inversion H.
  - destruct m as [| | | | |ms]; try discriminate.
    destruct (lookup_last field ms) as [[| | |s| |]|] eqn:Hs; try discriminate.
    destruct (identifiers items field) as [l|]; [|discriminate].
    inversion H; subst. cbn [map sequence]. rewrite (IH l eq_refl).
    unfold f. cbn [read get_named bind]. now rewrite Hs.
Qed.

(** A failure never carries a list, and a success never an error. *)
Lemma fetchModels_result_shape (config : ApiConfig) (w : World) :
  let result := fst (ApiService.fetchModels config w) in
  (ApiService.success result = false ->
   ApiService.result_models result = None)
  /\ (ApiService.success result = true ->
      ApiService.result_error result = None).
Proof.
  unfold ApiService.fetchModels. cbn [fst].
  destruct (ApiService.fetchModels_try _) as [result|e] eqn:Htry.
  - unfold ApiService.fetchModels_try in Htry.
    destruct (w _) as [m|r]; [discriminate|].
    destruct (negb (ok r)); [discriminate|].
    destruct (response_json r) as [data|]; [|discriminate]. cbn [bind] in Htry.
    destruct (read (Some data) (js "data")) as [dd|]; [|discriminate].
    cbn [bind] in Htry.
    match type of Htry with
    | (x <- ?c ;; _) = _ => destruct c as [extracted|]; [|discriminate]
    end.
    cbn [bind] in Htry. destruct (sort extracted); [|discriminate].
    inversion Htry; subst. cbn. split; [discriminate|reflexivity].
  - cbn. split; [reflexivity|discriminate].
Qed.

End Models.

(* ================================================================== *)
(** * Claims about the model directory and the connectivity probe *)
(* ================================================================== *)

(** C8, as stated, fails: an array is accepted whatever its items are; a
    listing whose items have no [id] is answered with success and a list
    of [undefined], not with a failure. *)
Lemma C8_unshaped_items_are_accepted :
  identifiers [JObj [(js "foo",
                      JNum {| negative := false; mantissa := 1; exponent10 := 0 |})]]
    (js "id") = None
  /\ fst (ApiService.fetchModels (E := sample_engine) sample_config
            (answering 200 (jq "{'data':[{'foo':1}]}")))
     = {| ApiService.success := true;
          ApiService.result_models := Some [None];
          ApiService.result_error := None |}.
Proof. split; reflexivity. Qed.

Section ModelsClaims.
Context {E : Engine}.

(** The outcome of [fetchModels] on a decoded body whose listing is an
    array of objects with string identifiers. *)
Lemma fetchModels_listing (extracted : completion (list value))
    (ids : list jsstring) :
  extracted = Normal (map model_value ids) ->
  exists sorted,
    (x <- extracted ;;
     s <- sort x ;;
     Normal {| ApiService.success := true;
               ApiService.result_models := Some s;
               ApiService.result_error := None |})
    = Normal {| ApiService.success := true;
                ApiService.result_models := Some (map model_value sorted);
                ApiService.result_error := None |}
    /\ Permutation ids sorted /\ Sorted str_le sorted.
Proof.
  intros ->. destruct (sort_strings ids) as (sorted & Hsort & Hperm & Hsorted).
  exists sorted. cbn [bind]. rewrite Hsort. now repeat split.
Qed.

(** C8 (amended): when the decoded body has a [data] field that is an
    array of objects with a string [id], or else a [models] field that is
    an array of objects with a string [name], [fetchModels] succeeds and
    returns exactly these identifiers in lexicographic order; when neither
    field is an array it fails (with "Unrecognized response format" unless
    the body is null), which differs from the success with an empty list;
    and a failure never carries a list. *)
Theorem C8_models_listing (config : ApiConfig) (w : World) (r : Response)
    (body : json) :
  w (ApiService.models_request config) = Resolved r ->
  ok r = true ->
  response_json r = Normal body ->
  let result := fst (ApiService.fetchModels config w) in
  (forall items ids,
      isArray (get_named body (js "data")) = Some items ->
      identifiers items (js "id") = Some ids ->
      exists sorted,
        result = {| ApiService.success := true;
                    ApiService.result_models := Some (map model_value sorted);
                    ApiService.result_error := None |}
        /\ Permutation ids sorted /\ Sorted str_le sorted)
  /\ (forall items ids,
         isArray (get_named body (js "data")) = None ->
         isArray (get_named body (js "models")) = Some items ->
         identifiers items (js "name") = Some ids ->
         exists sorted,
           result = {| ApiService.success := true;
                       ApiService.result_models := Some (map model_value sorted);
                       ApiService.result_error := None |}
           /\ Permutation ids sorted /\ Sorted str_le sorted)
  /\ (isArray (get_named body (js "data")) = None ->
      isArray (get_named body (js "models")) = None ->
      ApiService.success result = false
      /\ ApiService.result_models result = None
      /\ (body <> JNull ->
          ApiService.result_error result
          = Some (js "Unrecognized response format")))
  /\ (forall w',
         ApiService.success (fst (ApiService.fetchModels config w')) = false ->
         ApiService.result_models (fst (ApiService.fetchModels config w')) = None).
Proof.
  intros Hw Hok Hjson result. subst result.
  unfold ApiService.fetchModels. cbn [fst].
  unfold ApiService.fetchModels_try. rewrite Hw, Hok, Hjson. cbn [negb bind].
  split; [|split; [|split]].
  - intros items ids Hdata Hids.
    destruct body; try discriminate. cbn [read bind]. rewrite Hdata.
    destruct (fetchModels_listing _ ids (map_field_identifiers _ _ _ Hids))
      as (sorted & Heq & Hperm & Hsorted).
    exists sorted. rewrite Heq. now repeat split.
  - intros items ids Hdata Hmodels Hids.
    destruct body; try discriminate. cbn [read bind].
    rewrite Hdata, Hmodels.
    destruct (fetchModels_listing _ ids (map_field_identifiers _ _ _ Hids))
      as (sorted & Heq & Hperm & Hsorted).
    exists sorted. rewrite Heq. now repeat split.
  - intros Hdata Hmodels.
    destruct body; cbn [read bind]; try rewrite Hdata; cbn [read bind];
      try rewrite Hmodels; cbn [bind];
      (split; [reflexivity|split; [reflexivity|]]);
      intros Hnull; try reflexivity; congruence.
  - intros w'. apply (fetchModels_result_shape config w').
Qed.

(** [generate] reports an error exactly when its [try] block threw, and
    the message it reports is never empty. *)
Lemma generate_try_no_error (outcome : FetchOutcome)
    (result : ApiService.CompletionResponse) :
  ApiService.generate_try outcome = Normal result ->
  ApiService.error result = None.
Proof.
  unfold ApiService.generate_try. destruct outcome as [m|response]; [discriminate|].
  destruct (negb (ok response)); [discriminate|].
  destruct (response_json response) as [data|]; [|discriminate]. cbn [bind].
  destruct (read (Some data) (js "choices")) as [choices|]; [|discriminate].
  cbn [bind].
  destruct (read (Some data) (js "usage")) as [usage_|]; [|discriminate].
  cbn [bind]. intros [= <-]. reflexivity.
Qed.

Lemma generate_error_truthy (config : ApiConfig) (model : jsstring)
    (messages : list ChatMessage) (w : World) :
  ApiService.error (fst (ApiService.generate config model messages w))
  <> Some [].
Proof.
  unfold ApiService.generate. cbn [fst].
  destruct (ApiService.generate_try _) as [result|e] eqn:Htry.
  - now rewrite (generate_try_no_error _ _ Htry).
  - cbn. now destruct (message_of e).
Qed.

(** [generate] returns no error exactly when [fetch] answered with a
    success whose body decodes to a value other than [null]. *)
Lemma generate_try_succeeds (outcome : FetchOutcome) :
  (exists result, ApiService.generate_try outcome = Normal result)
  <-> (exists r data, outcome = Resolved r /\ ok r = true
                      /\ response_json r = Normal data /\ data <> JNull).
Proof.
  unfold ApiService.generate_try. split.
  - intros [result H]. destruct outcome as [m|r]; [discriminate|].
    destruct (ok r) eqn:Hok; [|discriminate]. cbn [negb] in H.
    destruct (response_json r) as [data|] eqn:Hj; [|discriminate].
    exists r, data. repeat split; auto. intros ->. discriminate.
  - intros (r & data & -> & Hok & Hj & Hnull). rewrite Hok, Hj. cbn [negb bind].
    destruct data; try congruence; eexists; reflexivity.
Qed.

Lemma completions_url_suffix (config : ApiConfig) :
  endsWith (ApiService.completions_url config) (js "/chat/completions") = true.
Proof.
  unfold ApiService.completions_url.
  destruct (endsWith (ApiService.strip_slash (baseUrl config)) _) eqn:He;
    cbn [negb]; [exact He|].
  unfold endsWith. rewrite rev_app_distr. apply startsWith_app.
Qed.

(** C9: with no model configured the probe fails at once with a message
    and issues no request. Otherwise it issues exactly one request: a
    POST to an address that ends with the completions path, whose body
    names the first configured model, holds the single user message "Hi"
    and the temperature 0.7, and has no [stream] key; that request is
    the one [generate] issues for the first model, and the probe reports
    success exactly when that call returned no error, which is exactly
    when the request was answered by a success whose body decodes to a
    value other than [null]. *)
Theorem C9_probe (config : ApiConfig) (w : World) :
  match models config with
  | [] =>
      ApiService.testConnection config w
      = ({| ApiService.connected := false;
            ApiService.message := js "No models configured" |}, [])
  | first :: _ =>
      let hi := [{| role := user; msg_content := js "Hi" |}] in
      exists request,
        snd (ApiService.testConnection config w) = [request]
        /\ method request = js "POST"
        /\ endsWith (url request) (js "/chat/completions") = true
        /\ body request = Some {| body_model := first;
                                  body_messages := hi;
                                  body_temperature := seven_tenths;
                                  body_stream := None |}
        /\ snd (ApiService.testConnection config w)
           = snd (ApiService.generate config first hi w)
        /\ (ApiService.connected (fst (ApiService.testConnection config w)) = true
            <-> ApiService.error (fst (ApiService.generate config first hi w))
                = None)
        /\ (ApiService.connected (fst (ApiService.testConnection config w)) = true
            <-> exists r data,
                  w request = Resolved r /\ ok r = true
                  /\ response_json r = Normal data /\ data <> JNull)
  end.
Proof.
  unfold ApiService.testConnection.
  destruct (models config) as [|first rest]; [reflexivity|].
  cbv zeta.
  pose proof (generate_error_truthy config first
                [{| role := user; msg_content := js "Hi" |}] w) as Hne.
  pose proof (generate_try_succeeds
                (w (ApiService.completion_request config first
                      [{| role := user; msg_content := js "Hi" |}] None)))
    as Hok.
  exists (ApiService.completion_request config first
            [{| role := user; msg_content := js "Hi" |}] None).
  unfold ApiService.generate in *. cbn [fst snd] in *.
  split; [reflexivity|]. split; [reflexivity|].
  split; [apply completions_url_suffix|].
  split; [reflexivity|]. split; [reflexivity|].
  match goal with
  | |- (?A <-> ?B) /\ _ => assert (Hconn : A <-> B)
  end.
  { destruct (ApiService.error _) as [[|c m]|]; cbn; split;
      intros H; try reflexivity; try discriminate. now elim Hne. }
  split; [exact Hconn|].
  rewrite Hconn, <- Hok.
  destruct (ApiService.generate_try _) as [result|e] eqn:Htry.
  - rewrite (generate_try_no_error _ _ Htry). split; [intros _; now eexists|reflexivity].
  - cbn. split; [discriminate|]. intros [result H]. discriminate.
Qed.

End ModelsClaims.

Lemma C8_models_listing_witness :
  exists sorted,
    fst (ApiService.fetchModels (E := sample_engine) sample_config
           (answering 200 (jq "{'data':[{'id':'gpt-4o-mini'},{'id':'gpt-4o'}]}")))
    = {| ApiService.success := true;
         ApiService.result_models := Some (map model_value sorted);
         ApiService.result_error := None |}
    /\ Permutation [js "gpt-4o-mini"; js "gpt-4o"] sorted
    /\ Sorted str_le sorted.
Proof.
  refine (proj1 (C8_models_listing (E := sample_engine) sample_config
                   (answering 200 (jq "{'data':[{'id':'gpt-4o-mini'},{'id':'gpt-4o'}]}"))
                   {| status := 200;
                      response_body :=
                        Some [Value (jq "{'data':[{'id':'gpt-4o-mini'},{'id':'gpt-4o'}]}")] |}
                   (JObj [(js "data",
                           JArr [JObj [(js "id", JStr (js "gpt-4o-mini"))];
                                 JObj [(js "id", JStr (js "gpt-4o"))]])])
                   _ _ _)
                _ _ _ _);
    reflexivity.
Defined.

(* ================================================================== *)
(** * JSON.parse ends by itself *)
(* ================================================================== *)

Lemma skip_ws_length (s : jsstring) :
  length (JSON.skip_ws s) <= length s.
Proof.
  induction s as [|c s IH]; simpl; [lia|].
  destruct (JSON.is_ws c); simpl; lia.
Qed.

Lemma skip_ws_cons_length (s r : jsstring) (c : char) :
  JSON.skip_ws s = c :: r -> length r < length s.
Proof.
  intros H. pose proof (skip_ws_length s) as Hl. rewrite H in Hl. simpl in Hl. lia.
Qed.

Lemma cons_fst_some {A B : Type} (a : A) (x : option (list A * B))
    (l : list A) (b : B) :
  JSON.cons_fst a x = Some (l, b) -> exists l', x = Some (l', b).
Proof.
  destruct x as [[l' b']|]; simpl; [|discriminate].
  intros [= <- <-]. now exists l'.
Qed.

Lemma string_body_length (n : nat) :
  forall s x r, length s <= n ->
    JSON.string_body s = Some (x, r) -> length r < length s.
Proof.
  induction n as [|n IH]; intros [|c s] x r Hn H; simpl in *;
    try discriminate; try lia.
  destruct (c =? 34)%N.
  - inversion H; subst. lia.
  - destruct (c =? 92)%N.
    + destruct s as [|e s]; [discriminate|].
      destruct (e =? 117)%N.
      * destruct s as [|h1 [|h2 [|h3 [|h4 s]]]]; try discriminate.
        destruct (JSON.hex4 h1 h2 h3 h4); [|discriminate].
        apply cons_fst_some in H as [l' H].
        apply IH in H; simpl in *; lia.
      * destruct (JSON.unescape e); [|discriminate].
        apply cons_fst_some in H as [l' H].
        apply IH in H; simpl in *; lia.
    + destruct (c <? 32)%N; [discriminate|].
      apply cons_fst_some in H as [l' H].
      apply IH in H; simpl in *; lia.
Qed.

Lemma digits_length (s : jsstring) :
  length (snd (JSON.digits s)) <= length s.
Proof.
  induction s as [|c s IH]; simpl; [lia|].
  destruct (JSON.is_digit c); simpl; [|lia].
  destruct (JSON.digits s). simpl in *. lia.
Qed.

Lemma number_literal_length (s : jsstring) (n : number) (r : jsstring) :
  JSON.number_literal s = Some (n, r) -> length r <= length s.
Proof.
  unfold JSON.number_literal.
  set (start := match s with
                | [] => (false, s)
                | c :: r0 => if (c =? 45)%N then (true, r0) else (false, s)
                end).
  assert (Hstart : length (snd start) <= length s).
  { subst start. destruct s as [|c s]; simpl; [lia|].
    destruct (c =? 45)%N; simpl; lia. }
  destruct start as [neg s1]. simpl in Hstart.
  destruct (JSON.int_part s1) as [[ip s2]|] eqn:Hint; [|discriminate].
  destruct (JSON.frac_part s2) as [[fp s3]|] eqn:Hfrac; [|discriminate].
  destruct (JSON.exp_part s3) as [[ex s4]|] eqn:Hexp; [|discriminate].
  intros [= _ <-].
  assert (length s2 <= length s1).
  { unfold JSON.int_part in Hint. destruct s1 as [|c s1]; [discriminate|].
    destruct (c =? 48)%N; [inversion Hint; subst; simpl; lia|].
    pose proof (digits_length (c :: s1)) as Hd.
    destruct (JSON.digits (c :: s1)) as [[|d ds] rest]; [discriminate|].
    inversion Hint; subst. exact Hd. }
  assert (length s3 <= length s2).
  { unfold JSON.frac_part in Hfrac. destruct s2 as [|c s2].
    - inversion Hfrac; subst. simpl; lia.
    - destruct (c =? 46)%N; [|inversion Hfrac; subst; lia].
      pose proof (digits_length s2) as Hd.
      destruct (JSON.digits s2) as [[|d ds] rest]; [discriminate|].
      inversion Hfrac; subst. simpl in *. lia. }
  assert (length s4 <= length s3).
  { unfold JSON.exp_part in Hexp. destruct s3 as [|c s3].
    - inversion Hexp; subst. simpl; lia.
    - destruct ((c =? 101) || (c =? 69))%N; [|inversion Hexp; subst; lia].
      set (signed := match s3 with
                     | [] => (1%Z, s3)
                     | d :: r0 =>
                         if (d =? 45)%N then ((-1)%Z, r0)
                         else if (d =? 43)%N then (1%Z, r0) else (1%Z, s3)
                     end) in Hexp.
      assert (Hsigned : length (snd signed) <= length s3).
      { subst signed. destruct s3 as [|d s3]; simpl; [lia|].
        destruct (d =? 45)%N; simpl; [lia|]. destruct (d =? 43)%N; simpl; lia. }
      destruct signed as [sign s5]. simpl in Hsigned.
      pose proof (digits_length s5) as Hd.
      destruct (JSON.digits s5) as [[|d ds] rest]; [discriminate|].
      inversion Hexp; subst. simpl in *. lia. }
  lia.
Qed.

Lemma value_step_shrinking (elements : JSON.elements_parser)
    (members : JSON.members_parser) :
  shrinking elements -> shrinking members ->
  shrinking (JSON.value_step elements members).
Proof.
  intros He Hm s v r H. unfold JSON.value_step in H.
  pose proof (skip_ws_length s) as Hs.
  destruct (JSON.skip_ws s) as [|c t]; [discriminate|]. simpl in Hs.
  destruct (c =? 34)%N.
  { destruct (JSON.string_body t) as [[str rest]|] eqn:Hb; [|discriminate].
    apply (string_body_length _ _ _ _ (le_n _)) in Hb.
    inversion H; subst. lia. }
  destruct (c =? 123)%N.
  { pose proof (skip_ws_length t) as Ht.
    destruct (JSON.skip_ws t) as [|d t']; [discriminate|]. simpl in Ht.
    destruct (d =? 125)%N; [inversion H; subst; lia|].
    destruct (members (d :: t')) as [[ms rest]|] eqn:Hms; [|discriminate].
    apply Hm in Hms. inversion H; subst. simpl in Hms. lia. }
  destruct (c =? 91)%N.
  { pose proof (skip_ws_length t) as Ht.
    destruct (JSON.skip_ws t) as [|d t']; [discriminate|]. simpl in Ht.
    destruct (d =? 93)%N; [inversion H; subst; lia|].
    destruct (elements (d :: t')) as [[vs rest]|] eqn:Hvs; [|discriminate].
    apply He in Hvs. inversion H; subst. simpl in Hvs. lia. }
  assert (Hk : forall k, length (skipn k (c :: t)) <= length s)
    by (intros k; rewrite length_skipn; cbn [length]; lia).
  destruct (startsWith (c :: t) (js "true")).
  { inversion H; subst. exact (Hk 4). }
  destruct (startsWith (c :: t) (js "false")).
  { inversion H; subst. exact (Hk 5). }
  destruct (startsWith (c :: t) (js "null")).
  { inversion H; subst. exact (Hk 4). }
  destruct (JSON.number_literal (c :: t)) as [[n rest]|] eqn:Hn; [|discriminate].
  apply number_literal_length in Hn. inversion H; subst. simpl in Hn. lia.
Qed.

Lemma elements_step_shrinking (value : JSON.value_parser)
    (elements : JSON.elements_parser) :
  shrinking value -> shrinking elements ->
  shrinking (JSON.elements_step value elements).
Proof.
  intros Hv He s vs r H. unfold JSON.elements_step in H.
  destruct (value s) as [[v t]|] eqn:Hval; [|discriminate]. apply Hv in Hval.
  pose proof (skip_ws_length t) as Ht.
  destruct (JSON.skip_ws t) as [|c t']; [discriminate|]. simpl in Ht.
  destruct (c =? 44)%N.
  - apply cons_fst_some in H as [l' H]. apply He in H. lia.
  - destruct (c =? 93)%N; [|discriminate]. inversion H; subst. lia.
Qed.

Lemma members_step_shrinking (value : JSON.value_parser)
    (members : JSON.members_parser) :
  shrinking value -> shrinking members ->
  shrinking (JSON.members_step value members).
Proof.
  intros Hv Hm s ms r H. unfold JSON.members_step in H.
  pose proof (skip_ws_length s) as Hs.
  destruct (JSON.skip_ws s) as [|q t0]; [discriminate|]. simpl in Hs.
  destruct (q =? 34)%N; [|discriminate].
  destruct (JSON.string_body t0) as [[key t1]|] eqn:Hb; [|discriminate].
  apply (string_body_length _ _ _ _ (le_n _)) in Hb.
  pose proof (skip_ws_length t1) as Ht1.
  destruct (JSON.skip_ws t1) as [|colon t2]; [discriminate|]. simpl in Ht1.
  destruct (colon =? 58)%N; [|discriminate].
  destruct (value t2) as [[v t3]|] eqn:Hval; [|discriminate]. apply Hv in Hval.
  pose proof (skip_ws_length t3) as Ht3.
  destruct (JSON.skip_ws t3) as [|c t4]; [discriminate|]. simpl in Ht3.
  destruct (c =? 44)%N.
  - apply cons_fst_some in H as [l' H]. apply Hm in H. lia.
  - destruct (c =? 125)%N; [|discriminate]. inversion H; subst. lia.
Qed.

Lemma parse_shrinking (fuel : nat) :
  shrinking (JSON.parse_value fuel)
  /\ shrinking (JSON.parse_elements fuel)
  /\ shrinking (JSON.parse_members fuel).
Proof.
  induction fuel as [|fuel (Hv & He & Hm)].
  - repeat split; intros s a r H; discriminate.
  - split; [|split]; simpl.
    + now apply value_step_shrinking.
    + now apply elements_step_shrinking.
    + now apply members_step_shrinking.
Qed.

(** Each production only calls its sub-parsers on shorter input. *)
Lemma value_step_ext (e1 e2 : JSON.elements_parser)
    (m1 m2 : JSON.members_parser) (s : jsstring) :
  (forall x, length x < length s -> e1 x = e2 x) ->
  (forall x, length x < length s -> m1 x = m2 x) ->
  JSON.value_step e1 m1 s = JSON.value_step e2 m2 s.
Proof.
  intros He Hm. unfold JSON.value_step.
  pose proof (skip_ws_length s) as Hs.
  destruct (JSON.skip_ws s) as [|c t]; [reflexivity|]. simpl in Hs.
  destruct (c =? 34)%N; [reflexivity|].
  pose proof (skip_ws_length t) as Ht.
  destruct (JSON.skip_ws t) as [|d t']; [reflexivity|]. simpl in Ht.
  rewrite He, Hm by (simpl; lia). reflexivity.
Qed.

Lemma elements_step_ext (v1 v2 : JSON.value_parser)
    (e1 e2 : JSON.elements_parser) (s : jsstring) :
  v1 s = v2 s -> shrinking v1 ->
  (forall x, length x < length s -> e1 x = e2 x) ->
  JSON.elements_step v1 e1 s = JSON.elements_step v2 e2 s.
Proof.
  intros Hv Hshrink He. unfold JSON.elements_step. rewrite <- Hv.
  destruct (v1 s) as [[v t]|] eqn:Hval; [|reflexivity]. apply Hshrink in Hval.
  pose proof (skip_ws_length t) as Ht.
  destruct (JSON.skip_ws t) as [|c t']; [reflexivity|]. simpl in Ht.
  rewrite He by lia. reflexivity.
Qed.

Lemma members_step_ext (v1 v2 : JSON.value_parser)
    (m1 m2 : JSON.members_parser) (s : jsstring) :
  (forall x, length x < length s -> v1 x = v2 x) -> shrinking v1 ->
  (forall x, length x < length s -> m1 x = m2 x) ->
  JSON.members_step v1 m1 s = JSON.members_step v2 m2 s.
Proof.
  intros Hv Hshrink Hm. unfold JSON.members_step.
  pose proof (skip_ws_length s) as Hs.
  destruct (JSON.skip_ws s) as [|q t0]; [reflexivity|]. simpl in Hs.
  destruct (q =? 34)%N; [|reflexivity].
  destruct (JSON.string_body t0) as [[key t1]|] eqn:Hb; [|reflexivity].
  apply (string_body_length _ _ _ _ (le_n _)) in Hb.
  pose proof (skip_ws_length t1) as Ht1.
  destruct (JSON.skip_ws t1) as [|colon t2]; [reflexivity|]. simpl in Ht1.
  destruct (colon =? 58)%N; [|reflexivity].
  rewrite <- Hv by lia.
  destruct (v1 t2) as [[v t3]|] eqn:Hval; [|reflexivity]. apply Hshrink in Hval.
  pose proof (skip_ws_length t3) as Ht3.
  destruct (JSON.skip_ws t3) as [|c t4]; [reflexivity|]. simpl in Ht3.
  rewrite Hm by lia. reflexivity.
Qed.

(** One more unit of fuel changes nothing once the fuel exceeds twice the
    length of the input. *)
Lemma parse_fuel_step (fuel : nat) :
  (forall s, 2 * length s + 1 <= fuel ->
             JSON.parse_value (S fuel) s = JSON.parse_value fuel s)
  /\ (forall s, 2 * length s + 2 <= fuel ->
                JSON.parse_elements (S fuel) s = JSON.parse_elements fuel s)
  /\ (forall s, 2 * length s + 2 <= fuel ->
                JSON.parse_members (S fuel) s = JSON.parse_members fuel s).
Proof.
  induction fuel as [|fuel (IHv & IHe & IHm)].
  - repeat split; intros s H; lia.
  - destruct (parse_shrinking (S fuel)) as (Hv & _ & _).
    split; [|split]; intros s H;
      change (JSON.parse_value (S (S fuel)))
        with (JSON.value_step (JSON.parse_elements (S fuel))
                (JSON.parse_members (S fuel)));
      change (JSON.parse_value (S fuel))
        with (JSON.value_step (JSON.parse_elements fuel)
                (JSON.parse_members fuel));
      change (JSON.parse_elements (S (S fuel)))
        with (JSON.elements_step (JSON.parse_value (S fuel))
                (JSON.parse_elements (S fuel)));
      change (JSON.parse_elements (S fuel))
        with (JSON.elements_step (JSON.parse_value fuel)
                (JSON.parse_elements fuel));
      change (JSON.parse_members (S (S fuel)))
        with (JSON.members_step (JSON.parse_value (S fuel))
                (JSON.parse_members (S fuel)));
      change (JSON.parse_members (S fuel))
        with (JSON.members_step (JSON.parse_value fuel)
                (JSON.parse_members fuel)).
    + apply value_step_ext; intros x Hx; [apply IHe|apply IHm]; lia.
    + apply elements_step_ext; [apply IHv; lia|exact Hv|].
      intros x Hx. apply IHe. lia.
    + apply members_step_ext; [|exact Hv|].
      * intros x Hx. apply IHv. lia.
      * intros x Hx. apply IHm. lia.
Qed.

(** [JSON.parse] does not depend on its bound: any fuel from twice the
    length of the text (and two) on gives the same result. *)
Lemma parse_fuel (text : jsstring) (extra : nat) :
  JSON.parse_value (2 * length text + 2 + extra) text
  = JSON.parse_value (2 * length text + 2) text.
Proof.
  induction extra as [|extra IH]; [now rewrite Nat.add_0_r|].
  rewrite Nat.add_succ_r.
  destruct (parse_fuel_step (2 * length text + 2 + extra)) as (Hv & _ & _).
  rewrite Hv by lia. exact IH.
Qed.

(* ================================================================== *)
(** * More about TokenService *)
(* ================================================================== *)

(** X1: [estimate] is the ceiling of a quarter of the length: the least
    number of four-character tokens that cover the text; it is 0 only for
    the empty text. *)
Theorem estimate_is_ceiling (text : jsstring) :
  (N.of_nat (length text) <= 4 * TokenService.estimate text)%N
  /\ (4 * TokenService.estimate text < N.of_nat (length text) + 4)%N
  /\ (TokenService.estimate text = 0%N <-> text = []).
Proof.
  unfold TokenService.estimate. destruct text as [|c text].
  - simpl. repeat split; lia.
  - cbv iota. set (n := N.of_nat (length (c :: text))).
    assert (Hn : (1 <= n)%N) by (subst n; cbn [length]; lia).
    clearbody n.
    pose proof (N.Div0.mul_div_le (n + 3) 4) as Hle.
    pose proof (N.mul_succ_div_gt (n + 3) 4 ltac:(lia)) as Hgt.
    generalize dependent ((n + 3) / 4)%N. intros q Hle Hgt.
    split; [lia|]. split; [lia|]. split; [intros H; exfalso; lia|discriminate].
Qed.

Lemma free_of_Forall (d : char) (s : jsstring) :
  free_of d s = true -> Forall (fun c => c <> d) s.
Proof.
  induction s as [|c s IH]; simpl; intros H; constructor;
    apply andb_true_iff in H as [Hc Hs].
  - now apply negb_true_iff, N.eqb_neq in Hc.
  - now apply IH.
Qed.

(** A text without an opening brace is returned unchanged, whatever
    the mapping; so its token estimate is the same raw and resolved. *)
Theorem resolveVariables_without_brace (text : jsstring)
    (V : TokenService.Variables) :
  free_of LBRACE text = true ->
  TokenService.resolveVariables text V = text
  /\ TokenService.estimate (TokenService.resolveVariables text V)
     = TokenService.estimate text.
Proof.
  intros H. apply free_of_Forall in H.
  assert (Heq : TokenService.resolveVariables text V = text).
  { induction V as [|[k v] V IH]; [reflexivity|].
    rewrite resolveVariables_cons. unfold TokenService.placeholder.
    rewrite <- (app_nil_r text) at 1.
    rewrite replace_all_skip by assumption.
    rewrite replace_all_nil, app_nil_r. exact IH. }
  now rewrite Heq.
Qed.

Lemma resolveVariables_without_brace_witness :
  TokenService.resolveVariables (js "Plain words, no braces")
    [(js "name", js "Bob")] = js "Plain words, no braces".
Proof.
  refine (proj1 (resolveVariables_without_brace _ _ _)). reflexivity.
Defined.

Lemma fill_unbound (V : TokenService.Variables) (toks : list token) :
  (forall n, In (Hole n) toks -> assoc n V = None) ->
  flat_map (fill V) toks = render toks.
Proof.
  induction toks as [|t toks IH]; intros H; simpl; [reflexivity|].
  rewrite IH by (intros n Hn; apply H; now right). f_equal.
  destruct t as [c|n]; simpl; [reflexivity|].
  now rewrite (H n (or_introl eq_refl)).
Qed.

(** X2: resolving is idempotent on templates with un-nested placeholders
    and brace-free keys and values: a second pass changes nothing. *)
Theorem resolveVariables_idempotent (T : jsstring) (toks : list token)
    (V : TokenService.Variables) :
  parse_template T = Some toks -> plain V = true ->
  TokenService.resolveVariables (TokenService.resolveVariables T V) V
  = TokenService.resolveVariables T V.
Proof.
  intros HT HV. destruct (parse_template_sound T toks HT) as [<- Hwf].
  rewrite (resolveVariables_render V toks HV Hwf), <- render_fill_token.
  rewrite resolveVariables_render by auto using wf_fill_token.
  apply fill_unbound. intros n. apply hole_fill_token.
Qed.

Lemma resolveVariables_idempotent_witness :
  TokenService.resolveVariables
    (TokenService.resolveVariables (js "{a} and {b}") [(js "a", js "x")])
    [(js "a", js "x")]
  = TokenService.resolveVariables (js "{a} and {b}") [(js "a", js "x")].
Proof.
  refine (resolveVariables_idempotent (js "{a} and {b}")
            (Hole (js "a") :: map Lit (js " and ") ++ [Hole (js "b")])
            [(js "a", js "x")] _ _); reflexivity.
Defined.

Lemma assoc_In (V : TokenService.Variables) (k v : jsstring) :
  NoDup (map fst V) -> (assoc k V = Some v <-> In (k, v) V).
Proof.
  induction V as [|[k' v'] V IH]; simpl; intros Hnd.
  - split; [discriminate|tauto].
  - inversion Hnd as [|? ? Hnotin Hnd']; subst.
    destruct (str_eqb k' k) eqn:Hk.
    + apply str_eqb_eq in Hk; subst k'. split.
      * intros [= ->]. now left.
      * intros [[= ->]|Hin]; [reflexivity|].
        exfalso. apply Hnotin. apply in_map_iff. now exists (k, v).
    + apply str_eqb_neq in Hk. rewrite (IH Hnd'). split; [tauto|].
      intros [[= -> ->]|Hin]; [congruence|assumption].
Qed.

Lemma assoc_perm (V V' : TokenService.Variables) (k : jsstring) :
  Permutation V V' -> NoDup (map fst V) -> assoc k V = assoc k V'.
Proof.
  intros Hperm Hnd.
  assert (Hnd' : NoDup (map fst V'))
    by (eapply Permutation_NoDup; [apply Permutation_map; eassumption|assumption]).
  destruct (assoc k V) as [v|] eqn:Hv.
  - symmetry. apply assoc_In; [assumption|].
    eapply Permutation_in; [eassumption|]. now apply assoc_In.
  - destruct (assoc k V') as [v'|] eqn:Hv'; [|reflexivity].
    apply assoc_In in Hv'; [|assumption].
    apply (Permutation_in _ (Permutation_sym Hperm)) in Hv'.
    apply assoc_In in Hv'; [congruence|assumption].
Qed.

Lemma plain_perm (V V' : TokenService.Variables) :
  Permutation V V' -> plain V = true -> plain V' = true.
Proof.
  unfold plain. intros Hperm H. rewrite forallb_forall in *.
  intros x Hx. apply H. eapply Permutation_in; [|eassumption].
  now apply Permutation_sym.
Qed.

(** X3: on templates with un-nested placeholders and brace-free, distinct
    keys and brace-free values, the order of the entries of the mapping
    does not matter. *)
Theorem resolveVariables_order (T : jsstring) (toks : list token)
    (V V' : TokenService.Variables) :
  parse_template T = Some toks -> plain V = true ->
  NoDup (map fst V) -> Permutation V V' ->
  TokenService.resolveVariables T V = TokenService.resolveVariables T V'.
Proof.
  intros HT HV Hnd Hperm. destruct (parse_template_sound T toks HT) as [<- Hwf].
  rewrite !resolveVariables_render by eauto using plain_perm.
  apply flat_map_ext. intros [c|n]; simpl; [reflexivity|].
  now rewrite (assoc_perm V V' n Hperm Hnd).
Qed.

Lemma resolveVariables_order_witness :
  TokenService.resolveVariables (js "{a}{b}") [(js "a", js "x"); (js "b", js "y")]
  = TokenService.resolveVariables (js "{a}{b}") [(js "b", js "y"); (js "a", js "x")].
Proof.
  refine (resolveVariables_order (js "{a}{b}") [Hole (js "a"); Hole (js "b")]
            _ _ _ _ _ _);
    [reflexivity | reflexivity | | apply perm_swap].
  repeat constructor; simpl; intuition discriminate.
Defined.

(* ================================================================== *)
(** * More about placeholder detection *)
(* ================================================================== *)

Lemma span_name_spec (s : jsstring) :
  s = fst (CreateView.span_name s) ++ snd (CreateView.span_name s)
  /\ free_of RBRACE (fst (CreateView.span_name s)) = true
  /\ (snd (CreateView.span_name s) = []
      \/ exists r, snd (CreateView.span_name s) = RBRACE :: r).
Proof.
  induction s as [|c s (IH1 & IH2 & IH3)]; simpl.
  - repeat split. now left.
  - destruct (N.eqb_spec c RBRACE) as [->|Hc]; simpl.
    + repeat split. right. now exists s.
    + destruct (CreateView.span_name s) as [run rest]; simpl in *.
      repeat split; try congruence; try assumption.
      apply N.eqb_neq in Hc. now rewrite Hc.
Qed.

Lemma match_at_spec (s name after : jsstring) :
  CreateView.match_at s = Some (name, after) ->
  s = TokenService.placeholder name ++ after
  /\ name <> [] /\ free_of RBRACE name = true.
Proof.
  destruct s as [|c s]; simpl; [discriminate|].
  destruct (N.eqb_spec c LBRACE) as [->|]; [|discriminate].
  destruct (span_name_spec s) as (H1 & H2 & H3).
  destruct (CreateView.span_name s) as [[|x run] [|d rest]];
    try discriminate.
  intros [= <- <-]. simpl in *. destruct H3 as [|[r [= -> ->]]]; [discriminate|].
  unfold TokenService.placeholder. rewrite H1. simpl.
  rewrite <- app_assoc. repeat split; [discriminate|assumption].
Qed.

Lemma set_add_In (x n : jsstring) (found : list jsstring) :
  In x (CreateView.set_add n found) <-> In x found \/ x = n.
Proof.
  unfold CreateView.set_add. destruct (existsb _ found) eqn:H.
  - apply existsb_exists in H as (y & Hy & Heq). apply str_eqb_eq in Heq.
    subst y. split; [tauto|]. intros [?| ->]; assumption.
  - rewrite in_app_iff. simpl. split.
    + intros [Hx|[<-|[]]]; auto.
    + intros [Hx| ->]; auto.
Qed.

Lemma set_add_NoDup (n : jsstring) (found : list jsstring) :
  NoDup found -> NoDup (CreateView.set_add n found).
Proof.
  intros Hnd. unfold CreateView.set_add.
  destruct (existsb _ found) eqn:H; [assumption|].
  apply (Permutation_NoDup (Permutation_cons_append found n)).
  constructor; [|assumption]. intros Hin.
  assert (existsb (str_eqb n) found = true); [|congruence].
  apply existsb_exists. exists n. split; [assumption|apply str_eqb_refl].
Qed.

Lemma exec_loop_NoDup (fuel : nat) :
  forall rest found,
    NoDup found -> NoDup (CreateView.exec_loop fuel rest found).
Proof.
  induction fuel as [|fuel IH]; intros rest found H; simpl; [assumption|].
  destruct rest as [|c rest]; [assumption|].
  destruct (CreateView.match_at (c :: rest)) as [[name after]|];
    apply IH; [now apply set_add_NoDup|assumption].
Qed.

(** X4: the detected names are pairwise distinct. *)
Theorem detectedVariables_NoDup (systemPrompt userPrompt : jsstring) :
  NoDup (CreateView.detectedVariables systemPrompt userPrompt).
Proof. apply exec_loop_NoDup. constructor. Qed.

Lemma exec_loop_sound (text : jsstring) (fuel : nat) :
  forall rest found pre,
    text = pre ++ rest ->
    forall n,
      In n (CreateView.exec_loop fuel rest found) ->
      In n found
      \/ (n <> [] /\ free_of RBRACE n = true
          /\ includes text (TokenService.placeholder n) = true).
Proof.
  induction fuel as [|fuel IH]; intros rest found pre Htext n Hn;
    simpl in Hn; [now left|].
  destruct rest as [|c rest]; [now left|].
  destruct (CreateView.match_at (c :: rest)) as [[name after]|] eqn:Hm.
  - apply match_at_spec in Hm as (Hrest & Hne & Hfree).
    destruct (IH after _ (pre ++ TokenService.placeholder name)
                ltac:(rewrite Htext, Hrest, <- app_assoc; reflexivity) n Hn)
      as [Hin|Hq]; [|now right].
    apply set_add_In in Hin as [Hin| ->]; [now left|right].
    repeat split; try assumption.
    apply includes_iff. exists pre, after. now rewrite Htext, Hrest.
  - apply (IH rest found (pre ++ [c])); [|assumption].
    rewrite Htext, <- app_assoc. reflexivity.
Qed.

(** X5: every detected name is non-empty, has no closing brace in it, and
    stands in the concatenation of the two templates between braces. *)
Theorem detectedVariables_sound (systemPrompt userPrompt n : jsstring) :
  In n (CreateView.detectedVariables systemPrompt userPrompt) ->
  n <> [] /\ free_of RBRACE n = true
  /\ includes (systemPrompt ++ userPrompt) (TokenService.placeholder n) = true.
Proof.
  intros H. unfold CreateView.detectedVariables in H.
  destruct (exec_loop_sound (systemPrompt ++ userPrompt) _ _ [] [] eq_refl n H)
    as [[]|Hq].
  exact Hq.
Qed.

Lemma detectedVariables_sound_witness :
  js "name" <> []
  /\ free_of RBRACE (js "name") = true
  /\ includes (js "You are {role}. " ++ js "Greet {name}!") (js "{name}") = true.
Proof.
  refine (detectedVariables_sound (js "You are {role}. ") (js "Greet {name}!")
            (js "name") _).
  simpl. auto.
Defined.

Lemma exec_loop_nil (fuel : nat) (found : list jsstring) :
  CreateView.exec_loop fuel [] found = found.
Proof. now destruct fuel. Qed.

(** On a template with un-nested placeholders the loop collects the
    non-empty names, one after the other. *)
Lemma exec_loop_render (toks : list token) :
  forallb wf_token toks = true ->
  forall fuel found,
    length (render toks) <= fuel ->
    CreateView.exec_loop fuel (render toks) found
    = fold_left (fun f n => CreateView.set_add n f) (placeholder_names toks)
        found.
Proof.
  induction toks as [|t toks IH]; intros Hwf fuel found Hfuel.
  - apply exec_loop_nil.
  - simpl in Hwf. apply andb_true_iff in Hwf as [Ht Hwf].
    specialize (IH Hwf). fold (render toks) in *.
    destruct t as [c|n]; cbn [render flat_map render_token app] in *;
      fold (render toks) in *.
    + apply negb_true_iff, is_brace_false in Ht as [Hc _].
      destruct fuel as [|fuel]; [simpl in Hfuel; lia|].
      cbn [CreateView.exec_loop CreateView.match_at].
      destruct (N.eqb_spec c LBRACE); [contradiction|].
      apply IH. simpl in Hfuel. lia.
    + unfold TokenService.placeholder in *. cbn [app] in *.
      rewrite <- app_assoc in *. cbn [app] in *.
      destruct fuel as [|fuel]; [simpl in Hfuel; lia|].
      cbn [CreateView.exec_loop CreateView.match_at].
      rewrite N.eqb_refl.
      rewrite span_name_closed by now apply brace_free_no_close.
      simpl in Hfuel. rewrite length_app in Hfuel. simpl in Hfuel.
      destruct n as [|x n].
      * cbn [app] in *. destruct fuel as [|fuel]; [lia|].
        cbn [CreateView.exec_loop CreateView.match_at].
        destruct (N.eqb_spec RBRACE LBRACE); [discriminate|].
        apply IH. lia.
      * apply IH. lia.
Qed.

Lemma scan_app (a b : jsstring) :
  forall pending ta,
    scan a pending = Some ta ->
    scan (a ++ b) pending = option_map (app ta) (scan b None).
Proof.
  induction a as [|c a IH]; intros pending ta H; simpl in *.
  - destruct pending; [discriminate|]. inversion H; subst.
    now destruct (scan b None).
  - destruct pending as [acc|].
    + destruct (N.eqb c RBRACE).
      * destruct (scan a None) as [ta'|] eqn:Ha; [|discriminate].
        inversion H; subst. rewrite (IH None ta' Ha).
        now destruct (scan b None).
      * destruct (N.eqb c LBRACE); [discriminate|]. now apply IH.
    + destruct (N.eqb c LBRACE); [now apply IH|].
      destruct (N.eqb c RBRACE); [discriminate|].
      destruct (scan a None) as [ta'|] eqn:Ha; [|discriminate].
      inversion H; subst. rewrite (IH None ta' Ha).
      now destruct (scan b None).
Qed.

(** The detected names of two parsed templates. *)
Lemma detectedVariables_collect (systemPrompt userPrompt : jsstring)
    (ts tu : list token) :
  parse_template systemPrompt = Some ts ->
  parse_template userPrompt = Some tu ->
  CreateView.detectedVariables systemPrompt userPrompt
  = collect (placeholder_names (ts ++ tu)).
Proof.
  intros Hs Hu.
  assert (Hboth : parse_template (systemPrompt ++ userPrompt) = Some (ts ++ tu)).
  { unfold parse_template in *. rewrite (scan_app _ _ None ts Hs), Hu.
    reflexivity. }
  destruct (parse_template_sound _ _ Hboth) as [Hrender Hwf].
  unfold CreateView.detectedVariables. rewrite <- Hrender.
  now apply exec_loop_render.
Qed.

(** X6: when the braces of both templates only form un-nested
    placeholders, the detected names are exactly the non-empty placeholder
    names of the system template followed by those of the user template,
    each once, in the order of first appearance. *)
Theorem detectedVariables_complete (systemPrompt userPrompt : jsstring)
    (ts tu : list token) :
  parse_template systemPrompt = Some ts ->
  parse_template userPrompt = Some tu ->
  CreateView.detectedVariables systemPrompt userPrompt
  = collect (placeholder_names (ts ++ tu)).
Proof. exact (detectedVariables_collect systemPrompt userPrompt ts tu). Qed.

Lemma detectedVariables_complete_witness :
  CreateView.detectedVariables (js "{a} and {b}{}") (js "{a}{c}")
  = [js "a"; js "b"; js "c"].
Proof.
  refine (detectedVariables_complete (js "{a} and {b}{}") (js "{a}{c}")
            (Hole (js "a") :: map Lit (js " and ") ++ [Hole (js "b"); Hole []])
            [Hole (js "a"); Hole (js "c")] _ _); reflexivity.
Defined.

(* ================================================================== *)
(** * The variables kept in step with the placeholders *)
(* ================================================================== *)

Lemma assoc_insert_index (n : N) (k v k' : jsstring)
    (obj : TokenService.Variables) :
  assoc k obj = None ->
  assoc k' (Editor.insert_index n (k, v) obj)
  = if str_eqb k k' then Some v else assoc k' obj.
Proof.
  induction obj as [|[k0 v0] obj IH]; simpl; intros Hk; [reflexivity|].
  destruct (str_eqb k0 k) eqn:Hk0; [discriminate|].
  destruct (Editor.array_index k0) as [m|]; [|reflexivity].
  destruct (m <? n)%N; [|reflexivity].
  simpl. rewrite (IH Hk).
  destruct (str_eqb k k') eqn:Hkk'; [|reflexivity].
  apply str_eqb_eq in Hkk'. subst k'. now rewrite Hk0.
Qed.

Lemma assoc_snoc (k v k' : jsstring) (obj : TokenService.Variables) :
  assoc k obj = None ->
  assoc k' (obj ++ [(k, v)]) = if str_eqb k k' then Some v else assoc k' obj.
Proof.
  induction obj as [|[k0 v0] obj IH]; simpl; intros Hk.
  - now destruct (str_eqb k k').
  - destruct (str_eqb k0 k) eqn:Hk0; [discriminate|]. rewrite (IH Hk).
    destruct (str_eqb k k') eqn:Hkk'; [|reflexivity].
    apply str_eqb_eq in Hkk'. subst k'. now rewrite Hk0.
Qed.

Lemma assoc_define_property (k v k' : jsstring) (obj : TokenService.Variables) :
  assoc k obj = None ->
  assoc k' (Editor.define_property k v obj)
  = if str_eqb k k' then Some v else assoc k' obj.
Proof.
  intros H. unfold Editor.define_property.
  destruct (Editor.array_index k);
    [now apply assoc_insert_index|now apply assoc_snoc].
Qed.

Lemma inherited_eq (a b : jsstring) :
  str_eqb a b = true -> Editor.inherited a = Editor.inherited b.
Proof. intros H. apply str_eqb_eq in H. now subst. Qed.

(** The entries of the mapping after the effect. *)
Lemma syncVariables_assoc (detected : list jsstring) :
  forall (prev : TokenService.Variables) (k : jsstring),
    assoc k (Editor.syncVariables prev detected)
    = match assoc k prev with
      | Some v => Some v
      | None =>
          if array_includes detected k && negb (Editor.inherited k)
          then Some [] else None
      end.
Proof.
  unfold Editor.syncVariables.
  induction detected as [|d detected IH]; intros prev k.
  - simpl. now destruct (assoc k prev).
  - cbn [fold_left]. rewrite IH. unfold Editor.reads_undefined.
    cbn [array_includes existsb].
    destruct (assoc d prev) as [vd|] eqn:Hd.
    + destruct (assoc k prev) eqn:Hk; [reflexivity|].
      destruct (str_eqb k d) eqn:Hkd; [|reflexivity].
      apply str_eqb_eq in Hkd. congruence.
    + destruct (Editor.inherited d) eqn:Hinh; cbn [negb].
      * destruct (assoc k prev) eqn:Hk; [reflexivity|].
        destruct (str_eqb k d) eqn:Hkd; [|reflexivity].
        rewrite (inherited_eq k d Hkd), Hinh. simpl.
        now rewrite andb_false_r.
      * rewrite (assoc_define_property d [] k prev Hd).
        rewrite (str_eqb_sym d k).
        destruct (str_eqb k d) eqn:Hkd.
        -- apply str_eqb_eq in Hkd. subst k. now rewrite Hd, Hinh.
        -- reflexivity.
Qed.

(** X7: after the effect, every entry the mapping had keeps its value; a
    detected name that was not a key is a key with the empty string,
    unless it names a property of [Object.prototype] (such a name is
    never added); and no other key appears. *)
Theorem syncVariables_lookup (detected : list jsstring) :
  forall (prev : TokenService.Variables) (k : jsstring),
    assoc k (Editor.syncVariables prev detected)
    = match assoc k prev with
      | Some v => Some v
      | None =>
          if array_includes detected k && negb (Editor.inherited k)
          then Some [] else None
      end.
Proof. exact (syncVariables_assoc detected). Qed.

Lemma sync_fixed (detected : list jsstring) (next : TokenService.Variables) :
  (forall v, In v detected -> Editor.reads_undefined next v = false) ->
  Editor.syncVariables next detected = next.
Proof.
  unfold Editor.syncVariables.
  induction detected as [|d detected IH]; intros H; [reflexivity|].
  cbn [fold_left]. rewrite (H d (or_introl eq_refl)).
  apply IH. intros v Hv. apply H. now right.
Qed.

(** X8: running the effect again with the same detected names changes
    nothing, not even the order of the entries. *)
Theorem syncVariables_idempotent (prev : TokenService.Variables)
    (detected : list jsstring) :
  Editor.syncVariables (Editor.syncVariables prev detected) detected
  = Editor.syncVariables prev detected.
Proof.
  apply sync_fixed. intros v Hv. unfold Editor.reads_undefined.
  rewrite syncVariables_assoc.
  destruct (assoc v prev); [reflexivity|].
  assert (Hinc : array_includes detected v = true).
  { apply existsb_exists. exists v. split; [assumption|apply str_eqb_refl]. }
  rewrite Hinc. now destruct (Editor.inherited v).
Qed.

Lemma plain_insert_index (n : N) (k v : jsstring)
    (obj : TokenService.Variables) :
  plain (Editor.insert_index n (k, v) obj)
  = brace_free k && brace_free v && plain obj.
Proof.
  induction obj as [|[k0 v0] obj IH]; simpl; [reflexivity|].
  destruct (Editor.array_index k0) as [m|]; [|reflexivity].
  destruct (m <? n)%N; [|reflexivity].
  simpl. rewrite IH.
  destruct (brace_free k0 && brace_free v0), (brace_free k && brace_free v);
    reflexivity.
Qed.

Lemma plain_define_property (k v : jsstring) (obj : TokenService.Variables) :
  plain (Editor.define_property k v obj)
  = brace_free k && brace_free v && plain obj.
Proof.
  unfold Editor.define_property. destruct (Editor.array_index k).
  - apply plain_insert_index.
  - unfold plain. rewrite forallb_app. simpl. rewrite andb_true_r.
    apply andb_comm.
Qed.

Lemma plain_sync (detected : list jsstring) :
  forall prev,
    plain prev = true -> forallb brace_free detected = true ->
    plain (Editor.syncVariables prev detected) = true.
Proof.
  unfold Editor.syncVariables.
  induction detected as [|d detected IH]; intros prev Hp Hd; [assumption|].
  simpl in Hd. apply andb_true_iff in Hd as [Hd Hrest].
  cbn [fold_left]. apply IH; [|assumption].
  destruct (Editor.reads_undefined prev d); [|assumption].
  rewrite plain_define_property, Hd, Hp. reflexivity.
Qed.

Lemma collect_In (names : list jsstring) (n : jsstring) :
  forall found,
    In n (fold_left (fun f x => CreateView.set_add x f) names found)
    <-> In n found \/ In n names.
Proof.
  induction names as [|x names IH]; intros found; simpl; [tauto|].
  rewrite IH, set_add_In. intuition (subst; auto).
Qed.

Lemma placeholder_names_In (toks : list token) (n : jsstring) :
  In n (placeholder_names toks) <-> n <> [] /\ In (Hole n) toks.
Proof.
  unfold placeholder_names. rewrite in_flat_map. split.
  - intros ([c|[|x m]] & Hin & Hn); try (now destruct Hn).
    destruct Hn as [<-|[]]. split; [discriminate|assumption].
  - intros [Hne Hin]. exists (Hole n). split; [assumption|].
    destruct n; [congruence|now left].
Qed.

Lemma wf_hole (toks : list token) (n : jsstring) :
  forallb wf_token toks = true -> In (Hole n) toks -> brace_free n = true.
Proof.
  intros Hwf Hin. rewrite forallb_forall in Hwf. exact (Hwf _ Hin).
Qed.

Lemma brace_free_flat_map {A : Type} (f : A -> jsstring) (l : list A) :
  (forall x, In x l -> brace_free (f x) = true) ->
  brace_free (flat_map f l) = true.
Proof.
  induction l as [|x l IH]; intros H; simpl; [reflexivity|].
  apply brace_free_app. split; [apply H; now left|].
  apply IH. intros y Hy. apply H. now right.
Qed.

(** X9: detection, the effect and the resolver together. When the braces
    of both templates only form un-nested placeholders with non-empty
    names, none of them the name of a property of [Object.prototype], and
    the mapping at hand has brace-free keys and values, then after the
    effect both resolved templates are free of braces: no placeholder is
    left for the model to see. *)
Theorem detect_sync_resolve (systemPrompt userPrompt : jsstring)
    (ts tu : list token) (prev : TokenService.Variables) :
  parse_template systemPrompt = Some ts ->
  parse_template userPrompt = Some tu ->
  plain prev = true ->
  (forall n, In (Hole n) (ts ++ tu) -> n <> [] /\ Editor.inherited n = false) ->
  let variables :=
    Editor.syncVariables prev
      (CreateView.detectedVariables systemPrompt userPrompt) in
  brace_free (TokenService.resolveVariables systemPrompt variables) = true
  /\ brace_free (TokenService.resolveVariables userPrompt variables) = true.
Proof.
  intros Hs Hu Hprev Hholes variables.
  destruct (parse_template_sound _ _ Hs) as [Hrs Hwfs].
  destruct (parse_template_sound _ _ Hu) as [Hru Hwfu].
  assert (Hwf : forallb wf_token (ts ++ tu) = true)
    by (rewrite forallb_app, Hwfs, Hwfu; reflexivity).
  assert (Hdet : forall n, In n (CreateView.detectedVariables systemPrompt userPrompt)
                           <-> In (Hole n) (ts ++ tu)).
  { intros n. rewrite (detectedVariables_collect _ _ ts tu Hs Hu).
    unfold collect. rewrite collect_In, placeholder_names_In.
    split; [intros [[]|[_ H]]; exact H|].
    intros H. right. split; [apply (Hholes n H)|assumption]. }
  assert (Hplain : plain variables = true).
  { apply plain_sync; [assumption|]. apply forallb_forall. intros n Hn.
    apply Hdet in Hn. eapply wf_hole; eassumption. }
  assert (Hfill : forall t, In t (ts ++ tu) -> brace_free (fill variables t) = true).
  { intros [c|n] Ht; simpl.
    - rewrite forallb_forall in Hwf. specialize (Hwf _ Ht). simpl in Hwf.
      now rewrite Hwf.
    - destruct (assoc n variables) as [v|] eqn:Hv.
      + eapply assoc_plain; eassumption.
      + exfalso. unfold variables in Hv. rewrite syncVariables_assoc in Hv.
        destruct (assoc n prev); [discriminate|].
        assert (Hinc : array_includes
                         (CreateView.detectedVariables systemPrompt userPrompt) n
                       = true).
        { apply existsb_exists. exists n.
          split; [now apply Hdet|apply str_eqb_refl]. }
        rewrite Hinc, (proj2 (Hholes n Ht)) in Hv. discriminate. }
  split.
  - rewrite <- Hrs, resolveVariables_render by assumption.
    apply brace_free_flat_map. intros t Ht. apply Hfill, in_or_app. now left.
  - rewrite <- Hru, resolveVariables_render by assumption.
    apply brace_free_flat_map. intros t Ht. apply Hfill, in_or_app. now right.
Qed.

Lemma detect_sync_resolve_witness :
  let variables :=
    Editor.syncVariables [(js "role", js "a poet")]
      (CreateView.detectedVariables (js "You are {role}.") (js "Greet {name}!")) in
  brace_free (TokenService.resolveVariables (js "You are {role}.") variables) = true
  /\ brace_free (TokenService.resolveVariables (js "Greet {name}!") variables) = true.
Proof.
  refine (detect_sync_resolve (js "You are {role}.") (js "Greet {name}!")
            (map Lit (js "You are ") ++ [Hole (js "role"); Lit 46%N])
            (map Lit (js "Greet ") ++ [Hole (js "name"); Lit 33%N])
            [(js "role", js "a poet")] eq_refl eq_refl eq_refl _).
  intros n Hn. simpl in Hn.
  repeat (destruct Hn as [Hn|Hn]; [try discriminate Hn|]); try contradiction;
    inversion Hn; subst; (split; [discriminate|reflexivity]).
Defined.

(* ================================================================== *)
(** * Splitting at a single code unit *)
(* ================================================================== *)

Lemma split_char_cons (d c : char) (s : jsstring) :
  split (c :: s) [d]
  = if N.eqb c d then [] :: split s [d] else cons_head c (split s [d]).
Proof.
  unfold split. cbn [split_from startsWith length Nat.sub].
  rewrite andb_true_r. reflexivity.
Qed.

Lemma split_char_free (d : char) (x : jsstring) :
  free_of d x = true -> split x [d] = [x].
Proof.
  induction x as [|c x IH]; [reflexivity|].
  intros H. simpl in H. apply andb_true_iff in H as [Hc Hx].
  rewrite split_char_cons, IH by assumption.
  apply negb_true_iff in Hc. now rewrite Hc.
Qed.

Lemma split_char_piece (d : char) (x s : jsstring) :
  free_of d x = true -> split (x ++ d :: s) [d] = x :: split s [d].
Proof.
  induction x as [|c x IH]; intros H.
  - cbn [app]. rewrite split_char_cons, N.eqb_refl. reflexivity.
  - simpl in H. apply andb_true_iff in H as [Hc Hx].
    cbn [app]. rewrite split_char_cons, IH by assumption.
    apply negb_true_iff in Hc. now rewrite Hc.
Qed.

(* ================================================================== *)
(** * The keys of the model selector *)
(* ================================================================== *)

Lemma array_includes_In (arr : list jsstring) (x : jsstring) :
  array_includes arr x = true <-> In x arr.
Proof.
  unfold array_includes. rewrite existsb_exists. split.
  - intros (y & Hy & Heq). apply str_eqb_eq in Heq. now subst.
  - intros H. exists x. split; [assumption|apply str_eqb_refl].
Qed.

(** X10: a key built for a model of a configuration is valid again when
    read back, provided neither the id nor the model name contains a
    colon (and the configuration is the first with its id). *)
Theorem model_key_valid (configs : list ApiConfig) (c : ApiConfig)
    (m : jsstring) :
  Editor.find_config (id c) configs = Some c ->
  In m (models c) ->
  free_of COLON (id c) = true -> free_of COLON m = true ->
  Editor.split_key (Editor.model_key c m) = (id c, Some m)
  /\ Editor.isValidModelKey (Editor.model_key c m) configs = true.
Proof.
  intros Hfind Hin Hid Hm.
  assert (Hsplit : Editor.split_key (Editor.model_key c m) = (id c, Some m)).
  { unfold Editor.split_key, Editor.model_key. cbn [app].
    rewrite split_char_piece, split_char_free by assumption. reflexivity. }
  split; [assumption|].
  unfold Editor.isValidModelKey. rewrite Hsplit, Hfind.
  now apply array_includes_In.
Qed.

Lemma model_key_valid_witness :
  Editor.split_key (Editor.model_key sample_config (js "llama2"))
  = (js "1", Some (js "llama2"))
  /\ Editor.isValidModelKey (Editor.model_key sample_config (js "llama2"))
       [sample_config] = true.
Proof.
  refine (model_key_valid [sample_config] sample_config (js "llama2") _ _ _ _);
    [reflexivity | now left | reflexivity | reflexivity].
Defined.

(** X11: a model name with a colon in it does not survive the key: the
    key is read back as the part of the name before its first colon, so
    the key is valid only if that part happens to be a model of the
    configuration. *)
Theorem model_key_truncates (configs : list ApiConfig) (c : ApiConfig)
    (a b : jsstring) :
  free_of COLON (id c) = true -> free_of COLON a = true ->
  Editor.split_key (Editor.model_key c (a ++ COLON :: b)) = (id c, Some a)
  /\ (Editor.find_config (id c) configs = Some c ->
      Editor.isValidModelKey (Editor.model_key c (a ++ COLON :: b)) configs
      = array_includes (models c) a).
Proof.
  intros Hid Ha.
  assert (Hsplit : Editor.split_key (Editor.model_key c (a ++ COLON :: b))
                   = (id c, Some a)).
  { unfold Editor.split_key, Editor.model_key. cbn [app].
    rewrite !split_char_piece by assumption.
    pose proof (split_from_nonempty [COLON] 0 b) as Hne.
    unfold split. now destruct (split_from [COLON] 0 b). }
  split; [assumption|]. intros Hfind.
  unfold Editor.isValidModelKey. now rewrite Hsplit, Hfind.
Qed.

Lemma model_key_truncates_witness :
  Editor.split_key
    (Editor.model_key
       {| id := js "1"; name := js "ollama"; baseUrl := js "http://localhost";
          apiKey := []; models := [js "llama3:8b"] |}
       (js "llama3" ++ COLON :: js "8b"))
  = (js "1", Some (js "llama3")).
Proof.
  refine (proj1 (model_key_truncates []
            {| id := js "1"; name := js "ollama"; baseUrl := js "http://localhost";
               apiKey := []; models := [js "llama3:8b"] |}
            (js "llama3") (js "8b") _ _)); reflexivity.
Defined.

(* ================================================================== *)
(** * The consumer of the stream *)
(* ================================================================== *)

Section ConsumerFacts.
Context {E : Engine}.

Lemma consume_strings (frames : list (jsstring * value)) :
  forall (rest : list ApiService.StreamChunk) (full : jsstring)
         (st : Editor.RunState),
    Editor.shown_output st = full ->
    exists usage,
      Editor.consume (map data_chunk frames ++ rest) full st
      = Editor.consume rest (full ++ concat (map fst frames))
          {| Editor.shown_output := full ++ concat (map fst frames);
             Editor.shown_usage := usage;
             Editor.shown_error := Editor.shown_error st |}.
Proof.
  induction frames as [|[s u] frames IH]; intros rest full st Hout.
  - exists (Editor.shown_usage st). simpl. rewrite app_nil_r, <- Hout.
    now destruct st.
  - cbn [map app Editor.consume data_chunk ApiService.chunk_error
         ApiService.chunk_content ApiService.chunk_usage fst snd concat].
    destruct s as [|c s].
    + cbn [truthy]. rewrite Hout.
      destruct (IH rest full
                  {| Editor.shown_output := full;
                     Editor.shown_usage :=
                       if truthy u then u else Editor.shown_usage st;
                     Editor.shown_error := Editor.shown_error st |} eq_refl)
        as [usage Heq].
      exists usage. exact Heq.
    + cbn [truthy Editor.append_content bind].
      destruct (IH rest (full ++ c :: s)
                  {| Editor.shown_output := full ++ c :: s;
                     Editor.shown_usage :=
                       if truthy u then u else Editor.shown_usage st;
                     Editor.shown_error := Editor.shown_error st |} eq_refl)
        as [usage Heq].
      exists usage. rewrite Heq, <- !app_assoc. reflexivity.
Qed.

(** X12: what a run shows. After increments with string contents the
    output is their concatenation, in order; an increment with an error
    then sets the error, keeps that output, and nothing that follows it
    is looked at. *)
Theorem consume_until_error (frames : list (jsstring * value))
    (c : char) (m : jsstring) (ignored : list ApiService.StreamChunk) :
  Editor.shown_output
    (Editor.consume (map data_chunk frames) [] Editor.run_start)
  = concat (map fst frames)
  /\ Editor.shown_error
       (Editor.consume (map data_chunk frames) [] Editor.run_start)
     = None
  /\ Editor.shown_output
       (Editor.consume (map data_chunk frames ++ error_only (c :: m) :: ignored)
          [] Editor.run_start)
     = concat (map fst frames)
  /\ Editor.shown_error
       (Editor.consume (map data_chunk frames ++ error_only (c :: m) :: ignored)
          [] Editor.run_start)
     = Some (c :: m).
Proof.
  destruct (consume_strings frames [] [] Editor.run_start eq_refl) as [u1 H1].
  destruct (consume_strings frames (error_only (c :: m) :: ignored) []
              Editor.run_start eq_refl) as [u2 H2].
  rewrite app_nil_r in H1. rewrite H1, H2. simpl. auto.
Qed.

End ConsumerFacts.

(* ================================================================== *)
(** * More about the streaming client *)
(* ================================================================== *)

Section StreamingMore.
Context {E : Engine}.

(** The increments of a stream that ends normally depend only on
    the text delivered, not on how the transport cut it into reads. *)
Theorem generateStream_chunking (config : ApiConfig) (model : jsstring)
    (messages : list ChatMessage) (pieces pieces' : list jsstring) :
  concat pieces = concat pieces' ->
  ApiService.generateStream config model messages (delivering pieces)
  = ApiService.generateStream config model messages (delivering pieces').
Proof. intros H. now rewrite !generateStream_delivering, H. Qed.

(** X13: the text after the last newline is never processed: a stream
    that ends without a final newline loses its last line, even when that
    line is a complete data frame. *)
Theorem generateStream_drops_unterminated (config : ApiConfig)
    (model : jsstring) (messages : list ChatMessage)
    (pieces lines : list jsstring) (final : jsstring) :
  forallb newline_free (lines ++ [final]) = true ->
  concat pieces = join (lines ++ [final]) [NEWLINE] ->
  ApiService.generateStream config model messages (delivering pieces)
  = flat_map ApiService.process_line lines.
Proof.
  intros Hfree Htext. rewrite generateStream_delivering, Htext.
  rewrite split_join_lines by (try assumption; now destruct lines).
  now rewrite removelast_last.
Qed.

(** X14: a blank line, the [DONE] sentinel and a line without the data
    prefix yield nothing and end nothing: the lines before and after such
    a line yield what they yield without it; in particular frames that
    follow the sentinel are still delivered. *)
Theorem generateStream_skips_other_lines (config : ApiConfig)
    (model : jsstring) (messages : list ChatMessage)
    (pieces before after : list jsstring) (other : jsstring) :
  trim other = [] \/ trim other = js "data: [DONE]"
  \/ startsWith (trim other) (js "data: ") = false ->
  forallb newline_free (before ++ other :: after) = true ->
  after <> [] ->
  concat pieces = join (before ++ other :: after) [NEWLINE] ->
  ApiService.process_line other = []
  /\ ApiService.generateStream config model messages (delivering pieces)
     = flat_map ApiService.process_line before
       ++ flat_map ApiService.process_line (removelast after).
Proof.
  intros Hother Hfree Hafter Htext.
  assert (Hskip : ApiService.process_line other = []).
  { unfold ApiService.process_line.
    destruct Hother as [->|[->|H]]; [reflexivity|reflexivity|].
    rewrite H. destruct (trim other); [reflexivity|].
    now destruct (str_eqb _ _). }
  split; [assumption|].
  rewrite generateStream_delivering, Htext.
  rewrite split_join_lines by (try assumption; now destruct before).
  rewrite removelast_app by discriminate.
  rewrite flat_map_app. f_equal.
  destruct after as [|y after]; [contradiction|].
  change (removelast (other :: y :: after))
    with (other :: removelast (y :: after)).
  cbn [flat_map]. now rewrite Hskip.
Qed.

(** X15: a data line whose payload decodes yields exactly one increment,
    whatever the payload holds (an object without [choices] gives an
    increment with empty content), except the payload [null], which
    yields none. *)
Theorem process_line_decoded (line : jsstring) (frame : json) :
  startsWith (trim line) (js "data: ") = true ->
  JSON.parse (slice (trim line) 6 None) = Some frame ->
  ApiService.process_line line
  = match frame with
    | JNull => []
    | _ => [{| ApiService.chunk_content :=
                 or_else (delta_content frame) (Some (JStr []));
               ApiService.chunk_usage := get_named frame (js "usage");
               ApiService.chunk_error := None |}]
    end.
Proof.
  intros Hdata Hparse. unfold ApiService.process_line.
  destruct (trim line) as [|c t] eqn:Ht; [discriminate|].
  destruct (str_eqb (c :: t) (js "data: [DONE]")) eqn:Hdone.
  - apply str_eqb_eq in Hdone. rewrite Hdone in Hparse.
    vm_compute in Hparse. discriminate.
  - rewrite Hdata, Hparse. now destruct frame.
Qed.

End StreamingMore.

Lemma generateStream_chunking_witness :
  ApiService.generateStream (E := sample_engine) sample_config (js "llama2") []
    (delivering [three_frames])
  = ApiService.generateStream (E := sample_engine) sample_config (js "llama2") []
      (delivering [firstn 7 three_frames; skipn 7 three_frames]).
Proof.
  refine (generateStream_chunking (E := sample_engine) sample_config
            (js "llama2") [] _ _ _). reflexivity.
Defined.

Lemma generateStream_drops_unterminated_witness :
  ApiService.generateStream (E := sample_engine) sample_config (js "llama2") []
    (delivering [frame_Hel ++ [NEWLINE] ++ frame_lo])
  = flat_map ApiService.process_line [frame_Hel].
Proof.
  refine (generateStream_drops_unterminated (E := sample_engine) sample_config
            (js "llama2") [] _ [frame_Hel] frame_lo _ _); reflexivity.
Defined.

Lemma generateStream_skips_other_lines_witness :
  ApiService.process_line frame_DONE = []
  /\ ApiService.generateStream (E := sample_engine) sample_config (js "llama2") []
       (delivering [frame_DONE ++ [NEWLINE] ++ frame_Hel ++ [NEWLINE]])
     = flat_map ApiService.process_line []
       ++ flat_map ApiService.process_line (removelast [frame_Hel; []]).
Proof.
  refine (generateStream_skips_other_lines (E := sample_engine) sample_config
            (js "llama2") [] _ [] [frame_Hel; []] frame_DONE _ _ _ _);
    [right; left; reflexivity | reflexivity | discriminate | reflexivity].
Defined.

Lemma process_line_decoded_witness :
  ApiService.process_line (js "data: {}")
  = [{| ApiService.chunk_content := Some (JStr []);
        ApiService.chunk_usage := None;
        ApiService.chunk_error := None |}].
Proof.
  refine (process_line_decoded (js "data: {}") (JObj []) _ _); reflexivity.
Defined.

(* ================================================================== *)
(** * More about generate, the addresses and fetchModels *)
(* ================================================================== *)

Lemma endsWith_app (a p : jsstring) : endsWith (a ++ p) p = true.
Proof. unfold endsWith. rewrite rev_app_distr. apply startsWith_app. Qed.

Lemma endsWith_iff (s p : jsstring) :
  endsWith s p = true <-> exists a, s = a ++ p.
Proof.
  unfold endsWith. rewrite startsWith_iff. split.
  - intros [r Hr]. exists (rev r).
    rewrite <- (rev_involutive s), Hr, rev_app_distr, rev_involutive.
    reflexivity.
  - intros [a ->]. exists (rev a). apply rev_app_distr.
Qed.

Lemma slice_drop_last (b : jsstring) (c : char) :
  slice (b ++ [c]) 0 (Some (-1)%Z) = b.
Proof.
  unfold slice, rel_index. rewrite length_app. cbn [length].
  cbn [Z.ltb Z.compare]. rewrite Z.min_l by lia. rewrite Z.max_l by lia.
  cbn [Z.to_nat skipn].
  replace (Z.to_nat (Z.of_nat (length b + 1) + -1 - 0)) with (length b) by lia.
  apply firstn_exact.
Qed.

Section GenerateMore.
Context {E : Engine}.

(** X16: [generate] issues exactly one request: a POST to an address
    that ends with the completions path, with the JSON content type, the
    API key as bearer token when there is one, and a body that holds the
    model, the messages and the temperature 0.7 and has no [stream] key.
    It always returns a content. When it reports an error the content is
    the empty string and there is no usage. A failed [fetch] gives its
    message, or the generic text for an empty one; a response that is
    not a success gives the nested [error.message] when that is a
    non-empty string, and "HTTP Error <status>" when the body does not
    decode or has no truthy [error.message]. A success whose body decodes
    to a value other than [null] gives no error, the nested
    [choices[0].message.content] when it is truthy, else the empty
    string, and the [usage] of the body. *)
Theorem generate_result (config : ApiConfig) (model : jsstring)
    (messages : list ChatMessage) (w : World) :
  let result := fst (ApiService.generate config model messages w) in
  let shown m := match m with
                 | [] => js "Unknown error occurred during API call."
                 | _ :: _ => m
                 end in
  let status_text r := js "HTTP Error " ++ decimal (status r) in
  exists request,
    snd (ApiService.generate config model messages w) = [request]
    /\ method request = js "POST"
    /\ endsWith (url request) (js "/chat/completions") = true
    /\ headers request
       = (js "Content-Type", js "application/json")
         :: match apiKey config with
            | [] => []
            | _ :: _ => [(js "Authorization", js "Bearer " ++ apiKey config)]
            end
    /\ body request = Some {| body_model := model;
                              body_messages := messages;
                              body_temperature := seven_tenths;
                              body_stream := None |}
    /\ ApiService.content result <> None
    /\ (ApiService.error result <> None ->
        ApiService.content result = Some (JStr [])
        /\ ApiService.usage result = None)
    /\ (forall m, w request = FetchRejected m ->
                  ApiService.error result = Some (shown m))
    /\ (forall r, w request = Resolved r -> ok r = false ->
          (forall body c s,
              response_json r = Normal body ->
              error_message body = Some (JStr (c :: s)) ->
              ApiService.error result = Some (c :: s))
          /\ (forall body,
                 response_json r = Normal body ->
                 truthy (error_message body) = false ->
                 ApiService.error result = Some (status_text r))
          /\ (forall e, response_json r = Throw e ->
                        ApiService.error result = Some (status_text r)))
    /\ (forall r data,
           w request = Resolved r -> ok r = true ->
           response_json r = Normal data -> data <> JNull ->
           result = {| ApiService.content :=
                         if truthy (message_content data)
                         then message_content data else Some (JStr []);
                       ApiService.usage := get_named data (js "usage");
                       ApiService.error := None |}).
Proof.
  intros result shown status_text. subst result shown status_text.
  exists (ApiService.completion_request config model messages None).
  unfold ApiService.generate. cbn [fst snd].
  split; [reflexivity|]. split; [reflexivity|].
  split; [apply completions_url_suffix|].
  split; [reflexivity|]. split; [reflexivity|].
  split; [|split; [|split; [|split]]].
  - destruct (ApiService.generate_try _) as [res|e] eqn:Htry; [|discriminate].
    unfold ApiService.generate_try in Htry.
    destruct (w _) as [m|r]; [discriminate|].
    destruct (negb (ok r)); [discriminate|].
    destruct (response_json r) as [data|]; [|discriminate]. cbn [bind] in Htry.
    destruct (read (Some data) (js "choices")) as [choices|]; [|discriminate].
    cbn [bind] in Htry.
    destruct (read (Some data) (js "usage")) as [usage_|]; [|discriminate].
    cbn [bind] in Htry. inversion Htry; subst. cbn.
    unfold ApiService.pick_content, or_else.
    destruct (truthy _) eqn:Ht; [|discriminate].
    intros Hnone. rewrite Hnone in Ht. discriminate.
  - destruct (ApiService.generate_try _) as [res|e] eqn:Htry.
    + rewrite (generate_try_no_error _ _ Htry). congruence.
    + intros _. split; reflexivity.
  - intros m ->. reflexivity.
  - intros r -> Hok. cbn [ApiService.generate_try]. rewrite Hok. cbn [negb].
    assert (Hfallback : truthy (ApiService.nested_message r) = false ->
              ApiService.error (ApiService.generate_failed (ApiService.http_error r))
              = Some (js "HTTP Error " ++ decimal (status r))).
    { intros H. now rewrite http_error_fallback. }
    split; [|split].
    + intros body c s Hbody Hmsg.
      unfold ApiService.http_error, or_else.
      rewrite (nested_message_decoded r body Hbody), Hmsg. reflexivity.
    + intros body Hbody Hfalsy. apply Hfallback.
      now rewrite (nested_message_decoded r body Hbody).
    + intros e He. apply Hfallback.
      now rewrite (nested_message_undecodable r e).
  - intros r data -> Hok Hjson Hnull. cbn [ApiService.generate_try].
    rewrite Hok, Hjson. cbn [negb bind].
    destruct data; try congruence; reflexivity.
Qed.

(** X17: how [fetchModels] asks and fails. It issues exactly one request,
    a GET without a body; for a base URL given as a stem or as the stem
    with a slash, the stem ending neither with a slash nor with the
    completions path, the address is the stem followed by /models. A
    failed [fetch] gives its message; a response that is not a success
    gives "HTTP Error <status>" whatever its body says; a body that does
    not decode gives the message of that error; and each of these
    results has no list. *)
Theorem fetchModels_failures (config : ApiConfig) (w : World) :
  let result := fst (ApiService.fetchModels config w) in
  let failure m := {| ApiService.success := false;
                      ApiService.result_models := None;
                      ApiService.result_error := Some m |} in
  exists request,
    snd (ApiService.fetchModels config w) = [request]
    /\ method request = js "GET"
    /\ body request = None
    /\ (forall stem,
           baseUrl config = stem \/ baseUrl config = stem ++ js "/" ->
           endsWith stem (js "/") = false ->
           endsWith stem (js "/chat/completions") = false ->
           url request = stem ++ js "/models")
    /\ (forall m, w request = FetchRejected m -> result = failure m)
    /\ (forall r, w request = Resolved r -> ok r = false ->
                  result = failure (js "HTTP Error " ++ decimal (status r)))
    /\ (forall r e, w request = Resolved r -> ok r = true ->
                    response_json r = Throw e ->
                    result = failure (message_of e)).
Proof.
  intros result failure. subst result failure.
  exists (ApiService.models_request config).
  unfold ApiService.fetchModels. cbn [fst snd].
  split; [reflexivity|]. split; [reflexivity|]. split; [reflexivity|].
  split; [|split; [|split]].
  - intros stem Hbase Hslash Hpath.
    cbn [url ApiService.models_request]. unfold ApiService.models_url.
    assert (Hstrip : ApiService.strip_slash (baseUrl config) = stem).
    { unfold ApiService.strip_slash. destruct Hbase as [-> | ->].
      - now rewrite Hslash.
      - rewrite endsWith_app. apply (slice_drop_last stem 47%N). }
    now rewrite Hstrip, Hpath.
  - intros m ->. reflexivity.
  - intros r -> Hok. cbn [ApiService.fetchModels_try]. now rewrite Hok.
  - intros r e -> Hok Hjson. cbn [ApiService.fetchModels_try].
    now rewrite Hok, Hjson.
Qed.

End GenerateMore.

Lemma strip_slash_spec (u : jsstring) :
  (endsWith u (js "/") = false /\ ApiService.strip_slash u = u)
  \/ (exists b, u = b ++ js "/" /\ ApiService.strip_slash u = b).
Proof.
  unfold ApiService.strip_slash. destruct (endsWith u (js "/")) eqn:H.
  - right. apply endsWith_iff in H as [b ->]. exists b.
    split; [reflexivity|apply slice_drop_last].
  - now left.
Qed.

Lemma completions_suffix_no_slash (u : jsstring) :
  endsWith u (js "/chat/completions") = true -> endsWith u (js "/") = false.
Proof.
  intros H. apply endsWith_iff in H as [a ->].
  unfold endsWith. rewrite rev_app_distr. reflexivity.
Qed.


Lemma trim_trimmed (s : jsstring) : trimmed s = true -> trim s = s.
Proof.
  destruct s as [|c s']; [reflexivity|].
  unfold trimmed. rewrite andb_true_iff, !negb_true_iff. intros [Hc Hl].
  unfold trim. cbn [trimStart]. rewrite Hc. unfold trimEnd.
  assert (Hne : c :: s' <> []) by discriminate.
  rewrite (app_removelast_last c Hne) at 1.
  rewrite rev_app_distr. cbn [rev app trimStart]. rewrite Hl.
  change (last (c :: s') c :: rev (removelast (c :: s')))
    with (rev [last (c :: s') c] ++ rev (removelast (c :: s'))).
  rewrite <- rev_app_distr, rev_involutive.
  symmetry. now apply app_removelast_last.
Qed.

Lemma replace_first_only (p m a : jsstring) :
  (forall a1 a2, a = a1 ++ a2 -> a2 <> [] -> startsWith (a2 ++ p) p = false) ->
  replace_first (a ++ p) p m = a ++ m.
Proof.
  induction a as [|c a IH]; intros H.
  - cbn [app]. destruct p as [|x p].
    + cbn. now rewrite app_nil_r.
    + cbn [replace_first].
      rewrite <- (app_nil_r (x :: p)) at 1. rewrite startsWith_app.
      rewrite skipn_all. now rewrite app_nil_r.
  - assert (Hs : startsWith ((c :: a) ++ p) p = false)
      by (apply (H [] (c :: a)); [reflexivity|discriminate]).
    cbn [app] in *. destruct p as [|x p]; [discriminate|].
    cbn [replace_first]. rewrite Hs. f_equal. apply IH.
    intros a1 a2 -> Hne. apply (H (c :: a1) a2); [reflexivity|exact Hne].
Qed.

Lemma no_earlier_occurrence (p a : jsstring) :
  p <> [] ->
  includes (a ++ removelast p) p = false ->
  forall a1 a2, a = a1 ++ a2 -> a2 <> [] -> startsWith (a2 ++ p) p = false.
Proof.
  intros Hp Hinc a1 a2 -> Hne.
  destruct (startsWith (a2 ++ p) p) eqn:Hs; [|reflexivity].
  apply startsWith_iff in Hs as [r Hr].
  assert (Hr' : r <> []).
  { intros ->. rewrite app_nil_r in Hr.
    apply (f_equal (@length char)) in Hr. rewrite length_app in Hr.
    destruct a2; [congruence|cbn [length] in Hr; lia]. }
  assert (Hinc' : includes ((a1 ++ a2) ++ removelast p) p = true).
  { apply includes_iff. exists a1, (removelast r).
    rewrite <- app_assoc, <- (removelast_app a2 Hp), Hr.
    now rewrite (removelast_app p Hr'). }
  congruence.
Qed.

Lemma includes_suffix_free (a p : jsstring) :
  p <> [] -> includes (a ++ removelast p) p = false -> endsWith a p = false.
Proof.
  intros Hp Hinc. destruct (endsWith a p) eqn:He; [|reflexivity].
  apply endsWith_iff in He as [x ->].
  assert (includes ((x ++ p) ++ removelast p) p = true)
    by (apply includes_iff; exists x, (removelast p); now rewrite <- app_assoc).
  congruence.
Qed.

(** X18: the address [generate] and [generateStream] post to always ends
    with the completions path, and it is a fixed point: a configuration
    whose base URL already is such an address is used as it is. *)
Theorem completions_url_normal (config config' : ApiConfig)
    (Hbase : baseUrl config' = ApiService.completions_url config) :
  endsWith (ApiService.completions_url config) (js "/chat/completions") = true
  /\ ApiService.completions_url config' = ApiService.completions_url config.
Proof.
  assert (Hend : endsWith (ApiService.completions_url config)
                   (js "/chat/completions") = true).
  { unfold ApiService.completions_url.
    destruct (endsWith (ApiService.strip_slash (baseUrl config)) _) eqn:He;
      cbn [negb]; [exact He|apply endsWith_app]. }
  split; [exact Hend|].
  unfold ApiService.completions_url at 1. rewrite Hbase.
  unfold ApiService.strip_slash.
  rewrite (completions_suffix_no_slash _ Hend), Hend. reflexivity.
Qed.

Lemma completions_url_normal_witness :
  endsWith (ApiService.completions_url sample_config)
    (js "/chat/completions") = true
  /\ ApiService.completions_url
       {| id := js "2"; name := js "copy";
          baseUrl := js "http://localhost:11434/v1/chat/completions";
          apiKey := []; models := [] |}
     = ApiService.completions_url sample_config.
Proof.
  apply (completions_url_normal sample_config
           {| id := js "2"; name := js "copy";
              baseUrl := js "http://localhost:11434/v1/chat/completions";
              apiKey := []; models := [] |}).
  reflexivity.
Defined.

(** X19: the four spellings of a base URL. For a stem that does not end
    with a slash and in which the completions path does not occur, the
    stem, the stem with a slash, the stem with the completions path, and
    that with a slash all give the same two addresses: completions at
    stem/chat/completions and the listing at stem/models. *)
Theorem addresses_of_spellings (config : ApiConfig) (stem : jsstring)
    (Hslash : endsWith stem (js "/") = false)
    (Hpath : includes (stem ++ js "/chat/completion")
                      (js "/chat/completions") = false)
    (Hbase : In (baseUrl config)
               [stem; stem ++ js "/";
                stem ++ js "/chat/completions";
                stem ++ js "/chat/completions/"]) :
  ApiService.completions_url config = stem ++ js "/chat/completions"
  /\ ApiService.models_url config = stem ++ js "/models".
Proof.
  assert (Hp : js "/chat/completions" <> []) by discriminate.
  assert (Hno : endsWith stem (js "/chat/completions") = false)
    by (apply includes_suffix_free; [exact Hp|exact Hpath]).
  assert (Hfull : endsWith (stem ++ js "/chat/completions") (js "/") = false)
    by (apply completions_suffix_no_slash, endsWith_app).
  assert (Hrep : replace_first (stem ++ js "/chat/completions")
                   (js "/chat/completions") (js "/models")
                 = stem ++ js "/models")
    by (apply replace_first_only, no_earlier_occurrence;
        [exact Hp|exact Hpath]).
  assert (Hstrip : ApiService.strip_slash (baseUrl config) = stem
                   \/ ApiService.strip_slash (baseUrl config)
                      = stem ++ js "/chat/completions").
  { destruct Hbase as [<-|[<-|[<-|[<-|[]]]]]; unfold ApiService.strip_slash.
    - left. now rewrite Hslash.
    - left. rewrite endsWith_app. apply slice_drop_last.
    - right. now rewrite Hfull.
    - right.
      change (stem ++ js "/chat/completions/")
        with (stem ++ js "/chat/completions" ++ js "/").
      rewrite app_assoc, endsWith_app. apply slice_drop_last. }
  unfold ApiService.completions_url, ApiService.models_url.
  destruct Hstrip as [-> | ->].
  - rewrite Hno. cbn [negb]. split; reflexivity.
  - rewrite endsWith_app. cbn [negb]. split; [reflexivity|exact Hrep].
Qed.

Lemma addresses_of_spellings_witness :
  ApiService.completions_url sample_config
  = js "http://localhost:11434/v1" ++ js "/chat/completions"
  /\ ApiService.models_url sample_config
     = js "http://localhost:11434/v1" ++ js "/models".
Proof.
  apply (addresses_of_spellings sample_config (js "http://localhost:11434/v1")).
  - reflexivity.
  - reflexivity.
  - right. left. reflexivity.
Defined.

(** X20: the address shown in the provider form is the one the client
    posts to, for a base URL that is not empty and has no white space at
    its ends; the form trims the base URL first, the client does not. *)
Theorem getComputedUrl_is_completions_url (config : ApiConfig)
    (Hne : baseUrl config <> [])
    (Htrim : trimmed (baseUrl config) = true) :
  ProvidersView.getComputedUrl (baseUrl config)
  = ApiService.completions_url config.
Proof.
  unfold ProvidersView.getComputedUrl, ApiService.completions_url,
    ApiService.strip_slash.
  destruct (baseUrl config) as [|c u] eqn:Hb; [congruence|].
  cbv zeta. rewrite (trim_trimmed _ Htrim). reflexivity.
Qed.

Lemma getComputedUrl_is_completions_url_witness :
  ProvidersView.getComputedUrl (baseUrl sample_config)
  = ApiService.completions_url sample_config.
Proof.
  apply (getComputedUrl_is_completions_url sample_config).
  - discriminate.
  - reflexivity.
Defined.

(* ================================================================== *)
(** * views/ProvidersView.tsx: the provider form *)
(* ================================================================== *)

Lemma with_models_same (form : ApiConfig) :
  ProvidersView.with_models form (models form) = form.
Proof. now destruct form. Qed.

Lemma filter_other (ms : list jsstring) (x : jsstring) :
  array_includes ms x = false ->
  filter (fun m => negb (str_eqb m x)) ms = ms.
Proof.
  induction ms as [|m ms IH]; [reflexivity|].
  unfold array_includes. cbn [existsb filter].
  rewrite orb_false_iff. intros [Hm Hms].
  rewrite (str_eqb_sym m x), Hm. cbn [negb]. f_equal. now apply IH.
Qed.

(** X21: [addModel], applied to the form it was made for. The trimmed
    name is among the models afterwards unless it is empty; no model is
    lost; a list without duplicates stays so; a second call with the same
    name changes nothing; and only the models of the form change. *)
Theorem addModel_models (modelName : jsstring) (form : ApiConfig) :
  let form' := ProvidersView.addModel modelName form form in
  (trim modelName <> [] -> In (trim modelName) (models form'))
  /\ (exists added, models form' = models form ++ added
                    /\ (added = [] \/ added = [trim modelName]))
  /\ (NoDup (models form) -> NoDup (models form'))
  /\ ProvidersView.addModel modelName form' form' = form'
  /\ ProvidersView.with_models form' (models form) = form.
Proof.
  cbv zeta.
  assert (Hsame : forall f,
            ProvidersView.addModel modelName f f = f
            \/ (exists c n, trim modelName = c :: n
                            /\ array_includes (models f) (c :: n) = false
                            /\ ProvidersView.addModel modelName f f
                               = ProvidersView.with_models f
                                   (models f ++ [c :: n]))).
  { intros f. unfold ProvidersView.addModel.
    destruct (trim modelName) as [|c n]; [now left|].
    destruct (array_includes (models f) (c :: n)) eqn:Hin; [now left|].
    right. now exists c, n. }
  assert (Hin : trim modelName <> [] ->
                In (trim modelName)
                   (models (ProvidersView.addModel modelName form form))).
  { unfold ProvidersView.addModel.
    destruct (trim modelName) as [|c n]; [congruence|]. intros _.
    destruct (array_includes (models form) (c :: n)) eqn:Hin.
    - now apply array_includes_In.
    - cbn [models ProvidersView.with_models]. apply in_or_app. right.
      now left. }
  split; [exact Hin|]. clear Hin.
  destruct (Hsame form) as [Heq | (c & n & Hn & Hnew & Heq)]; rewrite !Heq.
  - split; [exists []; rewrite app_nil_r; auto|].
    split; [trivial|].
    split; [reflexivity|apply with_models_same].
  - cbn [models ProvidersView.with_models]. rewrite Hn.
    split; [exists [c :: n]; auto|].
    split.
    + intros Hnd.
      apply (Permutation_NoDup (Permutation_cons_append _ _)).
      constructor; [|exact Hnd].
      intros Hc. apply array_includes_In in Hc. congruence.
    + split; [|now destruct form].
      unfold ProvidersView.addModel. rewrite Hn.
      cbn [models ProvidersView.with_models].
      assert (Hnow : array_includes (models form ++ [c :: n]) (c :: n) = true)
        by (apply array_includes_In, in_or_app; right; now left).
      now rewrite Hnow.
Qed.

(** X22: removing a model that was just added gives the form back, when
    the name was new; and [removeModel] removes every occurrence of the
    name and nothing else. *)
Theorem removeModel_undoes_addModel (modelName : jsstring) (form : ApiConfig)
    (Hnew : array_includes (models form) (trim modelName) = false) :
  ProvidersView.removeModel (trim modelName)
    (ProvidersView.addModel modelName form form) = form
  /\ (forall m x,
        In x (models (ProvidersView.removeModel m form))
        <-> In x (models form) /\ x <> m).
Proof.
  split.
  - unfold ProvidersView.addModel, ProvidersView.removeModel.
    destruct (trim modelName) as [|c n] eqn:Hn.
    + rewrite (filter_other _ _ Hnew). apply with_models_same.
    + rewrite Hnew. cbn [models ProvidersView.with_models].
      rewrite filter_app, (filter_other _ _ Hnew). cbn [filter].
      rewrite str_eqb_refl. cbn [negb]. rewrite app_nil_r.
      now destruct form.
  - intros m x. unfold ProvidersView.removeModel.
    cbn [models ProvidersView.with_models]. rewrite filter_In.
    rewrite negb_true_iff, str_eqb_neq. reflexivity.
Qed.

Lemma removeModel_undoes_addModel_witness :
  ProvidersView.removeModel (trim (js " gpt-4o "))
    (ProvidersView.addModel (js " gpt-4o ") sample_config sample_config)
  = sample_config
  /\ (forall m x,
        In x (models (ProvidersView.removeModel m sample_config))
        <-> In x (models sample_config) /\ x <> m).
Proof.
  apply (removeModel_undoes_addModel (js " gpt-4o ") sample_config).
  reflexivity.
Defined.

Lemma replace_config_spec (form : ApiConfig) (configs : list ApiConfig) :
  match ProvidersView.replace_config form configs with
  | Some saved =>
      exists before old after,
        configs = before ++ old :: after
        /\ id old = id form
        /\ Forall (fun c => id c <> id form) before
        /\ saved = before ++ form :: after
  | None => Forall (fun c => id c <> id form) configs
  end.
Proof.
  induction configs as [|c rest IH]; cbn [ProvidersView.replace_config].
  - constructor.
  - destruct (str_eqb (id c) (id form)) eqn:Hid.
    + apply str_eqb_eq in Hid. exists [], c, rest. now repeat split.
    + apply str_eqb_neq in Hid.
      destruct (ProvidersView.replace_config form rest) as [saved|].
      * destruct IH as (before & old & after & -> & Hold & Hbefore & ->).
        exists (c :: before), old, after. repeat split; auto.
      * now constructor.
Qed.

(** The two outcomes of [handleSave]. *)
Lemma handleSave_cases (form : ApiConfig) (configs : list ApiConfig)
    (uuid : jsstring) :
  match ProvidersView.handleSave form configs uuid with
  | None => name form = [] \/ baseUrl form = [] \/ models form = []
  | Some saved =>
      name form <> [] /\ baseUrl form <> [] /\ models form <> []
      /\ ((exists before old after,
              configs = before ++ old :: after
              /\ id old = id form
              /\ Forall (fun c => id c <> id form) before
              /\ saved = before ++ form :: after)
          \/ (Forall (fun c => id c <> id form) configs
              /\ saved = configs ++ [ProvidersView.with_id form uuid]))
  end.
Proof.
  unfold ProvidersView.handleSave.
  destruct (name form) as [|? ?]; [now left|].
  destruct (baseUrl form) as [|? ?]; [now right; left|].
  destruct (models form) as [|? ?]; [now right; right|].
  pose proof (replace_config_spec form configs) as H.
  destruct (ProvidersView.replace_config form configs) as [saved|].
  - repeat split; try discriminate. now left.
  - repeat split; try discriminate. now right.
Qed.


(** X24: deleting the provider that was just created gives the list
    back: for a form that is accepted and whose id no configuration has,
    and a fresh non-empty id that no configuration has either. *)
Theorem confirmDelete_undoes_handleSave (form : ApiConfig)
    (configs : list ApiConfig) (uuid : jsstring)
    (Hvalid : ProvidersView.handleSave form configs uuid <> None)
    (Hform : Forall (fun c => id c <> id form) configs)
    (Hfresh : Forall (fun c => id c <> uuid) configs)
    (Huuid : uuid <> []) :
  exists saved,
    ProvidersView.handleSave form configs uuid = Some saved
    /\ length saved = S (length configs)
    /\ ProvidersView.confirmDelete uuid saved = configs.
Proof.
  pose proof (handleSave_cases form configs uuid) as H.
  destruct (ProvidersView.handleSave form configs uuid) as [saved|];
    [|congruence].
  exists saved. split; [reflexivity|].
  destruct H as (_ & _ & _ & [(before & old & after & -> & Hold & _ & _)
                             |(_ & ->)]).
  - apply Forall_app in Hform as [_ Hform]. inversion Hform; subst.
    contradiction.
  - split; [rewrite length_app; cbn [length]; lia|].
    unfold ProvidersView.confirmDelete. destruct uuid as [|u us]; [congruence|].
    rewrite filter_app. cbn [filter ProvidersView.with_id id].
    rewrite str_eqb_refl. cbn [negb]. rewrite app_nil_r.
    clear - Hfresh. induction Hfresh as [|c rest Hc _ IH]; [reflexivity|].
    cbn [filter]. apply str_eqb_neq in Hc. rewrite Hc. cbn [negb].
    now rewrite IH.
Qed.

Lemma confirmDelete_undoes_handleSave_witness :
  exists saved,
    ProvidersView.handleSave
      {| id := js "draft"; name := js "OpenAI";
         baseUrl := js "https://api.openai.com/v1"; apiKey := [];
         models := [js "gpt-4o"] |}
      [sample_config] (js "7f3a") = Some saved
    /\ length saved = S (length [sample_config])
    /\ ProvidersView.confirmDelete (js "7f3a") saved = [sample_config].
Proof.
  apply (confirmDelete_undoes_handleSave
           {| id := js "draft"; name := js "OpenAI";
              baseUrl := js "https://api.openai.com/v1"; apiKey := [];
              models := [js "gpt-4o"] |}
           [sample_config] (js "7f3a")).
  - discriminate.
  - constructor; [discriminate|constructor].
  - constructor; [discriminate|constructor].
  - discriminate.
Defined.

(* ================================================================== *)
(** * views/LibraryView.tsx: the default models field of SettingsView *)
(* ================================================================== *)

Lemma split_char_snoc (d : char) (s : jsstring) :
  split (s ++ [d]) [d] = split s [d] ++ [[]].
Proof.
  induction s as [|c s IH].
  - cbn [app]. rewrite split_char_cons, N.eqb_refl. reflexivity.
  - cbn [app]. rewrite !split_char_cons, IH.
    destruct (N.eqb c d); [reflexivity|].
    pose proof (split_from_nonempty [d] 0 s) as Hne.
    change (split_from [d] 0 s) with (split s [d]) in Hne.
    destruct (split s [d]); [congruence|reflexivity].
Qed.

Lemma split_join_comma (m : jsstring) (ms : list jsstring) :
  Forall (fun x => free_of COMMA x = true) (m :: ms) ->
  split (join (m :: ms) (js ", ")) [COMMA] = m :: map (cons 32%N) ms.
Proof.
  revert m. induction ms as [|m' ms IH]; intros m H.
  - cbn [join map]. apply split_char_free. now inversion H.
  - inversion H as [|? ? Hm Hrest]; subst.
    change (join (m :: m' :: ms) (js ", "))
      with (m ++ COMMA :: 32%N :: join (m' :: ms) (js ", ")).
    rewrite (split_char_piece _ _ _ Hm), split_char_cons.
    change (N.eqb 32 COMMA) with false. cbv iota.
    rewrite (IH _ Hrest). reflexivity.
Qed.

Lemma trim_space (m : jsstring) : trim (32%N :: m) = trim m.
Proof. reflexivity. Qed.

(** X25: the default models field shows the list it would read back:
    parsing the text shown for a list of names gives the list again, when
    no name is empty, has white space at an end, or holds a comma. *)
Theorem defaultModels_round_trip (defaultModels : list jsstring)
    (Hnames : Forall (fun m => m <> [] /\ trimmed m = true
                               /\ free_of COMMA m = true) defaultModels) :
  SettingsView.parse_defaultModels (SettingsView.show_defaultModels defaultModels)
  = defaultModels.
Proof.
  unfold SettingsView.parse_defaultModels, SettingsView.show_defaultModels.
  destruct defaultModels as [|m ms]; [reflexivity|].
  rewrite split_join_comma
    by (eapply Forall_impl; [|exact Hnames]; now intros ? (_ & _ & ?)).
  cbn [map]. rewrite map_map.
  assert (Hall : forall l,
            Forall (fun m => m <> [] /\ trimmed m = true
                             /\ free_of COMMA m = true) l ->
            filter (fun s => match s with [] => false | _ :: _ => true end)
                   (map (fun x => trim (32%N :: x)) l) = l).
  { induction l as [|x l IH]; [reflexivity|].
    intros H. inversion H as [|? ? (Hne & Ht & _) Hl]; subst.
    cbn [map filter]. rewrite trim_space, (trim_trimmed _ Ht).
    destruct x; [congruence|]. now rewrite (IH Hl). }
  inversion Hnames as [|? ? (Hne & Ht & _) Hl]; subst.
  cbn [filter]. rewrite (trim_trimmed _ Ht).
  destruct m; [congruence|]. now rewrite (Hall _ Hl).
Qed.

Lemma defaultModels_round_trip_witness :
  SettingsView.parse_defaultModels
    (SettingsView.show_defaultModels [js "gpt-4o"; js "gpt-4o-mini"])
  = [js "gpt-4o"; js "gpt-4o-mini"].
Proof.
  apply (defaultModels_round_trip [js "gpt-4o"; js "gpt-4o-mini"]).
  repeat constructor; discriminate.
Defined.

(** X26: a comma typed at the end of the default models field is not
    kept: the text with the comma is read as the same list as the text
    without it, so the field, which shows the list that was read, shows
    the same text for both. *)
Theorem defaultModels_trailing_comma (text : jsstring) :
  SettingsView.parse_defaultModels (text ++ [COMMA])
  = SettingsView.parse_defaultModels text
  /\ SettingsView.show_defaultModels
       (SettingsView.parse_defaultModels (text ++ [COMMA]))
     = SettingsView.show_defaultModels (SettingsView.parse_defaultModels text).
Proof.
  assert (H : SettingsView.parse_defaultModels (text ++ [COMMA])
              = SettingsView.parse_defaultModels text).
  { unfold SettingsView.parse_defaultModels.
    rewrite split_char_snoc, map_app, filter_app. cbn [map filter].
    change (trim []) with (@nil char). cbv iota. apply app_nil_r. }
  split; [exact H|now rewrite H].
Qed.

(* ================================================================== *)
(** * services/storageService.ts: StorageService *)
(* ================================================================== *)

Lemma getItem_removeItem (k k' : jsstring) (st : StorageService.Storage) :
  StorageService.getItem k (StorageService.removeItem k' st)
  = if str_eqb k' k then None else StorageService.getItem k st.
Proof.
  induction st as [|[a v] st IH]; cbn [StorageService.removeItem filter fst].
  - now destruct (str_eqb k' k).
  - fold (StorageService.removeItem k' st).
    destruct (str_eqb a k') eqn:Ha; cbn [negb].
    + apply str_eqb_eq in Ha. subst a. rewrite IH.
      cbn [StorageService.getItem]. now destruct (str_eqb k' k).
    + cbn [StorageService.getItem]. rewrite IH.
      destruct (str_eqb a k) eqn:Hk; [|reflexivity].
      apply str_eqb_eq in Hk. subst a. rewrite str_eqb_sym in Ha.
      now rewrite Ha.
Qed.

Lemma getItem_setItem (k k' v : jsstring) (st : StorageService.Storage) :
  StorageService.getItem k (StorageService.setItem k' v st)
  = if str_eqb k' k then Some v else StorageService.getItem k st.
Proof.
  unfold StorageService.setItem. cbn [StorageService.getItem].
  rewrite getItem_removeItem. now destruct (str_eqb k' k).
Qed.

Lemma getItem_migrate_key (st : StorageService.Storage) (o n k : jsstring) :
  o <> n ->
  StorageService.getItem k (StorageService.migrate_key st (o, n))
  = if str_eqb o k then None
    else if str_eqb n k
         then match StorageService.getItem o st with
              | Some v => Some v
              | None => StorageService.getItem k st
              end
         else StorageService.getItem k st.
Proof.
  intros Hon. unfold StorageService.migrate_key. cbn [fst snd].
  destruct (StorageService.getItem o st) as [v|] eqn:Ho.
  - rewrite getItem_removeItem, getItem_setItem. reflexivity.
  - destruct (str_eqb o k) eqn:Hk.
    + apply str_eqb_eq in Hk. now subst k.
    + now destruct (str_eqb n k).
Qed.

Lemma getItem_migrate (l : list (jsstring * jsstring)) :
  keys_apart l ->
  forall (st : StorageService.Storage) (k : jsstring),
    StorageService.getItem k (fold_left StorageService.migrate_key l st)
    = if existsb (fun p => str_eqb (fst p) k) l then None
      else match find (fun p => str_eqb (snd p) k) l with
           | Some p => match StorageService.getItem (fst p) st with
                       | Some v => Some v
                       | None => StorageService.getItem k st
                       end
           | None => StorageService.getItem k st
           end.
Proof.
  induction l as [|[o n] l IH]; intros Hap st k; [reflexivity|].
  destruct Hap as (Hon & Hrest & Hap).
  cbn [fold_left existsb find fst snd]. rewrite (IH Hap).
  assert (Hold : forall p, In p l ->
            StorageService.getItem (fst p) (StorageService.migrate_key st (o, n))
            = StorageService.getItem (fst p) st).
  { intros p Hp. rewrite Forall_forall in Hrest.
    destruct (Hrest p Hp) as (H1 & H2 & _).
    rewrite (getItem_migrate_key _ _ _ _ Hon).
    assert (Ho : str_eqb o (fst p) = false) by (apply str_eqb_neq; congruence).
    assert (Hn : str_eqb n (fst p) = false) by (apply str_eqb_neq; congruence).
    now rewrite Ho, Hn. }
  rewrite (getItem_migrate_key _ _ _ _ Hon).
  destruct (str_eqb o k) eqn:Hok.
  - apply str_eqb_eq in Hok. subst k. cbn [orb].
    assert (He : existsb (fun p => str_eqb (fst p) o) l = false).
    { apply not_true_is_false. intros He. apply existsb_exists in He
        as (p & Hp & Heq). apply str_eqb_eq in Heq.
      rewrite Forall_forall in Hrest. destruct (Hrest p Hp) as (H1 & _).
      contradiction. }
    rewrite He.
    destruct (find (fun p => str_eqb (snd p) o) l) as [p|] eqn:Hf;
      [|reflexivity].
    apply find_some in Hf as [Hp Heq]. apply str_eqb_eq in Heq.
    rewrite Forall_forall in Hrest. destruct (Hrest p Hp) as (_ & _ & H3 & _).
    contradiction.
  - cbn [orb]. destruct (str_eqb n k) eqn:Hnk.
    + apply str_eqb_eq in Hnk. subst k.
      assert (He : existsb (fun p => str_eqb (fst p) n) l = false).
      { apply not_true_is_false. intros He. apply existsb_exists in He
          as (p & Hp & Heq). apply str_eqb_eq in Heq.
        rewrite Forall_forall in Hrest.
        destruct (Hrest p Hp) as (_ & H2 & _). contradiction. }
      rewrite He.
      destruct (find (fun p => str_eqb (snd p) n) l) as [p|] eqn:Hf;
        [|reflexivity].
      apply find_some in Hf as [Hp Heq]. apply str_eqb_eq in Heq.
      rewrite Forall_forall in Hrest.
      destruct (Hrest p Hp) as (_ & _ & _ & H4). contradiction.
    + destruct (existsb (fun p => str_eqb (fst p) k) l); [reflexivity|].
      destruct (find (fun p => str_eqb (snd p) k) l) as [p|] eqn:Hf;
        [|reflexivity].
      apply find_some in Hf as [Hp _]. now rewrite (Hold p Hp).
Qed.

Lemma keysToMigrate_apart : keys_apart StorageService.keysToMigrate.
Proof.
  cbn [keys_apart StorageService.keysToMigrate].
  repeat match goal with
         | |- _ /\ _ => split
         | |- Forall _ _ => constructor
         | |- True => exact I
         | |- _ <> _ => apply str_eqb_neq; vm_compute; reflexivity
         end.
Qed.

(** X27: the migration of the legacy keys. It runs only when there are
    legacy prompts and no new prompts, and then every legacy key is gone,
    every new key holds the value of its legacy key (or keeps its own
    when the legacy key had none), and no other key changes. Otherwise
    the storage is left alone. Running it a second time changes
    nothing. *)
Theorem migrateData_moves_legacy_keys (st : StorageService.Storage) :
  let st' := StorageService.migrateData st in
  (StorageService.has_item (js "pf_prompts") st = true ->
   StorageService.has_item StorageService.PROMPTS st = false ->
   (forall old new, In (old, new) StorageService.keysToMigrate ->
      StorageService.getItem old st' = None
      /\ StorageService.getItem new st'
         = match StorageService.getItem old st with
           | Some v => Some v
           | None => StorageService.getItem new st
           end)
   /\ (forall k, ~ In k (map fst StorageService.keysToMigrate) ->
                 ~ In k (map snd StorageService.keysToMigrate) ->
                 StorageService.getItem k st' = StorageService.getItem k st))
  /\ (StorageService.has_item (js "pf_prompts") st = false
      \/ StorageService.has_item StorageService.PROMPTS st = true ->
      st' = st)
  /\ StorageService.migrateData st' = st'.
Proof.
  cbv zeta.
  assert (Hget := getItem_migrate _ keysToMigrate_apart st).
  split; [|split].
  - intros Hl Hn. unfold StorageService.migrateData. rewrite Hl, Hn.
    cbn [negb andb]. split.
    + intros old new Hin. rewrite !Hget.
      cbn [In StorageService.keysToMigrate] in Hin.
      repeat (destruct Hin as [Hin|Hin];
              [inversion Hin; subst; split; vm_compute; reflexivity|]).
      destruct Hin.
    + intros k Hk1 Hk2. rewrite Hget.
      destruct (existsb _ _) eqn:He.
      * apply existsb_exists in He as (p & Hp & Heq).
        apply str_eqb_eq in Heq. subst k. elim Hk1. now apply in_map.
      * destruct (find _ _) as [p|] eqn:Hf; [|reflexivity].
        apply find_some in Hf as [Hp Heq]. apply str_eqb_eq in Heq. subst k.
        elim Hk2. now apply in_map.
  - intros H. unfold StorageService.migrateData.
    destruct H as [-> | ->]; [reflexivity|]. now rewrite andb_false_r.
  - destruct (StorageService.has_item (js "pf_prompts") st
              && negb (StorageService.has_item StorageService.PROMPTS st))
      eqn:Hrun.
    + assert (Hst : StorageService.migrateData st
                    = fold_left StorageService.migrate_key
                        StorageService.keysToMigrate st)
        by (unfold StorageService.migrateData; now rewrite Hrun).
      rewrite Hst. unfold StorageService.migrateData.
      unfold StorageService.has_item at 1. rewrite Hget.
      reflexivity.
    + assert (Hst : StorageService.migrateData st = st)
        by (unfold StorageService.migrateData; now rewrite Hrun).
      now rewrite !Hst.
Qed.

Lemma lookup_last_snoc (k k' : jsstring) (v : json)
    (members : list (jsstring * json)) :
  lookup_last k (members ++ [(k', v)])
  = if str_eqb k' k then Some v else lookup_last k members.
Proof.
  induction members as [|[a x] members IH]; cbn [app lookup_last].
  - reflexivity.
  - rewrite IH. now destruct (str_eqb k' k).
Qed.

Lemma read_not_null (c : json) (k : jsstring) :
  c <> JNull -> read (Some c) k = Normal (get_named c k).
Proof. destruct c; try reflexivity. congruence. Qed.

Lemma normalize_config_normalized (c : json) :
  c <> JNull ->
  exists c', StorageService.normalize_config c = Normal c' /\ normalized c c'.
Proof.
  intros Hc. unfold StorageService.normalize_config.
  rewrite (read_not_null _ _ Hc). cbn [bind].
  assert (Hkey : forall k, k <> js "models" -> str_eqb (js "models") k = false)
    by (intros k Hk; apply str_eqb_neq; congruence).
  destruct (isArray (get_named c (js "models"))) as [items|] eqn:Harr.
  - eexists. split; [reflexivity|].
    exists (StorageService.spread c ++ [(js "models", JArr items)]), items.
    split; [reflexivity|]. split; [now rewrite lookup_last_snoc|].
    split; [|split].
    + intros stored Hs. rewrite Hs in Harr. cbn in Harr. congruence.
    + intros H. congruence.
    + intros k Hk. now rewrite lookup_last_snoc, (Hkey k Hk).
  - rewrite (read_not_null _ _ Hc). cbn [bind].
    set (fallback := match get_named c (js "model") with
                     | Some m => if truthy (Some m) then [m]
                                 else [JStr (js "gpt-4o")]
                     | None => [JStr (js "gpt-4o")]
                     end).
    exists (JObj (StorageService.spread c ++ [(js "models", JArr fallback)])).
    split.
    + unfold fallback. destruct (get_named c (js "model")) as [m|];
        [|reflexivity].
      now destruct (truthy (Some m)).
    + exists (StorageService.spread c ++ [(js "models", JArr fallback)]),
        fallback.
      split; [reflexivity|]. split; [now rewrite lookup_last_snoc|].
      split; [|split].
      * intros stored Hs. rewrite Hs in Harr. discriminate.
      * reflexivity.
      * intros k Hk. now rewrite lookup_last_snoc, (Hkey k Hk).
Qed.

Lemma normalize_all (items : list json) :
  (In JNull items ->
   exists e, sequence (map StorageService.normalize_config items) = Throw e)
  /\ (~ In JNull items ->
      exists configs,
        sequence (map StorageService.normalize_config items) = Normal configs
        /\ Forall2 normalized items configs).
Proof.
  induction items as [|c items [IHnull IHok]]; cbn [map sequence In].
  - split; [intros []|]. intros _. exists []. split; [reflexivity|constructor].
  - split.
    + intros [->|Hin]; [eexists; reflexivity|].
      destruct (IHnull Hin) as [e He]. rewrite He.
      destruct (StorageService.normalize_config c); eexists; reflexivity.
    + intros Hno.
      assert (Hc : c <> JNull) by (intros ->; apply Hno; now left).
      destruct (normalize_config_normalized c Hc) as (c' & -> & Hn).
      destruct IHok as (configs & -> & Hall);
        [intros Hin; apply Hno; now right|].
      exists (c' :: configs). split; [reflexivity|now constructor].
Qed.

(** X28: what [getConfigs] makes of a stored array. Every stored
    configuration comes back, in order, as an object with a [models]
    array: the stored array, else the one-element array of a truthy
    [model], else the default model; its other properties are those
    stored. A single [null] among the stored configurations makes the
    whole list fall back to the default configuration. *)
Theorem getConfigs_normalizes (DEFAULT_SETTINGS : json)
    (st : StorageService.Storage) (data : jsstring) (items : list json)
    (Hstored : StorageService.getItem StorageService.PROVIDERS st = Some data)
    (Hparsed : JSON.parse data = Some (JArr items)) :
  (In JNull items ->
   StorageService.getConfigs DEFAULT_SETTINGS st = [DEFAULT_SETTINGS])
  /\ (~ In JNull items ->
      Forall2 normalized items (StorageService.getConfigs DEFAULT_SETTINGS st)).
Proof.
  unfold StorageService.getConfigs. rewrite Hstored.
  destruct data as [|d data]; [vm_compute in Hparsed; discriminate|].
  rewrite Hparsed. destruct (normalize_all items) as [Hnull Hok]. split.
  - intros Hin. destruct (Hnull Hin) as [e ->]. reflexivity.
  - intros Hno. destruct (Hok Hno) as (configs & -> & Hall). exact Hall.
Qed.

Lemma getConfigs_normalizes_witness :
  (In JNull [JObj [(js "name", JStr (js "old")); (js "model", JStr (js "gpt-4"))]] ->
   StorageService.getConfigs (JObj [])
     [(StorageService.PROVIDERS, jq "[{'name':'old','model':'gpt-4'}]")]
   = [JObj []])
  /\ (~ In JNull [JObj [(js "name", JStr (js "old"));
                        (js "model", JStr (js "gpt-4"))]] ->
      Forall2 normalized
        [JObj [(js "name", JStr (js "old")); (js "model", JStr (js "gpt-4"))]]
        (StorageService.getConfigs (JObj [])
           [(StorageService.PROVIDERS, jq "[{'name':'old','model':'gpt-4'}]")])).
Proof.
  apply (getConfigs_normalizes (JObj [])
           [(StorageService.PROVIDERS, jq "[{'name':'old','model':'gpt-4'}]")]
           (jq "[{'name':'old','model':'gpt-4'}]")
           [JObj [(js "name", JStr (js "old")); (js "model", JStr (js "gpt-4"))]]).
  - reflexivity.
  - vm_compute. reflexivity.
Defined.

(* ================================================================== *)
(** * views/CreateView.tsx: the name of the downloaded file *)
(* ================================================================== *)

Lemma sanitize_safe (c : char) :
  let safe d := ((97 <= d /\ d <= 122) \/ (48 <= d /\ d <= 57) \/ d = 95)%N in
  safe (Editor.sanitize c)
  /\ Editor.sanitize (Editor.sanitize c) = Editor.sanitize c.
Proof.
  cbv zeta. unfold Editor.sanitize.
  destruct (N.leb_spec 97 c), (N.leb_spec c 122), (N.leb_spec 48 c),
    (N.leb_spec c 57), (N.leb_spec 65 c), (N.leb_spec c 90);
    cbn [andb orb];
    repeat match goal with
           | |- context [N.leb ?a ?b] => destruct (N.leb_spec a b)
           end;
    cbn [andb orb]; split; lia.
Qed.

(** X29: the name of the downloaded file. It is a stem followed by
    [.py]; the stem holds only lower-case ASCII letters, digits and
    underscores, so no dot, slash or space; it has one code unit for each
    code unit of a non-empty title; and a title that already is such a
    stem is used unchanged. *)
Theorem download_name_is_safe (saveTitle : jsstring) :
  exists stem,
    Editor.download_name saveTitle = stem ++ js ".py"
    /\ Forall (fun c => (97 <= c /\ c <= 122) \/ (48 <= c /\ c <= 57)
                        \/ c = 95)%N stem
    /\ (saveTitle <> [] -> length stem = length saveTitle)
    /\ Editor.download_name stem = stem ++ js ".py".
Proof.
  assert (Hstem : forall t,
            Forall (fun c => (97 <= c /\ c <= 122) \/ (48 <= c /\ c <= 57)
                             \/ c = 95)%N (map Editor.sanitize t)
            /\ map Editor.sanitize (map Editor.sanitize t)
               = map Editor.sanitize t).
  { intros t. split.
    - apply Forall_forall. intros x Hx. apply in_map_iff in Hx as (y & <- & _).
      apply (sanitize_safe y).
    - rewrite map_map. apply map_ext. intros y. apply (sanitize_safe y). }
  destruct saveTitle as [|c t].
  - exists (map Editor.sanitize (js "prompt_studio_export")).
    split; [reflexivity|]. split; [apply Hstem|].
    split; [congruence|reflexivity].
  - exists (map Editor.sanitize (c :: t)). split; [reflexivity|].
    split; [apply Hstem|]. split; [intros _; apply length_map|].
    destruct (Hstem (c :: t)) as [_ Hidem].
    cbn [map] in *. cbn [Editor.download_name]. cbn [map]. now rewrite Hidem.
Qed.

(** X30: the stored selection. Reading back the provider, the model or
    the theme that was just stored gives it again, except that an empty
    provider id reads as [default] and an empty theme as [dark]; and
    storing one of the three leaves the other two as they were. *)
Theorem stored_selection (st : StorageService.Storage)
    (i model theme : jsstring) :
  StorageService.getActiveConfigId (StorageService.setActiveConfigId i st)
  = ApiService.or_default i (js "default")
  /\ StorageService.getActiveModel (StorageService.setActiveModel model st)
     = model
  /\ StorageService.getTheme (StorageService.saveTheme theme st)
     = ApiService.or_default theme (js "dark")
  /\ StorageService.getActiveModel (StorageService.setActiveConfigId i st)
     = StorageService.getActiveModel st
  /\ StorageService.getTheme (StorageService.setActiveConfigId i st)
     = StorageService.getTheme st
  /\ StorageService.getActiveConfigId (StorageService.setActiveModel model st)
     = StorageService.getActiveConfigId st
  /\ StorageService.getTheme (StorageService.setActiveModel model st)
     = StorageService.getTheme st
  /\ StorageService.getActiveConfigId (StorageService.saveTheme theme st)
     = StorageService.getActiveConfigId st
  /\ StorageService.getActiveModel (StorageService.saveTheme theme st)
     = StorageService.getActiveModel st.
Proof.
  unfold StorageService.getActiveConfigId, StorageService.getActiveModel,
    StorageService.getTheme, StorageService.setActiveConfigId,
    StorageService.setActiveModel, StorageService.saveTheme,
    StorageService.get_or.
  rewrite !getItem_setItem.
  destruct i, model, theme; repeat split; reflexivity.
Qed.
